(** * DSourceComboer: a shallow embedding of the combo-construction engine

    Source: [src/libraries/ANALYSIS/DSourceComboer.cc] (with
    [libraries/HDGEOMETRY/DGeometry.cc] for the target geometry).

    Conventions of the embedding.
    - Pointers are addresses ([nat]); two pointers are the same object iff
      the addresses are equal.  [0] is [nullptr].
    - A [std::vector] is a [list]; a [std::map]/[std::unordered_map] is a
      [gmap]; [operator[]] on a map default-inserts, [emplace]/[insert] never
      overwrite an existing key.
    - Undefined behaviour (null dereference, iterator arithmetic outside a
      container, an exception that is not caught) is the result [None].
    - [double] is idealised as an exact rational ([Q]): the model is the
      computation on doubles where no operation rounds, as at the small
      dyadic values of the evaluations and of [Binning.bins_cover_target].
    - [size_t] has 64 bits and wraps around. *)

From Stdlib Require Import ZArith QArith Qround List Bool Lia Lqa Permutation Sorted.
From stdpp Require Import base decidable countable gmap list option.
From stdpp Require sorting.
From Stdlib Require String.

Close Scope Q_scope.
Open Scope nat_scope.

Set Warnings "-register-all".

(** ** Basic types *)

(** Particle kinds.  [particleType.h] is not part of the sources at hand; the
    enumeration below is the fragment of [Particle_t] the comboer code names
    ([Unknown], [Gamma]) together with representative charged, massive-neutral
    and decaying kinds. *)
Inductive Particle_t :=
  | Unknown | Gamma | Neutron | KLong
  | PiPlus | PiMinus | KPlus | Proton
  | Pi0 | Eta | omega | KShort.

Definition Particle_code (p : Particle_t) : nat :=
  match p with
  | Unknown => 0 | Gamma => 1 | Neutron => 2 | KLong => 3
  | PiPlus => 4 | PiMinus => 5 | KPlus => 6 | Proton => 7
  | Pi0 => 8 | Eta => 9 | omega => 10 | KShort => 11
  end.

Definition Particle_of_code (n : nat) : option Particle_t :=
  match n with
  | 0 => Some Unknown | 1 => Some Gamma | 2 => Some Neutron | 3 => Some KLong
  | 4 => Some PiPlus | 5 => Some PiMinus | 6 => Some KPlus | 7 => Some Proton
  | 8 => Some Pi0 | 9 => Some Eta | 10 => Some omega | 11 => Some KShort
  | _ => None
  end.

#[global] Instance Particle_eq_dec : EqDecision Particle_t.
Proof. solve_decision. Defined.

#[global] Instance Particle_countable : Countable Particle_t.
Proof.
  apply (inj_countable Particle_code Particle_of_code).
  intros []; reflexivity.
Defined.

(** [ParticleCharge] of [particleType.h], on the fragment above. *)
Definition ParticleCharge (p : Particle_t) : Z :=
  match p with
  | PiPlus | KPlus | Proton => 1
  | PiMinus => -1
  | _ => 0
  end%Z.

(** [Charge_t]: the charge content of a grouping. *)
Inductive Charge_t := d_Charged | d_Neutral | d_AllCharges.

#[global] Instance Charge_eq_dec : EqDecision Charge_t.
Proof. solve_decision. Defined.

(** [ComboingStage_t]. *)
Inductive ComboingStage_t :=
  | d_ChargedStage | d_MixedStage_ZIndependent | d_MixedStage.

#[global] Instance ComboingStage_eq_dec : EqDecision ComboingStage_t.
Proof. solve_decision. Defined.

(** A detected particle or shower ([const JObject*]): its address. *)
Abbreviation JObject := nat (only parsing).

(** [const DSourceComboInfo*]: the address of a registered info. *)
Abbreviation InfoPtr := nat (only parsing).

(** [DSourceComboUse = tuple<Particle_t, signed char, const DSourceComboInfo*>]:
    decay kind (or [Unknown]), vertex-z bin, shape. *)
Record DSourceComboUse := MkUse {
  use_decay_pid : Particle_t;     (* std::get<0> *)
  use_vertex_zbin : Z;            (* std::get<1> *)
  use_info : InfoPtr              (* std::get<2> *)
}.

#[global] Instance DSourceComboUse_eq_dec : EqDecision DSourceComboUse.
Proof. solve_decision. Defined.

#[global] Instance DSourceComboUse_countable : Countable DSourceComboUse.
Proof.
  apply (inj_countable'
           (fun u => (use_decay_pid u, use_vertex_zbin u, use_info u))
           (fun t => MkUse t.1.1 t.1.2 t.2)).
  intros []; reflexivity.
Defined.

(** Modelled from the spec: the two sentinel vertex-z indices of
    [DSourceComboInfo] (declared in a header that is not in the sources): one
    for "z-independent", one for "unknown"; real bins are non-negative. *)
Definition Get_VertexZIndex_ZIndependent : Z := (-2)%Z.
Definition Get_VertexZIndex_Unknown : Z := (-1)%Z.

(** Modelled from the spec: the content of a [DSourceComboInfo] (declared in
    [DSourceComboInfo.h], not in the sources): an ordered set of (particle
    kind, count) pairs and an ordered set of (sub-use, count) pairs, which the
    code reads through [Get_NumParticles] and [Get_FurtherDecays]
    ([unsigned char] counts). *)
Record DSourceComboInfo := MkInfo {
  dNumParticles : list (Particle_t * nat);
  dFurtherDecays : list (DSourceComboUse * nat)
}.

#[global] Instance DSourceComboInfo_eq_dec : EqDecision DSourceComboInfo.
Proof. solve_decision. Defined.

#[global] Instance DSourceComboInfo_countable : Countable DSourceComboInfo.
Proof.
  apply (inj_countable'
           (fun i => (dNumParticles i, dFurtherDecays i))
           (fun t => MkInfo t.1 t.2)).
  intros []; reflexivity.
Defined.

(** ** The constructor: photon vertex-z binning *)

Module Binning.

Local Open Scope Q_scope.

(** [DGeometry::GetTargetZ] and [DGeometry::GetTargetLength]
    ([DGeometry.cc], last two functions): both return [false] and leave the
    reference argument as the caller initialised it. *)
Definition GetTargetZ (z_target : Q) : bool * Q := (false, z_target).
Definition GetTargetLength (target_length : Q) : bool * Q := (false, target_length).

(** [size_t locN]: an unsigned integer of 64 bits; [++locN] and [locN + 1]
    wrap around. *)
Definition size_t_modulus : Z := (2 ^ 64)%Z.

Definition size_t_succ (n : Z) : Z := ((n + 1) mod size_t_modulus)%Z.

Record PhotonVertexZBinning := MkBinning {
  dTargetCenterZ : Q;
  dPhotonVertexZBinWidth : Q;
  dPhotonVertexZRangeLow : Q;
  dNumPhotonVertexZBins : Z
}.

(** [do { ++locN; low = center - double(locN)*width; }
     while(low + width > locTargetUpstreamZ);]
    one unit of fuel per iteration. *)
Fixpoint range_low_loop (fuel : nat) (center width upstream : Q) (locN : Z)
  : option (Z * Q) :=
  match fuel with
  | O => None
  | S fuel' =>
      let locN' := size_t_succ locN in
      let low := center - inject_Z locN' * width in
      if negb (Qle_bool (low + width) upstream)
      then range_low_loop fuel' center width upstream locN'
      else Some (locN', low)
  end.

(** [while(low + locN*width <= locTargetDownstreamZ) ++locN;] *)
Fixpoint bin_count_loop (fuel : nat) (low width downstream : Q) (locN : Z)
  : option Z :=
  match fuel with
  | O => None
  | S fuel' =>
      if Qle_bool (low + inject_Z locN * width) downstream
      then bin_count_loop fuel' low width downstream (size_t_succ locN)
      else Some locN
  end.

(** The "TARGET INFORMATION" and "INITIALIZE PHOTON VERTEX-Z EVALUATION
    BINNING" blocks of the constructor.  [locTargetLength] is declared without
    an initialiser, so its value before the call of [GetTargetLength] is an
    input of the model.  The input is a rational: the model speaks of the
    finite values only, and it is the computation on doubles where that one
    is exact (see [exact_length]). *)
Definition init_binning (fuel : nat) (locTargetLength_declared : Q)
  : option PhotonVertexZBinning :=
  let locTargetCenterZ := snd (GetTargetZ 65) in
  let locTargetLength := snd (GetTargetLength locTargetLength_declared) in
  let width := 10 in
  let locTargetUpstreamZ := locTargetCenterZ - locTargetLength / 2 in
  let locTargetDownstreamZ := locTargetCenterZ + locTargetLength / 2 in
  match range_low_loop fuel locTargetCenterZ width locTargetUpstreamZ 0 with
  | None => None
  | Some (locN, low) =>
      match bin_count_loop fuel low width locTargetDownstreamZ locN with
      | None => None
      | Some locN' =>
          Some (MkBinning locTargetCenterZ width low (size_t_succ locN'))
      end
  end.

(** Bin [k] is the interval from [bin_edge k] to [bin_edge (k+1)]; its
    centre is [bin_center k]. *)
Definition bin_edge (b : PhotonVertexZBinning) (k : Z) : Q :=
  dPhotonVertexZRangeLow b + inject_Z k * dPhotonVertexZBinWidth b.

Definition bin_center (b : PhotonVertexZBinning) (k : Z) : Q :=
  dPhotonVertexZRangeLow b + (inject_Z k + (1 # 2)) * dPhotonVertexZBinWidth b.

(** The lengths [m / 2^20]; those of magnitude at most [2^20] are the ones
    the general theorem is about.  On them the counter stays below [2^22]
    and every value the block computes is a multiple of [2^-21] of magnitude
    below [2^25], which a double holds exactly (46 bits of its 53): no
    operation rounds, the counter does not wrap, and the block computes what
    [init_binning] computes. *)
Definition exact_length (m : Z) : Q := inject_Z m / inject_Z (2 ^ 20).

Lemma size_t_succ_small n :
  (0 <= n < 2 ^ 63)%Z -> size_t_succ n = (n + 1)%Z.
Proof.
  intros H. unfold size_t_succ, size_t_modulus.
  apply Z.mod_small. change (2 ^ 64)%Z with (2 * 2 ^ 63)%Z. lia.
Qed.

Lemma range_low_loop_spec fuel center width upstream locN n low :
  range_low_loop fuel center width upstream locN = Some (n, low) ->
  low == center - inject_Z n * width.
Proof.
  revert locN. induction fuel as [|fuel IH]; intros locN H; simpl in H.
  - discriminate.
  - destruct (negb _).
    + exact (IH _ H).
    + injection H as <- <-. reflexivity.
Qed.

Lemma range_low_loop_more_fuel fuel fuel' center width upstream locN r :
  (fuel <= fuel')%nat ->
  range_low_loop fuel center width upstream locN = Some r ->
  range_low_loop fuel' center width upstream locN = Some r.
Proof.
  revert fuel' locN. induction fuel as [|fuel IH]; intros fuel' locN Hle H; simpl in H.
  - discriminate.
  - destruct fuel' as [|fuel']; [lia |]. simpl.
    destruct (negb _); [apply IH; [lia | exact H] | exact H].
Qed.

Lemma bin_count_loop_more_fuel fuel fuel' low width downstream locN r :
  (fuel <= fuel')%nat ->
  bin_count_loop fuel low width downstream locN = Some r ->
  bin_count_loop fuel' low width downstream locN = Some r.
Proof.
  revert fuel' locN. induction fuel as [|fuel IH]; intros fuel' locN Hle H; simpl in H.
  - discriminate.
  - destruct fuel' as [|fuel']; [lia |]. simpl.
    destruct (Qle_bool _ _); [apply IH; [lia | exact H] | exact H].
Qed.

(** The first loop ends, with a count of at most [K], when the test fails
    at [K] and the counter has not wrapped by then. *)
Lemma range_low_loop_total center width upstream locN K :
  0 < width ->
  (0 <= locN < K)%Z -> (K < 2 ^ 63)%Z ->
  center - upstream <= (inject_Z K - 1) * width ->
  exists fuel n low,
    range_low_loop fuel center width upstream locN = Some (n, low) /\ (locN < n <= K)%Z.
Proof.
  intros Hw HN HK Hend.
  assert (Hgen : forall k locN', (0 <= locN')%Z -> (locN' + 1 + Z.of_nat k = K)%Z ->
     exists n low, range_low_loop (S k) center width upstream locN' = Some (n, low)
                   /\ (locN' < n <= K)%Z).
  { induction k as [|k IHk]; intros locN' H0 Hk; cbn [range_low_loop];
      rewrite (size_t_succ_small locN') by lia.
    - destruct (negb _) eqn:Hc; [| eexists _, _; split; [reflexivity | lia]].
      exfalso. apply negb_true_iff in Hc.
      assert (Hle : center - inject_Z (locN' + 1) * width + width <= upstream).
      { replace (locN' + 1)%Z with K by lia. nra. }
      apply Qle_bool_iff in Hle. congruence.
    - destruct (negb _); [| eexists _, _; split; [reflexivity | lia]].
      destruct (IHk (locN' + 1)%Z ltac:(lia) ltac:(lia)) as (n & low & Hr & Hn).
      exists n, low. split; [exact Hr | lia]. }
  destruct (Hgen (Z.to_nat (K - locN - 1)) locN ltac:(lia) ltac:(lia)) as (n & low & Hr & Hn).
  eauto.
Qed.

(** The second loop ends, with a count of at most [K], when the test fails
    at [K] and the counter has not wrapped by then. *)
Lemma bin_count_loop_total low width downstream locN K :
  0 < width ->
  (0 <= locN <= K)%Z -> (K < 2 ^ 63)%Z ->
  downstream < low + inject_Z K * width ->
  exists fuel n,
    bin_count_loop fuel low width downstream locN = Some n /\ (locN <= n <= K)%Z.
Proof.
  intros Hw HN HK Hend.
  assert (Hgen : forall k locN', (0 <= locN')%Z -> (locN' + Z.of_nat k = K)%Z ->
     exists n, bin_count_loop (S k) low width downstream locN' = Some n
               /\ (locN' <= n <= K)%Z).
  { induction k as [|k IHk]; intros locN' H0 Hk; cbn [bin_count_loop].
    - destruct (Qle_bool _ _) eqn:Hc; [| eexists; split; [reflexivity | lia]].
      exfalso. apply Qle_bool_iff in Hc.
      replace locN' with K in Hc by lia. lra.
    - destruct (Qle_bool _ _); [| eexists; split; [reflexivity | lia]].
      rewrite (size_t_succ_small locN') by lia.
      destruct (IHk (locN' + 1)%Z ltac:(lia) ltac:(lia)) as (n & Hr & Hn).
      exists n. split; [exact Hr | lia]. }
  destruct (Hgen (Z.to_nat (K - locN)) locN ltac:(lia) ltac:(lia)) as (n & Hr & Hn).
  eauto.
Qed.

(** On a bin edge, never at a bin centre: [center - low] is a whole number of
    bin widths. *)
Lemma edge_is_no_center (center low width : Q) (n : Z) :
  ~ width == 0 ->
  low == center - inject_Z n * width ->
  forall k : Z, ~ center == low + (inject_Z k + (1 # 2)) * width.
Proof.
  intros Hw Hlow k Hc.
  assert (H : (inject_Z n - inject_Z k - (1 # 2)) * width == 0).
  { rewrite Hlow in Hc.
    set (a := inject_Z n) in *. set (c := inject_Z k) in *.
    assert (E : (a - c - (1 # 2)) * width == center - (center - a * width + (c + (1 # 2)) * width)) by ring.
    rewrite E. rewrite <- Hc. ring. }
  apply Qmult_integral in H. destruct H as [H | H]; [| contradiction].
  assert (H2 : inject_Z (2 * n) == inject_Z (2 * k + 1)).
  { rewrite !inject_Z_mult, inject_Z_plus, inject_Z_mult.
    change (inject_Z 2) with 2. change (inject_Z 1) with 1.
    set (a := inject_Z n) in *. set (c := inject_Z k) in *.
    assert (E : 2 * a == 2 * (a - c - (1 # 2)) + (2 * c + 1)) by ring.
    rewrite E, H. ring. }
  apply (proj1 (inject_Z_injective _ _)) in H2. lia.
Qed.

(** The general form of the evaluation below: whatever length the geometry
    leaves in [locTargetLength], when the constructor's loops end the target
    centre is the centre of no bin. *)
Lemma init_binning_center_is_no_bin_center fuel len b :
  init_binning fuel len = Some b ->
  forall k : Z, ~ dTargetCenterZ b == bin_center b k.
Proof.
  unfold init_binning. intros H.
  destruct (range_low_loop _ _ _ _ _) as [[locN low]|] eqn:Hr; [| discriminate].
  destruct (bin_count_loop _ _ _ _ _) as [locN'|]; [| discriminate].
  injection H as <-. apply range_low_loop_spec in Hr.
  unfold bin_center; cbn [dTargetCenterZ dPhotonVertexZRangeLow dPhotonVertexZBinWidth].
  apply (edge_is_no_center _ _ _ locN); [discriminate | exact Hr].
Qed.

(** C9 (code evaluated at a concrete geometry).  With the [GetTargetZ] and
    [GetTargetLength] of [DGeometry.cc] the centre stays at 65; for a declared
    length of 30 the constructor ends with low edge 35 and 6 bins, the target
    centre is the edge between bins 2 and 3, and it is the centre of no bin:
    the centre is [low + 3*width], never [low + (k + 1/2)*width]. *)
Theorem target_center_on_bin_edge :
  exists b, init_binning 10 30 = Some b /\
    dPhotonVertexZRangeLow b == 35 /\
    dNumPhotonVertexZBins b = 6%Z /\
    dTargetCenterZ b == bin_edge b 3 /\
    forall k : Z, ~ dTargetCenterZ b == bin_center b k.
Proof.
  eexists. split; [vm_compute; reflexivity |].
  split; [reflexivity |]. split; [reflexivity |]. split; [reflexivity |].
  apply (init_binning_center_is_no_bin_center 10 30). vm_compute. reflexivity.
Qed.

Lemma range_low_loop_exit fuel center width upstream locN n low :
  range_low_loop fuel center width upstream locN = Some (n, low) ->
  low + width <= upstream.
Proof.
  revert locN. induction fuel as [|fuel IH]; intros locN H; simpl in H.
  - discriminate.
  - destruct (negb _) eqn:Hc.
    + exact (IH _ H).
    + injection H as <- <-. apply negb_false_iff in Hc. apply Qle_bool_iff. exact Hc.
Qed.

Lemma bin_count_loop_exit fuel low width downstream locN n :
  bin_count_loop fuel low width downstream locN = Some n ->
  downstream < low + inject_Z n * width.
Proof.
  revert locN. induction fuel as [|fuel IH]; intros locN H; simpl in H.
  - discriminate.
  - destruct (Qle_bool _ _) eqn:Hc.
    + exact (IH _ H).
    + injection H as <-.
      apply Qnot_le_lt. intros Hle. apply Qle_bool_iff in Hle. congruence.
Qed.

Lemma exact_length_bound m :
  (Z.abs m <= 2 ^ 40)%Z -> exact_length m / 2 <= inject_Z (2 ^ 19).
Proof.
  intros Hm. unfold exact_length.
  assert (H : inject_Z m <= inject_Z (2 ^ 40)) by (rewrite <- Zle_Qle; lia).
  change (inject_Z (2 ^ 40)) with (inject_Z (2 ^ 19) * 2 * inject_Z (2 ^ 20)) in H.
  apply Qle_shift_div_r; [reflexivity |].
  apply Qle_shift_div_r; [reflexivity |].
  exact H.
Qed.

(** X1.  The bins cover the target.  For a target length [m / 2^20] of magnitude
    at most [2^20], on which the doubles of the block are exact and its
    counter does not wrap, the binning block ends, with the same result
    however many more iterations are allowed; bin 0 lies upstream of the
    target, the target ends before the last bin, the one for detached
    vertices, begins, and there are at least two bins. *)
Theorem bins_cover_target (m : Z) :
  (Z.abs m <= 2 ^ 40)%Z ->
  let locTargetLength := exact_length m in
  exists fuel b,
    (forall fuel', (fuel <= fuel')%nat -> init_binning fuel' locTargetLength = Some b) /\
    bin_edge b 1 <= dTargetCenterZ b - locTargetLength / 2 /\
    dTargetCenterZ b + locTargetLength / 2 < bin_edge b (dNumPhotonVertexZBins b - 1) /\
    (2 <= dNumPhotonVertexZBins b < 2 ^ 22)%Z.
Proof.
  intros Hm len. pose proof (exact_length_bound m Hm) as Hlen. fold len in Hlen.
  destruct (range_low_loop_total 65 10 (65 - len / 2) 0 (2 ^ 20)%Z)
    as (f1 & n & low & H1 & Hn); [reflexivity | lia | lia | |].
  { change (inject_Z (2 ^ 20)) with (2 * inject_Z (2 ^ 19)). 
    change (inject_Z (2 ^ 19)) with (524288 # 1) in *. lra. }
  pose proof (range_low_loop_spec _ _ _ _ _ _ _ H1) as Hlow.
  pose proof (range_low_loop_exit _ _ _ _ _ _ _ H1) as Hup.
  destruct (bin_count_loop_total low 10 (65 + len / 2) n (n + 2 ^ 20)%Z)
    as (f2 & n' & H2 & Hn'); [reflexivity | lia | lia | |].
  { rewrite Hlow, inject_Z_plus.
    change (inject_Z (2 ^ 20)) with (2 * inject_Z (2 ^ 19)).
    change (inject_Z (2 ^ 19)) with (524288 # 1) in *. lra. }
  pose proof (bin_count_loop_exit _ _ _ _ _ _ H2) as Hdown.
  exists (Nat.max f1 f2), (MkBinning 65 10 low (size_t_succ n')).
  split.
  - intros fuel' Hle. unfold init_binning. cbn [GetTargetZ GetTargetLength snd]. fold len.
    rewrite (range_low_loop_more_fuel f1 fuel' _ _ _ _ _ ltac:(lia) H1).
    rewrite (bin_count_loop_more_fuel f2 fuel' _ _ _ _ _ ltac:(lia) H2).
    reflexivity.
  - rewrite (size_t_succ_small n') by lia. unfold bin_edge.
    cbn [dTargetCenterZ dPhotonVertexZRangeLow dPhotonVertexZBinWidth dNumPhotonVertexZBins].
    split; [| split].
    + change (inject_Z 1) with 1. rewrite Qmult_1_l. exact Hup.
    + replace (n' + 1 - 1)%Z with n' by lia. exact Hdown.
    + lia.
Qed.

(** [bins_cover_target] at the length 30 (the six bins of
    [target_center_on_bin_edge]). *)
Lemma bins_cover_target_witness :
  (Z.abs (30 * 2 ^ 20) <= 2 ^ 40)%Z /\
  exists fuel b,
    (forall fuel', (fuel <= fuel')%nat ->
       init_binning fuel' (exact_length (30 * 2 ^ 20)) = Some b) /\
    bin_edge b 1 <= dTargetCenterZ b - exact_length (30 * 2 ^ 20) / 2 /\
    dTargetCenterZ b + exact_length (30 * 2 ^ 20) / 2
      < bin_edge b (dNumPhotonVertexZBins b - 1) /\
    (2 <= dNumPhotonVertexZBins b < 2 ^ 22)%Z.
Proof.
  assert (H : (Z.abs (30 * 2 ^ 20) <= 2 ^ 40)%Z) by (vm_compute; discriminate).
  split; [exact H | exact (bins_cover_target (30 * 2 ^ 20) H)].
Defined.

End Binning.

(** ** The geometry: convenience getters of [DGeometry] *)

Module Geometry.

Import String.
Local Open Scope Q_scope.

Section Lookup.

(** [DGeometry::Get(xpath, vector<double>&)], declared in [DGeometry.h], not
    in the sources: a parameter giving, for an xpath, the flag returned and
    what the call leaves in the vector, which every caller passes empty. *)
Variable Get : String.string -> bool * list Q.

(** [DGeometry::GetFDCRmin] ([DGeometry.cc]); [v[i]] beyond the size of the
    vector is undefined. *)
Definition GetFDCRmin (rmin_packages : list Q) : option (bool * list Q) :=
  let good := true in
  let '(g, FDA0) := Get "//section[@name='ForwardDC']/tubs[@name='FDA1']/@Rio_Z"%string in
  let good := good || g in
  let '(g, FDA1) := Get "//section[@name='ForwardDC']/tubs[@name='FDA2']/@Rio_Z"%string in
  let good := good || g in
  let '(g, FDA2) := Get "//section[@name='ForwardDC']/tubs[@name='FDA3']/@Rio_Z"%string in
  let good := good || g in
  let '(g, FDA3) := Get "//section[@name='ForwardDC']/tubs[@name='FDA4']/@Rio_Z"%string in
  let good := good || g in
  if negb good then Some (good, rmin_packages)
  else
    match FDA0 !! 0%nat, FDA1 !! 0%nat, FDA2 !! 0%nat, FDA3 !! 0%nat with
    | Some r0, Some r1, Some r2, Some r3 =>
        Some (good, rmin_packages ++ [r0; r1; r2; r3])
    | _, _, _, _ => None
    end.

(** [DGeometry::GetFDCRmax]: the value left in [rmax_active_fdc]. *)
Definition GetFDCRmax (rmax_active_fdc : Q) : option (bool * Q) :=
  let good := true in
  let '(g, FDA1) := Get "//section[@name='ForwardDC']/tubs[@name='FDA1']/@Rio_Z"%string in
  let good := good || g in
  if negb good then Some (good, rmax_active_fdc)
  else
    match FDA1 !! 1%nat with
    | Some r => Some (good, r)
    | None => None
    end.

(** [DGeometry::GetCDCAxialLength] *)
Definition GetCDCAxialLength (cdc_axial_length : Q) : option (bool * Q) :=
  let '(good, Rio_Z) := Get "//section[@name='CentralDC']/tubs[@name='STRW']/@Rio_Z"%string in
  match Rio_Z !! 2%nat with
  | Some l => Some (false, l)
  | None => None
  end.

(** [DGeometry::GetCDCEndplate]: the values left in [z], [dz], [rmin] and
    [rmax]. *)
Definition GetCDCEndplate (z dz rmin rmax : Q) : option (bool * (Q * Q * Q * Q)) :=
  let good := true in
  let '(g, cdc_origin) := Get "//posXYZ[@volume='CentralDC'/@X_Y_Z"%string in
  let good := good || g in
  let '(g, cdc_center) := Get "//posXYZ[@volume='centralDC_option-1']/@X_Y_Z"%string in
  let good := good || g in
  let '(g, cdc_endplate_pos) := Get "//posXYZ[@volume='CDPD']/@X_Y_Z"%string in
  let good := good || g in
  let '(g, cdc_endplate_dim) := Get "//tubs[@name='CDPD']/@Rio_Z"%string in
  let good := good || g in
  if negb good then Some (good, (z, dz, rmin, rmax))
  else
    match cdc_origin !! 2%nat, cdc_center !! 2%nat, cdc_endplate_pos !! 2%nat,
          cdc_endplate_dim !! 2%nat, cdc_endplate_dim !! 0%nat, cdc_endplate_dim !! 1%nat with
    | Some o, Some c, Some p, Some d2, Some d0, Some d1 =>
        Some (good, (o + c + p + d2, d2, d0, d1))
    | _, _, _, _, _, _ => None
    end.

(** [DGeometry::GetFCALZ]: the value left in [z_fcal]. *)
Definition GetFCALZ (z_fcal : Q) : option (bool * Q) :=
  let '(good, ForwardEMcalpos) :=
    Get "//section/composition/posXYZ[@volume='ForwardEMcal']/@X_Y_Z"%string in
  if negb good then Some (false, 0)
  else
    match ForwardEMcalpos !! 2%nat with
    | Some z => Some (true, z)
    | None => None
    end.

(** [DGeometry::GetTOFZ] *)
Definition GetTOFZ (z_tof : list Q) : option (bool * list Q) :=
  let good := true in
  let '(g, ForwardTOF) :=
    Get "//section/composition/posXYZ[@volume='ForwardTOF']/@X_Y_Z"%string in
  let good := good || g in
  let '(g, forwardTOF0) :=
    Get "//composition[@name='ForwardTOF']/posXYZ[@volume='forwardTOF']/@X_Y_Z/plane[@value='0']"%string in
  let good := good || g in
  let '(g, forwardTOF1) :=
    Get "//composition[@name='ForwardTOF']/posXYZ[@volume='forwardTOF']/@X_Y_Z/plane[@value='1']"%string in
  let good := good || g in
  let '(g, FTOC) := Get "//box[@name='FTOC' and sensitive='true']/@X_Y_Z"%string in
  let good := good || g in
  match ForwardTOF !! 2%nat, forwardTOF0 !! 2%nat, forwardTOF1 !! 2%nat, FTOC !! 2%nat with
  | Some t, Some p0, Some p1, Some c =>
      Some (good, z_tof ++ [t + p0 - c / 2; t + p1 - c / 2])
  | _, _, _, _ => None
  end.

(** X2.  What the flags say.  The getters that collect the flags of their lookups
    with [good |= ...], [good] starting as [true], never report a failure:
    whatever the lookups return, a call that is defined returns [true], and
    a lookup that fails and leaves its vector empty makes the call undefined
    instead.  [GetCDCAxialLength] never reports a success.  [GetFCALZ]
    returns the flag of its lookup, and stores zero when it failed. *)
Theorem getter_flags :
  (forall v r, GetFDCRmin v = Some r -> fst r = true) /\
  (forall x r, GetFDCRmax x = Some r -> fst r = true) /\
  (forall z dz rmin rmax r, GetCDCEndplate z dz rmin rmax = Some r -> fst r = true) /\
  (forall v r, GetTOFZ v = Some r -> fst r = true) /\
  (forall v x, snd (Get "//section[@name='ForwardDC']/tubs[@name='FDA1']/@Rio_Z"%string) = [] ->
               GetFDCRmin v = None /\ GetFDCRmax x = None) /\
  (forall x r, GetCDCAxialLength x = Some r -> fst r = false) /\
  (forall x r, GetFCALZ x = Some r ->
     fst r = fst (Get "//section/composition/posXYZ[@volume='ForwardEMcal']/@X_Y_Z"%string)
     /\ (fst r = false -> snd r == 0)).
Proof.
  unfold GetFDCRmin, GetFDCRmax, GetCDCEndplate, GetTOFZ, GetCDCAxialLength, GetFCALZ.
  split; [| split; [| split; [| split; [| split; [| split]]]]].
  - intros v r. repeat destruct (Get _) as [? ?]. cbn [orb negb].
    repeat (destruct (_ !! _); [| discriminate]). intros [= <-]. reflexivity.
  - intros x r. destruct (Get _) as [? ?]. cbn [orb negb].
    destruct (_ !! _); [| discriminate]. intros [= <-]. reflexivity.
  - intros z dz rmin rmax r. repeat destruct (Get _) as [? ?]. cbn [orb negb].
    repeat (destruct (_ !! _); [| discriminate]). intros [= <-]. reflexivity.
  - intros v r. repeat destruct (Get _) as [? ?]. cbn [orb].
    repeat (destruct (_ !! _); [| discriminate]). intros [= <-]. reflexivity.
  - intros v x Hempty.
    destruct (Get "//section[@name='ForwardDC']/tubs[@name='FDA1']/@Rio_Z"%string) as [g l].
    cbn [snd] in Hempty. subst l. split; [| reflexivity].
    repeat destruct (Get _) as [? ?]. reflexivity.
  - intros x r. destruct (Get _) as [g l].
    destruct (l !! 2%nat); [| discriminate]. intros [= <-]. reflexivity.
  - intros x r. destruct (Get _) as [g l]. cbn [fst]. destruct g; cbn [negb].
    + destruct (l !! 2%nat); [| discriminate]. intros [= <-].
      split; [reflexivity | discriminate].
    + intros [= <-]. split; [reflexivity | intros _; reflexivity].
Qed.

End Lookup.

End Geometry.

(** ** Small library: maps and vectors as the C++ containers behave *)

(** [m.emplace(k, v)] / [m.insert({k, v})]: nothing happens when the key is
    already present. *)
Definition emplace `{Countable K} {V} (k : K) (v : V) (m : gmap K V) : gmap K V :=
  match m !! k with
  | Some _ => m
  | None => <[k := v]> m
  end.

(** [m[k]] used as an lvalue or read: default-inserts the key. *)
Definition subscript `{Countable K} {V} (dflt : V) (k : K) (m : gmap K V) : V * gmap K V :=
  match m !! k with
  | Some v => (v, m)
  | None => (dflt, <[k := dflt]> m)
  end.

(** ** The ComboInfo registry *)

Module Registry.

(** A registered info: the address [new] returned and the content stored
    there (immutable once constructed). *)
Record InfoObj := MkInfoObj {
  info_addr : InfoPtr;
  info_content : DSourceComboInfo
}.

Record Registry := MkRegistry {
  (* std::set<const DSourceComboInfo*, DCompare_SourceComboInfos>, listed in
     the comparator's order *)
  dSourceComboInfoSet : list InfoObj;
  (* the sorted vector used while comboing *)
  dSourceComboInfos : list InfoObj;
  dComboInfoChargeContent : gmap InfoPtr Charge_t;
  dComboInfosWithMassiveNeutrals : gset InfoPtr;
  (* the address the next [new DSourceComboInfo] returns *)
  next_info : InfoPtr
}.

(** A concrete comparator for closed instances: the order of the
    countable encoding of the content. *)
Definition encode_lt (a b : DSourceComboInfo) : bool :=
  Pos.ltb (encode a) (encode b).

Section Interning.

(** Declared in headers that are not in the sources: the constructor of
    [DSourceComboInfo], the comparator [DCompare_SourceComboInfos] (it
    compares the pointed-to contents) and the two classifications computed
    when an info is registered. *)
Variable DSourceComboInfo_ctor :
  list (Particle_t * nat) -> list (DSourceComboUse * nat) -> DSourceComboInfo.
Variable DCompare_SourceComboInfos : DSourceComboInfo -> DSourceComboInfo -> bool.
Variable Get_ChargeContent : DSourceComboInfo -> Charge_t.
Variable Get_HasMassiveNeutrals : DSourceComboInfo -> bool.

Definition lt_obj (a b : InfoObj) : bool :=
  DCompare_SourceComboInfos (info_content a) (info_content b).

(** Equivalence under the comparator, as the ordered containers see it. *)
Definition equiv_obj (a b : InfoObj) : bool :=
  negb (lt_obj a b) && negb (lt_obj b a).

(** [std::set::find]: the element equivalent to the key, if any. *)
Definition set_find (key : InfoObj) (s : list InfoObj) : option InfoObj :=
  List.find (equiv_obj key) s.

(** [std::set::insert]: in order, and not at all when an equivalent element
    is present. *)
Fixpoint set_insert (o : InfoObj) (s : list InfoObj) : list InfoObj :=
  match s with
  | [] => [o]
  | x :: s' =>
      if lt_obj o x then o :: x :: s'
      else if lt_obj x o then x :: set_insert o s'
      else x :: s'
  end.

(** [std::equal_range] on a vector partitioned by the comparator:
    [first] is the position of the first element not less than the key,
    [second] the position of the first element the key is less than. *)
Fixpoint lower_bound (key : InfoObj) (v : list InfoObj) : nat :=
  match v with
  | [] => 0
  | x :: v' => if lt_obj x key then S (lower_bound key v') else 0
  end.

Fixpoint upper_bound (key : InfoObj) (v : list InfoObj) : nat :=
  match v with
  | [] => 0
  | x :: v' => if lt_obj key x then 0 else S (upper_bound key v')
  end.

(** [v.emplace(position, o)] *)
Definition vector_emplace_at (pos : nat) (o : InfoObj) (v : list InfoObj) : list InfoObj :=
  take pos v ++ o :: drop pos v.

(** The bookkeeping shared by both functions after [new]. *)
Definition register_classification (o : InfoObj) (r : Registry)
  : gmap InfoPtr Charge_t * gset InfoPtr :=
  (emplace (info_addr o) (Get_ChargeContent (info_content o)) (dComboInfoChargeContent r),
   if Get_HasMassiveNeutrals (info_content o)
   then {[ info_addr o ]} ∪ dComboInfosWithMassiveNeutrals r
   else dComboInfosWithMassiveNeutrals r).

(** [DSourceComboer::MakeOrGet_SourceComboInfo] *)
Definition MakeOrGet_SourceComboInfo
    (locNumParticles : list (Particle_t * nat))
    (locFurtherDecays : list (DSourceComboUse * nat))
    (r : Registry) : InfoPtr * Registry :=
  let locSearchForInfo := MkInfoObj 0 (DSourceComboInfo_ctor locNumParticles locFurtherDecays) in
  match set_find locSearchForInfo (dSourceComboInfoSet r) with
  | Some o => (info_addr o, r)
  | None =>
      let locComboInfo :=
        MkInfoObj (next_info r) (DSourceComboInfo_ctor locNumParticles locFurtherDecays) in
      let '(content, massive) := register_classification locComboInfo r in
      (info_addr locComboInfo,
       MkRegistry (set_insert locComboInfo (dSourceComboInfoSet r))
                  (dSourceComboInfos r) content massive (S (next_info r)))
  end.

(** [DSourceComboer::GetOrMake_SourceComboInfo] *)
Definition GetOrMake_SourceComboInfo
    (locNumParticles : list (Particle_t * nat))
    (locFurtherDecays : list (DSourceComboUse * nat))
    (r : Registry) : option (InfoPtr * Registry) :=
  let locSearchForInfo := MkInfoObj 0 (DSourceComboInfo_ctor locNumParticles locFurtherDecays) in
  let first := lower_bound locSearchForInfo (dSourceComboInfos r) in
  let second := upper_bound locSearchForInfo (dSourceComboInfos r) in
  if negb (first =? second) then
    match dSourceComboInfos r !! first with
    | Some o => Some (info_addr o, r)
    | None => None
    end
  else
    let locComboInfo :=
      MkInfoObj (next_info r) (DSourceComboInfo_ctor locNumParticles locFurtherDecays) in
    let '(content, massive) := register_classification locComboInfo r in
    Some (info_addr locComboInfo,
          MkRegistry (dSourceComboInfoSet r)
                     (vector_emplace_at first locComboInfo (dSourceComboInfos r))
                     content massive (S (next_info r))).

(** The vector is sorted strictly by the comparator. *)
Definition sorted_infos (v : list InfoObj) : Prop :=
  StronglySorted (fun a b => lt_obj a b = true) v.

(** No two registered infos have the same content. *)
Definition content_unique (v : list InfoObj) : Prop :=
  forall i j a b, v !! i = Some a -> v !! j = Some b ->
                  info_content a = info_content b -> i = j.

(** The constructor's transfer of the infos from the set to the vector, once
    the reactions are analysed: [std::copy(set.begin(), set.end(),
    back_inserter(dSourceComboInfos)); dSourceComboInfoSet.clear();] *)
Definition transfer_infos (r : Registry) : Registry :=
  MkRegistry [] (dSourceComboInfos r ++ dSourceComboInfoSet r)
             (dComboInfoChargeContent r) (dComboInfosWithMassiveNeutrals r) (next_info r).

(** [DSourceComboer::Make_ComboUse]; a [std::map] argument is given by its
    entries in key order, the order in which [std::copy] reads them into the
    vector. *)
Definition Make_ComboUse (locInitPID : Particle_t)
    (locNumParticles : list (Particle_t * nat))
    (locFurtherDecays : list (DSourceComboUse * nat))
    (r : Registry) : DSourceComboUse * Registry :=
  let locDecayVector := locFurtherDecays in
  let locParticleVector := locNumParticles in
  let '(locComboInfo, r') := MakeOrGet_SourceComboInfo locParticleVector locDecayVector r in
  (MkUse locInitPID Get_VertexZIndex_ZIndependent locComboInfo, r').

(** The infos of a vector lie below the next address, each address once. *)
Definition addresses_below (n : InfoPtr) (v : list InfoObj) : Prop :=
  Forall (fun o => info_addr o < n) v /\ NoDup (map info_addr v).

(** The cached classifications are those of the contents, and nothing is
    cached for an address not handed out yet. *)
Definition classified (r : Registry) : Prop :=
  (forall o, o ∈ dSourceComboInfos r ->
     dComboInfoChargeContent r !! info_addr o = Some (Get_ChargeContent (info_content o)) /\
     (info_addr o ∈ dComboInfosWithMassiveNeutrals r
      <-> Get_HasMassiveNeutrals (info_content o) = true)) /\
  (forall p, next_info r <= p ->
     dComboInfoChargeContent r !! p = None /\ p ∉ dComboInfosWithMassiveNeutrals r).

(** The comparator is a strict order on contents. *)
Hypothesis lt_irrefl : forall a, DCompare_SourceComboInfos a a = false.
Hypothesis lt_trans : forall a b c,
  DCompare_SourceComboInfos a b = true -> DCompare_SourceComboInfos b c = true ->
  DCompare_SourceComboInfos a c = true.

(** The comparator tells any two distinct contents apart: it sorts the
    containers for a search by value. *)
Hypothesis lt_total : forall a b,
  DCompare_SourceComboInfos a b = false -> DCompare_SourceComboInfos b a = false -> a = b.

Lemma lt_asym a b :
  DCompare_SourceComboInfos a b = true -> DCompare_SourceComboInfos b a = false.
Proof.
  intros Hab. destruct (DCompare_SourceComboInfos b a) eqn:Hba; [| reflexivity].
  pose proof (lt_trans _ _ _ Hab Hba) as H. rewrite lt_irrefl in H. discriminate.
Qed.

Lemma equiv_obj_refl o : equiv_obj o o = true.
Proof. unfold equiv_obj, lt_obj. rewrite lt_irrefl. reflexivity. Qed.

Lemma equiv_obj_same_content a b :
  info_content a = info_content b -> forall x, equiv_obj a x = equiv_obj b x.
Proof. intros E x. unfold equiv_obj, lt_obj. rewrite E. reflexivity. Qed.

Lemma set_find_same_content a b s :
  info_content a = info_content b -> set_find a s = set_find b s.
Proof.
  intros E. unfold set_find. induction s as [|x s IH]; simpl; [reflexivity |].
  rewrite (equiv_obj_same_content _ _ E x), IH. reflexivity.
Qed.

Lemma set_find_insert key o s :
  info_content key = info_content o ->
  set_find key s = None ->
  set_find key (set_insert o s) = Some o.
Proof.
  intros E. rewrite !(set_find_same_content key o) by exact E. unfold set_find.
  induction s as [|x s IH]; simpl; intros Hnone.
  - rewrite equiv_obj_refl. reflexivity.
  - destruct (equiv_obj o x) eqn:Hox; [discriminate |].
    destruct (lt_obj o x) eqn:Hlt.
    + simpl. rewrite equiv_obj_refl. reflexivity.
    + destruct (lt_obj x o) eqn:Hgt.
      * simpl. rewrite Hox. apply IH. exact Hnone.
      * unfold equiv_obj in Hox. rewrite Hlt, Hgt in Hox. discriminate.
Qed.

Lemma lower_bound_emplace key o v :
  lt_obj o key = false ->
  lower_bound key (vector_emplace_at (lower_bound key v) o v) = lower_bound key v.
Proof.
  intros Ho. unfold vector_emplace_at.
  induction v as [|x v IH]; simpl.
  - rewrite Ho. reflexivity.
  - destruct (lt_obj x key) eqn:Hx; simpl.
    + rewrite Hx. f_equal. exact IH.
    + rewrite Ho. reflexivity.
Qed.

Lemma upper_bound_emplace key o v :
  lt_obj key o = false ->
  lower_bound key v < upper_bound key (vector_emplace_at (lower_bound key v) o v).
Proof.
  intros Ho. unfold vector_emplace_at.
  induction v as [|x v IH]; simpl.
  - rewrite Ho. lia.
  - destruct (lt_obj x key) eqn:Hx; simpl.
    + unfold lt_obj in Hx. apply lt_asym in Hx. fold (lt_obj key x) in Hx.
      rewrite Hx. lia.
    + rewrite Ho. lia.
Qed.

Lemma lookup_emplace_at key o v :
  vector_emplace_at (lower_bound key v) o v !! lower_bound key v = Some o.
Proof.
  unfold vector_emplace_at. induction v as [|x v IH]; simpl; [reflexivity |].
  destruct (lt_obj x key); simpl; [exact IH | reflexivity].
Qed.

Lemma sorted_emplace key o v :
  info_content key = info_content o ->
  sorted_infos v ->
  lower_bound key v = upper_bound key v ->
  sorted_infos (vector_emplace_at (lower_bound key v) o v).
Proof.
  intros E Hs. unfold sorted_infos, vector_emplace_at in *.
  assert (Ek : forall x, lt_obj key x = lt_obj o x /\ lt_obj x key = lt_obj x o)
    by (intros x; unfold lt_obj; rewrite E; split; reflexivity).
  induction Hs as [|x v Hs IH Hx]; simpl; intros Hb.
  - repeat constructor.
  - destruct (lt_obj x key) eqn:Hxk.
    + destruct (lt_obj key x) eqn:Hkx; [discriminate |].
      injection Hb as Hb. simpl. constructor; [apply IH; exact Hb |].
      apply Forall_app. split; [apply Forall_take; exact Hx |].
      constructor; [rewrite <- (proj2 (Ek x)); exact Hxk | apply Forall_drop; exact Hx].
    + destruct (lt_obj key x) eqn:Hkx; [| discriminate].
      simpl. constructor; [constructor; assumption |].
      constructor; [rewrite <- (proj1 (Ek x)); exact Hkx |].
      eapply List.Forall_impl; [| exact Hx]. intros y Hy. simpl in Hy.
      unfold lt_obj in *. rewrite <- E. eapply lt_trans; eassumption.
Qed.

Lemma sorted_content_unique v : sorted_infos v -> content_unique v.
Proof.
  unfold sorted_infos, content_unique.
  induction 1 as [|x v Hs IH Hx]; intros i j a b Hi Hj E.
  - rewrite lookup_nil in Hi. discriminate.
  - assert (Hne : forall k y c, v !! k = Some y -> x = c ->
              info_content c <> info_content y).
    { intros k y c Hk <- Ec. rewrite Forall_forall in Hx.
      assert (Hin : In y v) by (apply list_elem_of_In, list_elem_of_lookup; eauto).
      specialize (Hx y Hin). unfold lt_obj in Hx. rewrite Ec, lt_irrefl in Hx.
      discriminate. }
    destruct i as [|i], j as [|j]; simpl in Hi, Hj.
    + reflexivity.
    + injection Hi as Hi. exfalso. exact (Hne j b a Hj Hi E).
    + injection Hj as Hj. exfalso. exact (Hne i a b Hi Hj (eq_sym E)).
    + f_equal. exact (IH i j a b Hi Hj E).
Qed.

(** *** Faithfulness of the interning *)

Lemma equiv_obj_content key o :
  equiv_obj key o = true -> info_content key = info_content o.
Proof.
  unfold equiv_obj, lt_obj. intros H. apply andb_prop in H. destruct H as [H1 H2].
  apply negb_true_iff in H1, H2. apply lt_total; assumption.
Qed.

(** When the two bounds of [std::equal_range] differ, the element at the
    first is equivalent to the key. *)
Lemma equal_range_found key v :
  lower_bound key v <> upper_bound key v ->
  exists o, v !! lower_bound key v = Some o /\ equiv_obj key o = true.
Proof.
  induction v as [|x v IH]; simpl; [congruence |].
  destruct (lt_obj x key) eqn:Hxk.
  - pose proof Hxk as Hkx. unfold lt_obj in Hkx. apply lt_asym in Hkx.
    fold (lt_obj key x) in Hkx. rewrite Hkx. intros Hne.
    apply IH. congruence.
  - destruct (lt_obj key x) eqn:Hkx; [congruence |]. intros _.
    exists x. split; [reflexivity |]. unfold equiv_obj. rewrite Hxk, Hkx. reflexivity.
Qed.

Lemma elem_of_emplace_at n o v x :
  x ∈ vector_emplace_at n o v <-> x = o \/ x ∈ v.
Proof.
  unfold vector_emplace_at. rewrite elem_of_app, elem_of_cons.
  assert (Hv : x ∈ v <-> x ∈ take n v \/ x ∈ drop n v)
    by (rewrite <- elem_of_app, take_drop; reflexivity).
  tauto.
Qed.

Lemma addresses_below_emplace n o v :
  addresses_below (info_addr o) v ->
  addresses_below (S (info_addr o)) (vector_emplace_at n o v).
Proof.
  intros [Hlt Hnd]. split.
  - apply list.Forall_forall. intros x Hx. apply elem_of_emplace_at in Hx.
    destruct Hx as [-> | Hx]; [lia |].
    rewrite list.Forall_forall in Hlt. specialize (Hlt x Hx). lia.
  - unfold vector_emplace_at. rewrite map_app. cbn [map].
    assert (Hperm : map info_addr (take n v) ++ info_addr o :: map info_addr (drop n v)
                    ≡ₚ info_addr o :: map info_addr v).
    { rewrite <- (take_drop n v) at 3. rewrite (map_app _ (take n v)).
      symmetry. apply Permutation_middle. }
    rewrite Hperm. apply NoDup_cons_2; [| exact Hnd].
    intros Hin. apply list_elem_of_fmap in Hin. destruct Hin as (y & Hy & Hin).
    rewrite list.Forall_forall in Hlt. specialize (Hlt y Hin). lia.
Qed.

(** What one request does to the vector: the pointer returned is registered
    with the requested content, what was registered stays, and nothing else
    is added. *)
Lemma GetOrMake_registers np fd r p r1 :
  sorted_infos (dSourceComboInfos r) ->
  addresses_below (next_info r) (dSourceComboInfos r) ->
  GetOrMake_SourceComboInfo np fd r = Some (p, r1) ->
  MkInfoObj p (DSourceComboInfo_ctor np fd) ∈ dSourceComboInfos r1 /\
  sorted_infos (dSourceComboInfos r1) /\
  addresses_below (next_info r1) (dSourceComboInfos r1) /\
  (forall o, o ∈ dSourceComboInfos r1 <->
             o ∈ dSourceComboInfos r \/
             (o = MkInfoObj p (DSourceComboInfo_ctor np fd) /\ p = next_info r)
             \/ (o = MkInfoObj p (DSourceComboInfo_ctor np fd) /\ r1 = r)).
Proof.
  intros Hs Ha. unfold GetOrMake_SourceComboInfo.
  set (key := MkInfoObj 0 (DSourceComboInfo_ctor np fd)).
  destruct (negb (lower_bound key (dSourceComboInfos r) =?
                  upper_bound key (dSourceComboInfos r))) eqn:Hfound.
  - apply negb_true_iff, Nat.eqb_neq in Hfound.
    destruct (equal_range_found key _ Hfound) as (o & Ho & Heq).
    rewrite Ho. intros [= <- <-].
    apply equiv_obj_content in Heq. cbn in Heq.
    assert (Eo : o = MkInfoObj (info_addr o) (DSourceComboInfo_ctor np fd))
      by (destruct o; cbn in *; congruence).
    assert (Hin : o ∈ dSourceComboInfos r) by (apply list_elem_of_lookup; eauto).
    rewrite <- Eo. split; [exact Hin |]. split; [exact Hs |]. split; [exact Ha |].
    intros x. split; [intros H; left; exact H |].
    intros [H | [[-> _] | [-> _]]]; assumption.
  - apply negb_false_iff, Nat.eqb_eq in Hfound.
    set (o := MkInfoObj (next_info r) (DSourceComboInfo_ctor np fd)).
    destruct (register_classification o r) as [content massive].
    intros [= <- <-]. cbn [dSourceComboInfos next_info info_addr].
    split; [apply elem_of_emplace_at; left; reflexivity |].
    split; [apply (sorted_emplace key o); [reflexivity | exact Hs | exact Hfound] |].
    split; [apply (addresses_below_emplace _ o); exact Ha |].
    intros x. rewrite elem_of_emplace_at. fold o. split.
    + intros [-> | H]; [right; left; split; reflexivity | left; exact H].
    + intros [H | [[-> _] | [-> _]]]; [right; exact H | left; reflexivity | left; reflexivity].
Qed.

(** An address of the vector holds one content. *)
Lemma registered_content n v p c c' :
  addresses_below n v -> MkInfoObj p c ∈ v -> MkInfoObj p c' ∈ v -> c = c'.
Proof.
  intros [_ Hnd] H1 H2.
  apply list_elem_of_lookup in H1, H2. destruct H1 as [i Hi], H2 as [j Hj].
  assert (E : i = j).
  { apply (NoDup_lookup (map info_addr v) i j p); [exact Hnd | |];
      rewrite list_lookup_fmap; [rewrite Hi | rewrite Hj]; reflexivity. }
  subst j. rewrite Hi in Hj. congruence.
Qed.

(** X3.  Interning is faithful: two requests that get the same pointer asked for
    the same content.  With C7's direction (equal contents, same pointer) a
    pointer comparison of infos is a comparison of contents. *)
Theorem interning_injective
    (np np' : list (Particle_t * nat)) (fd fd' : list (DSourceComboUse * nat))
    (r r1 r2 : Registry) (p p' : InfoPtr) :
  sorted_infos (dSourceComboInfos r) ->
  addresses_below (next_info r) (dSourceComboInfos r) ->
  GetOrMake_SourceComboInfo np fd r = Some (p, r1) ->
  GetOrMake_SourceComboInfo np' fd' r1 = Some (p', r2) ->
  p = p' ->
  DSourceComboInfo_ctor np fd = DSourceComboInfo_ctor np' fd'.
Proof.
  intros Hs Ha E1 E2 <-.
  destruct (GetOrMake_registers np fd r p r1 Hs Ha E1) as (H1 & Hs1 & Ha1 & _).
  destruct (GetOrMake_registers np' fd' r1 p r2 Hs1 Ha1 E2) as (H2 & _ & Ha2 & Hall).
  apply (registered_content _ _ p _ _ Ha2); [| exact H2].
  apply Hall. left. exact H1.
Qed.

(** X4.  The classifications cached when an info is registered are those of its
    content, whichever request registered it, and a request leaves the
    cached classifications of the other infos alone. *)
Theorem classification_cached
    (np : list (Particle_t * nat)) (fd : list (DSourceComboUse * nat))
    (r r1 : Registry) (p : InfoPtr) :
  sorted_infos (dSourceComboInfos r) ->
  addresses_below (next_info r) (dSourceComboInfos r) ->
  classified r ->
  GetOrMake_SourceComboInfo np fd r = Some (p, r1) ->
  classified r1 /\
  dComboInfoChargeContent r1 !! p = Some (Get_ChargeContent (DSourceComboInfo_ctor np fd)) /\
  (p ∈ dComboInfosWithMassiveNeutrals r1
   <-> Get_HasMassiveNeutrals (DSourceComboInfo_ctor np fd) = true).
Proof.
  intros Hs Ha Hc E.
  destruct (GetOrMake_registers np fd r p r1 Hs Ha E) as (Hin & _ & _ & _).
  assert (Hc1 : classified r1).
  { clear Hin. revert E. unfold GetOrMake_SourceComboInfo.
    set (key := MkInfoObj 0 (DSourceComboInfo_ctor np fd)).
    destruct (negb (lower_bound key (dSourceComboInfos r) =?
                    upper_bound key (dSourceComboInfos r))).
    { destruct (dSourceComboInfos r !! _); [| discriminate]. intros [= <- <-]. exact Hc. }
    set (o := MkInfoObj (next_info r) (DSourceComboInfo_ctor np fd)).
    unfold register_classification. intros [= <- <-].
    destruct Hc as [Hreg Hfree]. destruct Ha as [Hlt _].
    rewrite list.Forall_forall in Hlt.
    destruct (Hfree (next_info r) (Nat.le_refl _)) as [Hnone Hnotin].
    split; cbn [dSourceComboInfos dComboInfoChargeContent dComboInfosWithMassiveNeutrals
                next_info info_addr info_content o].
    - intros x Hx. apply elem_of_emplace_at in Hx. unfold emplace. rewrite Hnone.
      destruct Hx as [-> | Hx]; cbn [info_addr info_content o].
      + rewrite lookup_insert_eq. split; [reflexivity |].
        destruct (Get_HasMassiveNeutrals (DSourceComboInfo_ctor np fd)) eqn:Hm.
        * split; [reflexivity | intros _].
          apply elem_of_union. left. apply elem_of_singleton. reflexivity.
        * split; [intros H; contradiction | discriminate].
      + specialize (Hlt x Hx). cbn in Hlt.
        destruct (Hreg x Hx) as [Hcc Hmm].
        rewrite lookup_insert_ne by lia. split; [exact Hcc |].
        destruct (Get_HasMassiveNeutrals (DSourceComboInfo_ctor np fd)); [| exact Hmm].
        rewrite <- Hmm. split; [| intros H; apply elem_of_union; right; exact H].
        intros H. apply elem_of_union in H. destruct H as [H | H]; [| exact H].
        apply elem_of_singleton in H. lia.
    - intros q Hq. destruct (Hfree q ltac:(lia)) as [Hqn Hqm].
      unfold emplace. rewrite Hnone, lookup_insert_ne by lia. split; [exact Hqn |].
      destruct (Get_HasMassiveNeutrals (DSourceComboInfo_ctor np fd)); [| exact Hqm].
      intros H. apply elem_of_union in H. destruct H as [H | H]; [| contradiction].
      apply elem_of_singleton in H. lia. }
  split; [exact Hc1 |]. exact (proj1 Hc1 _ Hin).
Qed.

(** *** From the set of the setup to the vector of the comboing *)

Lemma elem_of_set_insert o s x : x ∈ set_insert o s -> x = o \/ x ∈ s.
Proof.
  induction s as [|y s IH]; simpl.
  - intros H. apply list_elem_of_singleton in H. left. exact H.
  - destruct (lt_obj o y); [| destruct (lt_obj y o)].
    + rewrite elem_of_cons. tauto.
    + rewrite !elem_of_cons. intros [-> | H]; [right; left; reflexivity |].
      destruct (IH H) as [-> | H']; [left; reflexivity | right; right; exact H'].
    + intros H. right. exact H.
Qed.

Lemma sorted_set_insert o s : sorted_infos s -> sorted_infos (set_insert o s).
Proof.
  unfold sorted_infos. induction 1 as [|y s Hs IH Hy]; simpl.
  - repeat constructor.
  - destruct (lt_obj o y) eqn:Hoy; [| destruct (lt_obj y o) eqn:Hyo].
    + constructor; [constructor; assumption |].
      constructor; [exact Hoy |].
      eapply List.Forall_impl; [| exact Hy]. intros z Hz. simpl in Hz.
      unfold lt_obj in *. eapply lt_trans; eassumption.
    + constructor; [exact IH |].
      apply list.Forall_forall. intros z Hz. apply elem_of_set_insert in Hz.
      destruct Hz as [-> | Hz]; [exact Hyo |].
      rewrite list.Forall_forall in Hy. exact (Hy z Hz).
    + constructor; assumption.
Qed.

Lemma set_find_Some key s o :
  set_find key s = Some o -> o ∈ s /\ info_content key = info_content o.
Proof.
  unfold set_find. intros H. apply List.find_some in H. destruct H as [Hin Heq].
  split; [apply list_elem_of_In; exact Hin | apply equiv_obj_content; exact Heq].
Qed.

Lemma set_insert_new key o s :
  info_content key = info_content o -> set_find key s = None -> o ∈ set_insert o s.
Proof.
  intros E. rewrite (set_find_same_content key o) by exact E. unfold set_find.
  induction s as [|y s IH]; simpl; intros Hnone.
  - apply list_elem_of_singleton. reflexivity.
  - destruct (equiv_obj o y) eqn:Hoy; [discriminate |].
    destruct (lt_obj o y) eqn:Hlt; [left |].
    destruct (lt_obj y o) eqn:Hgt.
    + right. apply IH. exact Hnone.
    + unfold equiv_obj in Hoy. rewrite Hlt, Hgt in Hoy. discriminate.
Qed.

(** A member of a sorted vector is where [std::equal_range] looks for its
    content. *)
Lemma member_bounds key o v :
  sorted_infos v -> o ∈ v -> info_content key = info_content o ->
  v !! lower_bound key v = Some o /\ lower_bound key v <> upper_bound key v.
Proof.
  intros Hs Hin E. unfold sorted_infos in Hs.
  assert (Ek : forall x, lt_obj key x = lt_obj o x /\ lt_obj x key = lt_obj x o)
    by (intros x; unfold lt_obj; rewrite E; split; reflexivity).
  induction Hs as [|x v Hs IH Hx]; [inversion Hin |].
  apply elem_of_cons in Hin. simpl. destruct Hin as [-> | Hin].
  - rewrite (proj2 (Ek x)), (proj1 (Ek x)). unfold lt_obj. rewrite lt_irrefl.
    split; [reflexivity | lia].
  - rewrite list.Forall_forall in Hx. pose proof (Hx o Hin) as Hxo. simpl in Hxo.
    rewrite (proj2 (Ek x)), Hxo.
    pose proof Hxo as Hox. unfold lt_obj in Hox. apply lt_asym in Hox.
    fold (lt_obj o x) in Hox. rewrite (proj1 (Ek x)), Hox.
    destruct (IH Hin) as [Hl Hne]. split; [exact Hl | lia].
Qed.

Lemma elem_of_set_insert_old o s x : x ∈ s -> x ∈ set_insert o s.
Proof.
  induction s as [|y s IH]; simpl; [intros H; inversion H |].
  destruct (lt_obj o y); [| destruct (lt_obj y o)].
  - intros H. right. exact H.
  - rewrite !elem_of_cons. intros [-> | H]; [left; reflexivity | right; exact (IH H)].
  - intros H. exact H.
Qed.

(** C7.  Interning is idempotent.  For two requests whose constructed
    contents are equal, on a sorted vector and a sorted set:
    [GetOrMake_SourceComboInfo] returns a pointer, the info at that pointer
    is registered in the vector with the requested content, the vector holds
    what it held before and at most that info more, and the second request
    returns the same pointer and leaves the registry as it is; the vector
    stays sorted and holds no two infos of equal content.
    [MakeOrGet_SourceComboInfo] does the same on the set. *)
Theorem interning_idempotent
    (np np' : list (Particle_t * nat)) (fd fd' : list (DSourceComboUse * nat))
    (r : Registry) :
  DSourceComboInfo_ctor np fd = DSourceComboInfo_ctor np' fd' ->
  sorted_infos (dSourceComboInfos r) ->
  sorted_infos (dSourceComboInfoSet r) ->
  (exists p r1,
      GetOrMake_SourceComboInfo np fd r = Some (p, r1) /\
      GetOrMake_SourceComboInfo np' fd' r1 = Some (p, r1) /\
      MkInfoObj p (DSourceComboInfo_ctor np fd) ∈ dSourceComboInfos r1 /\
      (forall o, o ∈ dSourceComboInfos r1 <->
                 o ∈ dSourceComboInfos r \/ o = MkInfoObj p (DSourceComboInfo_ctor np fd)) /\
      sorted_infos (dSourceComboInfos r1) /\
      content_unique (dSourceComboInfos r1)) /\
  (exists p r1,
      MakeOrGet_SourceComboInfo np fd r = (p, r1) /\
      MakeOrGet_SourceComboInfo np' fd' r1 = (p, r1) /\
      MkInfoObj p (DSourceComboInfo_ctor np fd) ∈ dSourceComboInfoSet r1 /\
      (forall o, o ∈ dSourceComboInfoSet r1 <->
                 o ∈ dSourceComboInfoSet r \/ o = MkInfoObj p (DSourceComboInfo_ctor np fd)) /\
      sorted_infos (dSourceComboInfoSet r1) /\
      content_unique (dSourceComboInfoSet r1)).
Proof.
  intros E Hs Hset. split.
  - unfold GetOrMake_SourceComboInfo. rewrite <- E.
    set (key := MkInfoObj 0 (DSourceComboInfo_ctor np fd)).
    destruct (negb (lower_bound key (dSourceComboInfos r) =?
                    upper_bound key (dSourceComboInfos r))) eqn:Hfound.
    + (* found *)
      pose proof Hfound as Hne. apply negb_true_iff, Nat.eqb_neq in Hne.
      destruct (equal_range_found key _ Hne) as (o & Ho & Heq).
      apply equiv_obj_content in Heq. cbn in Heq.
      assert (Eo : MkInfoObj (info_addr o) (DSourceComboInfo_ctor np fd) = o)
        by (destruct o; cbn in *; congruence).
      assert (Hin : o ∈ dSourceComboInfos r) by (apply list_elem_of_lookup; eauto).
      exists (info_addr o), r. rewrite Hfound, Ho, Eo.
      split; [reflexivity |]. split; [reflexivity |]. split; [exact Hin |].
      split; [| split; [exact Hs | apply sorted_content_unique; exact Hs]].
      intros x. split; [intros H; left; exact H | intros [H | ->]; assumption].
    + (* created *)
      apply negb_false_iff, Nat.eqb_eq in Hfound.
      set (o := MkInfoObj (next_info r) (DSourceComboInfo_ctor np fd)).
      destruct (register_classification o r) as [content massive] eqn:Hreg.
      eexists _, _. split; [reflexivity |]. cbn [dSourceComboInfos info_addr o]. fold o.
      assert (Hlt1 : lt_obj o key = false) by (unfold lt_obj; simpl; apply lt_irrefl).
      assert (Hlt2 : lt_obj key o = false) by (unfold lt_obj; simpl; apply lt_irrefl).
      pose proof (lower_bound_emplace key o (dSourceComboInfos r) Hlt1) as Hlb.
      pose proof (upper_bound_emplace key o (dSourceComboInfos r) Hlt2) as Hub.
      rewrite Hlb.
      assert (Hne : negb (lower_bound key (dSourceComboInfos r) =?
                 upper_bound key (vector_emplace_at
                   (lower_bound key (dSourceComboInfos r)) o (dSourceComboInfos r))) = true).
      { apply negb_true_iff, Nat.eqb_neq. lia. }
      rewrite Hne, lookup_emplace_at.
      assert (Hs' : sorted_infos (vector_emplace_at
                   (lower_bound key (dSourceComboInfos r)) o (dSourceComboInfos r)))
        by (apply sorted_emplace; auto).
      split; [reflexivity |].
      split; [apply elem_of_emplace_at; left; reflexivity |].
      split; [| split; [exact Hs' | apply sorted_content_unique; exact Hs']].
      intros x. rewrite elem_of_emplace_at. tauto.
  - unfold MakeOrGet_SourceComboInfo. rewrite <- E.
    set (key := MkInfoObj 0 (DSourceComboInfo_ctor np fd)).
    destruct (set_find key (dSourceComboInfoSet r)) as [o|] eqn:Hfind.
    + (* found *)
      destruct (set_find_Some _ _ _ Hfind) as [Hin Heq]. cbn in Heq.
      assert (Eo : MkInfoObj (info_addr o) (DSourceComboInfo_ctor np fd) = o)
        by (destruct o; cbn in *; congruence).
      exists (info_addr o), r. rewrite Hfind, Eo.
      split; [reflexivity |]. split; [reflexivity |]. split; [exact Hin |].
      split; [| split; [exact Hset | apply sorted_content_unique; exact Hset]].
      intros x. split; [intros H; left; exact H | intros [H | ->]; assumption].
    + (* created *)
      set (o := MkInfoObj (next_info r) (DSourceComboInfo_ctor np fd)).
      destruct (register_classification o r) as [content massive] eqn:Hreg.
      eexists _, _. split; [reflexivity |]. cbn [dSourceComboInfoSet info_addr o]. fold o.
      rewrite (set_find_insert key o) by auto.
      assert (Hnew : o ∈ set_insert o (dSourceComboInfoSet r))
        by (apply (set_insert_new key); [reflexivity | exact Hfind]).
      assert (Hs' : sorted_infos (set_insert o (dSourceComboInfoSet r)))
        by (apply sorted_set_insert; exact Hset).
      split; [reflexivity |]. split; [exact Hnew |].
      split; [| split; [exact Hs' | apply sorted_content_unique; exact Hs']].
      intros x. split.
      * intros H. apply elem_of_set_insert in H. tauto.
      * intros [H | ->]; [apply elem_of_set_insert_old; exact H | exact Hnew].
Qed.

(** X5.  An info made during the setup is found again while comboing.  A use
    made by [Make_ComboUse] has the requested decay kind and the
    z-independent bin; after the constructor's transfer of the set to the
    vector, [GetOrMake_SourceComboInfo] for the same content returns the
    info of that use and registers nothing. *)
Theorem setup_info_found_when_comboing
    (locInitPID : Particle_t) (np : list (Particle_t * nat))
    (fd : list (DSourceComboUse * nat)) (r r1 : Registry) (u : DSourceComboUse) :
  sorted_infos (dSourceComboInfoSet r) ->
  dSourceComboInfos r = [] ->
  Make_ComboUse locInitPID np fd r = (u, r1) ->
  use_decay_pid u = locInitPID /\
  use_vertex_zbin u = Get_VertexZIndex_ZIndependent /\
  sorted_infos (dSourceComboInfoSet r1) /\
  dSourceComboInfos r1 = [] /\
  GetOrMake_SourceComboInfo np fd (transfer_infos r1)
  = Some (use_info u, transfer_infos r1).
Proof.
  intros Hs Hv. unfold Make_ComboUse, MakeOrGet_SourceComboInfo.
  set (key := MkInfoObj 0 (DSourceComboInfo_ctor np fd)).
  assert (Hget : forall r' o, sorted_infos (dSourceComboInfoSet r') ->
            dSourceComboInfos r' = [] -> o ∈ dSourceComboInfoSet r' ->
            info_content key = info_content o ->
            GetOrMake_SourceComboInfo np fd (transfer_infos r')
            = Some (info_addr o, transfer_infos r')).
  { intros r' o Hs' Hv' Hin E. unfold GetOrMake_SourceComboInfo. fold key.
    cbn [transfer_infos dSourceComboInfos]. rewrite Hv'. cbn [app].
    destruct (member_bounds key o _ Hs' Hin E) as [Hl Hne].
    apply Nat.eqb_neq in Hne. rewrite Hne, Hl. reflexivity. }
  destruct (set_find key (dSourceComboInfoSet r)) as [o|] eqn:Hfind.
  - intros [= <- <-]. apply set_find_Some in Hfind. destruct Hfind as [Hin E].
    repeat split; try assumption. cbn [use_info]. apply Hget; assumption.
  - set (o := MkInfoObj (next_info r) (DSourceComboInfo_ctor np fd)).
    destruct (register_classification o r) as [content massive].
    intros [= <- <-]. cbn [use_decay_pid use_vertex_zbin use_info dSourceComboInfoSet
                          dSourceComboInfos info_addr].
    split; [reflexivity |]. split; [reflexivity |].
    split; [apply sorted_set_insert; exact Hs |]. split; [exact Hv |].
    apply (Hget _ o).
    + apply sorted_set_insert. exact Hs.
    + exact Hv.
    + apply (set_insert_new key); [reflexivity | exact Hfind].
    + reflexivity.
Qed.

End Interning.

Lemma encode_lt_total (a b : DSourceComboInfo) :
  encode_lt a b = false -> encode_lt b a = false -> a = b.
Proof.
  unfold encode_lt. rewrite !Pos.ltb_ge. intros H1 H2.
  apply (inj encode). lia.
Qed.

Lemma encode_lt_trans (a b c : DSourceComboInfo) :
  encode_lt a b = true -> encode_lt b c = true -> encode_lt a c = true.
Proof. unfold encode_lt. rewrite !Pos.ltb_lt. lia. Qed.

(** [interning_idempotent] at the empty registry with [encode_lt]:
    requesting "2 photons" twice. *)
Lemma interning_idempotent_witness :
  let r0 := MkRegistry [] [] ∅ ∅ 1 in
  let GetOrMake :=
    GetOrMake_SourceComboInfo MkInfo encode_lt (fun _ => d_Neutral) (fun _ => false) in
  let MakeOrGet :=
    MakeOrGet_SourceComboInfo MkInfo encode_lt (fun _ => d_Neutral) (fun _ => false) in
  (exists p r1,
      GetOrMake [(Gamma, 2)] [] r0 = Some (p, r1) /\
      GetOrMake [(Gamma, 2)] [] r1 = Some (p, r1) /\
      MkInfoObj p (MkInfo [(Gamma, 2)] []) ∈ dSourceComboInfos r1 /\
      (forall o, o ∈ dSourceComboInfos r1 <->
                 o ∈ dSourceComboInfos r0 \/ o = MkInfoObj p (MkInfo [(Gamma, 2)] [])) /\
      sorted_infos encode_lt (dSourceComboInfos r1) /\
      content_unique (dSourceComboInfos r1)) /\
  (exists p r1,
      MakeOrGet [(Gamma, 2)] [] r0 = (p, r1) /\
      MakeOrGet [(Gamma, 2)] [] r1 = (p, r1) /\
      MkInfoObj p (MkInfo [(Gamma, 2)] []) ∈ dSourceComboInfoSet r1 /\
      (forall o, o ∈ dSourceComboInfoSet r1 <->
                 o ∈ dSourceComboInfoSet r0 \/ o = MkInfoObj p (MkInfo [(Gamma, 2)] [])) /\
      sorted_infos encode_lt (dSourceComboInfoSet r1) /\
      content_unique (dSourceComboInfoSet r1)).
Proof.
  intros r0 GetOrMake MakeOrGet.
  apply (interning_idempotent MkInfo encode_lt (fun _ => d_Neutral) (fun _ => false)
           (fun a => Pos.ltb_irrefl _) encode_lt_trans encode_lt_total
           [(Gamma, 2)] [(Gamma, 2)] [] [] r0).
  - reflexivity.
  - constructor.
  - constructor.
Defined.

(** [interning_injective] at the empty registry: "2 photons" requested
    twice. *)
Lemma interning_injective_witness :
  let r0 := MkRegistry [] [] ∅ ∅ 1 in
  exists r1,
    GetOrMake_SourceComboInfo MkInfo encode_lt (fun _ => d_Neutral) (fun _ => false)
      [(Gamma, 2)] [] r0 = Some (1, r1) /\
    GetOrMake_SourceComboInfo MkInfo encode_lt (fun _ => d_Neutral) (fun _ => false)
      [(Gamma, 2)] [] r1 = Some (1, r1) /\
    MkInfo [(Gamma, 2)] [] = MkInfo [(Gamma, 2)] [].
Proof.
  intro r0. eexists. split; [reflexivity |]. split; [reflexivity |].
  eapply (interning_injective MkInfo encode_lt (fun _ => d_Neutral) (fun _ => false)
            (fun a => Pos.ltb_irrefl _) encode_lt_trans encode_lt_total
            [(Gamma, 2)] [(Gamma, 2)] [] [] r0 _ _ 1 1).
  - constructor.
  - split; constructor.
  - reflexivity.
  - reflexivity.
  - reflexivity.
Defined.

(** [classification_cached] at the empty registry: a neutron pair is
    registered as neutral and as holding a massive neutral. *)
Lemma classification_cached_witness :
  let r0 := MkRegistry [] [] ∅ ∅ 1 in
  let massive := fun i : DSourceComboInfo =>
    existsb (fun p => bool_decide (fst p = Neutron)) (dNumParticles i) in
  exists r1,
    GetOrMake_SourceComboInfo MkInfo encode_lt (fun _ => d_Neutral) massive
      [(Neutron, 2)] [] r0 = Some (1, r1) /\
    dComboInfoChargeContent r1 !! 1 = Some d_Neutral /\
    (1 ∈ dComboInfosWithMassiveNeutrals r1 <-> true = true).
Proof.
  intros r0 massive. eexists. split; [reflexivity |].
  refine (proj2 (classification_cached MkInfo encode_lt (fun _ => d_Neutral) massive
            (fun a => Pos.ltb_irrefl _) encode_lt_trans encode_lt_total
            [(Neutron, 2)] [] r0 _ 1 _ _ _ eq_refl)).
  - constructor.
  - split; constructor.
  - split.
    + intros o Ho. inversion Ho.
    + intros p _. split; [reflexivity | apply not_elem_of_empty].
Defined.

(** [setup_info_found_when_comboing] at the empty registry: the use of
    "pi0 -> 2 photons". *)
Lemma setup_info_found_when_comboing_witness :
  let r0 := MkRegistry [] [] ∅ ∅ 1 in
  exists u r1,
    Make_ComboUse MkInfo encode_lt (fun _ => d_Neutral) (fun _ => false)
      Pi0 [(Gamma, 2)] [] r0 = (u, r1) /\
    use_decay_pid u = Pi0 /\
    use_vertex_zbin u = Get_VertexZIndex_ZIndependent /\
    sorted_infos encode_lt (dSourceComboInfoSet r1) /\
    dSourceComboInfos r1 = [] /\
    GetOrMake_SourceComboInfo MkInfo encode_lt (fun _ => d_Neutral) (fun _ => false)
      [(Gamma, 2)] [] (transfer_infos r1) = Some (use_info u, transfer_infos r1).
Proof.
  intro r0. eexists _, _. split; [reflexivity |].
  apply (setup_info_found_when_comboing MkInfo encode_lt (fun _ => d_Neutral)
           (fun _ => false) (fun a => Pos.ltb_irrefl _) encode_lt_trans encode_lt_total
           Pi0 [(Gamma, 2)] [] r0).
  - constructor.
  - reflexivity.
  - reflexivity.
Defined.

End Registry.

(** ** Setting up: reactions, cuts and tracks *)

Module Setup.

(** [++] on an [unsigned char]. *)
Definition incr_uchar (n : nat) : nat := (n + 1) mod 256.

(** The counting step of [Build_ParticleMap] and of
    [Get_FinalStateDecayingComboUses]:
    [it = m.find(k); if(it != m.end()) ++(it->second); else m.emplace(k, 1);] *)
Definition count_one `{Countable K} (k : K) (m : gmap K nat) : gmap K nat :=
  match m !! k with
  | Some n => <[k := incr_uchar n]> m
  | None => emplace k 1 m
  end.

(** [DSourceComboer::Build_ParticleMap], on the list of final-state PIDs that
    [DReaction::Get_FinalPIDs] gives for the step and the charge (no missing
    or decaying particle, duplicates included). *)
Definition Build_ParticleMap (locParticles : list Particle_t) : gmap Particle_t nat :=
  fold_left (fun locNumParticles locPID => count_one locPID locNumParticles)
            locParticles ∅.

(** [DSourceComboer::Get_FinalStateDecayingComboUses]: the step has
    [Get_NumFinalPIDs] final-state particles, [Get_DecayStepIndex] gives the
    step in which the particle at an index decays, negative when it does
    not decay.  [decay_count_step] is the body of its loop. *)
Definition decay_count_step (Get_DecayStepIndex : nat -> Z)
    (locStepComboUseMap : gmap nat DSourceComboUse)
    (acc : bool * gmap DSourceComboUse nat) (loc_i : nat)
  : bool * gmap DSourceComboUse nat :=
  let '(locIncludeParentFlag, locFurtherDecays) := acc in
  let locDecayStepIndex := Get_DecayStepIndex loc_i in
  if (locDecayStepIndex <? 0)%Z then acc
  else
    match locStepComboUseMap !! Z.to_nat locDecayStepIndex with
    | None => (false, locFurtherDecays)
    | Some locSourceComboUse =>
        (locIncludeParentFlag, count_one locSourceComboUse locFurtherDecays)
    end.

Definition Get_FinalStateDecayingComboUses (Get_NumFinalPIDs : nat)
    (Get_DecayStepIndex : nat -> Z) (locStepComboUseMap : gmap nat DSourceComboUse)
  : bool * gmap DSourceComboUse nat :=
  fold_left (decay_count_step Get_DecayStepIndex locStepComboUseMap)
            (seq 0 Get_NumFinalPIDs) (true, ∅).

(** The last block of the constructor, "save max bunch cuts"; reactions and
    vertex infos are given by their addresses.  [max_cut_step] is the body of
    the inner loop:
    [if(dRFBunchCutsByReaction[r] > dMaxRFBunchCuts[v])
       dMaxRFBunchCuts[v] = dRFBunchCutsByReaction[r];] *)
Definition max_cut_step (locVertexInfo : nat) (acc : gmap nat nat * gmap nat nat)
    (locReaction : nat) : gmap nat nat * gmap nat nat :=
  let '(c, cuts1) := subscript 0 locReaction (fst acc) in
  let '(m, maxes1) := subscript 0 locVertexInfo (snd acc) in
  if m <? c
  then let '(c', cuts2) := subscript 0 locReaction cuts1 in
       (cuts2, <[locVertexInfo := c']> maxes1)
  else (cuts1, maxes1).

Definition max_cut_vertex (locReactions : list nat) (acc : gmap nat nat * gmap nat nat)
    (locVertexInfo : nat) : gmap nat nat * gmap nat nat :=
  fold_left (max_cut_step locVertexInfo) locReactions
            (fst acc, emplace locVertexInfo 0 (snd acc)).

Definition save_max_bunch_cuts (locVertexInfos locReactions : list nat)
    (dRFBunchCutsByReaction dMaxRFBunchCuts : gmap nat nat)
  : gmap nat nat * gmap nat nat :=
  fold_left (max_cut_vertex locReactions) locVertexInfos
            (dRFBunchCutsByReaction, dMaxRFBunchCuts).

(** The "SETUP TRACKS" block of [Reset_NewEvent], after
    [dTracksByPID.clear()]: a track is given by its address and the PIDs of
    its hypotheses; [file_track] is the body of the outer loop, then every
    list is sorted. *)
Definition file_track (m : gmap Particle_t (list JObject))
    (locChargedTrack : JObject * list Particle_t) : gmap Particle_t (list JObject) :=
  fold_left (fun m locPID =>
      <[locPID := fst (subscript [] locPID m) ++ [fst locChargedTrack]]> m)
    (snd locChargedTrack) m.

Definition Setup_Tracks (locChargedTracks : list (JObject * list Particle_t))
  : gmap Particle_t (list JObject) :=
  sorting.merge_sort le <$> fold_left file_track locChargedTracks ∅.

(** What a count of [k] occurrences leaves in a map of [unsigned char]
    counts. *)
Definition uchar_count (k : nat) : option nat :=
  if k =? 0 then None else Some (k mod 256).

(** The tracks filed under a PID, in the order of the tracks. *)
Definition tracks_with (locPID : Particle_t)
    (locChargedTracks : list (JObject * list Particle_t)) : list JObject :=
  flat_map (fun t => map (fun _ => fst t)
                         (List.filter (fun p => bool_decide (p = locPID)) (snd t)))
           locChargedTracks.

(** The use of the decay of the final-state particle at an index, when it
    decays and its step has a use. *)
Definition decay_use_at (Get_DecayStepIndex : nat -> Z)
    (locStepComboUseMap : gmap nat DSourceComboUse) (loc_i : nat) : option DSourceComboUse :=
  if (Get_DecayStepIndex loc_i <? 0)%Z then None
  else locStepComboUseMap !! Z.to_nat (Get_DecayStepIndex loc_i).

(** The particle at an index does not decay, or its decay step has a use. *)
Definition decay_known (Get_DecayStepIndex : nat -> Z)
    (locStepComboUseMap : gmap nat DSourceComboUse) (loc_i : nat) : bool :=
  (Get_DecayStepIndex loc_i <? 0)%Z
  || bool_decide (is_Some (locStepComboUseMap !! Z.to_nat (Get_DecayStepIndex loc_i))).

(** The cut of a reaction, as [dRFBunchCutsByReaction[locReaction]] reads
    it. *)
Definition cut_of (dRFBunchCutsByReaction : gmap nat nat) (locReaction : nat) : nat :=
  default 0 (dRFBunchCutsByReaction !! locReaction).

(** A list as the map of tracks holds it: no entry for no track. *)
Definition nonempty {A} (l : list A) : option (list A) :=
  match l with [] => None | _ => Some l end.

Lemma count_one_lookup `{Countable K} (k k' : K) (m : gmap K nat) (n : nat) :
  m !! k' = uchar_count n ->
  count_one k m !! k' = uchar_count (if bool_decide (k = k') then S n else n).
Proof.
  intros Hm. unfold count_one, emplace.
  destruct (decide (k = k')) as [-> | Hne].
  - rewrite bool_decide_eq_true_2 by reflexivity. rewrite Hm.
    unfold uchar_count. destruct (Nat.eqb_spec n 0) as [-> | Hn].
    + rewrite lookup_insert_eq. reflexivity.
    + rewrite lookup_insert_eq. cbn [Nat.eqb]. unfold incr_uchar.
      rewrite Nat.Div0.add_mod_idemp_l. f_equal. f_equal. lia.
  - rewrite bool_decide_eq_false_2 by exact Hne.
    destruct (m !! k) eqn:E; rewrite lookup_insert_ne by exact Hne; exact Hm.
Qed.

Lemma Build_ParticleMap_fold l : forall (m : gmap Particle_t nat) (f : Particle_t -> nat),
  (forall p, m !! p = uchar_count (f p)) ->
  forall p, fold_left (fun acc pid => count_one pid acc) l m !! p
            = uchar_count (f p + count_occ Particle_eq_dec l p).
Proof.
  induction l as [|x l IH]; intros m f Hm p; cbn [fold_left count_occ].
  - rewrite Nat.add_0_r. apply Hm.
  - rewrite (IH _ (fun q => if bool_decide (x = q) then S (f q) else f q)).
    + destruct (Particle_eq_dec x p) as [-> | Hne].
      * rewrite bool_decide_eq_true_2 by reflexivity. f_equal. lia.
      * rewrite bool_decide_eq_false_2 by exact Hne. reflexivity.
    + intros q. apply count_one_lookup. apply Hm.
Qed.

(** X6.  The particle map counts: a PID is a key exactly when it occurs in the
    step, and its count is the number of its occurrences, as an
    [unsigned char] holds it. *)
Theorem Build_ParticleMap_counts (locParticles : list Particle_t) (locPID : Particle_t) :
  Build_ParticleMap locParticles !! locPID
  = uchar_count (count_occ Particle_eq_dec locParticles locPID).
Proof.
  unfold Build_ParticleMap.
  apply (Build_ParticleMap_fold locParticles ∅ (fun _ => 0)).
  intros p. apply lookup_empty.
Qed.

Lemma decay_count_step_spec idx (uses : gmap nat DSourceComboUse) flag
    (m : gmap DSourceComboUse nat) i :
  decay_count_step idx uses (flag, m) i
  = (flag && decay_known idx uses i,
     match decay_use_at idx uses i with
     | Some x => count_one x m
     | None => m
     end).
Proof.
  unfold decay_count_step, decay_known, decay_use_at.
  destruct (idx i <? 0)%Z; cbn [orb]; [rewrite andb_true_r; reflexivity |].
  destruct (uses !! Z.to_nat (idx i)) as [x|].
  - rewrite bool_decide_eq_true_2 by eauto. rewrite andb_true_r. reflexivity.
  - rewrite bool_decide_eq_false_2 by (intros [? ?]; discriminate).
    rewrite andb_false_r. reflexivity.
Qed.

Lemma decaying_uses_fold idx (uses : gmap nat DSourceComboUse) l :
  forall (flag : bool) (m : gmap DSourceComboUse nat) (f : DSourceComboUse -> nat),
  (forall u, m !! u = uchar_count (f u)) ->
  let r := fold_left (decay_count_step idx uses) l (flag, m) in
  fst r = flag && forallb (decay_known idx uses) l /\
  forall u, snd r !! u
            = uchar_count (f u + length (List.filter
                (fun i => bool_decide (decay_use_at idx uses i = Some u)) l)).
Proof.
  induction l as [|i l IH]; intros flag m f Hm; cbn [fold_left forallb List.filter].
  - split; [rewrite andb_true_r; reflexivity |].
    intros u. cbn [length]. rewrite Nat.add_0_r. apply Hm.
  - rewrite (decay_count_step_spec idx uses flag m i).
    destruct (decay_use_at idx uses i) as [x|] eqn:Hx.
    + destruct (IH (flag && decay_known idx uses i) (count_one x m)
                  (fun q => if bool_decide (x = q) then S (f q) else f q)) as [Hf Hc].
      { intros q. apply count_one_lookup. apply Hm. }
      split; [rewrite Hf, andb_assoc; reflexivity |]. intros u. rewrite Hc.
      destruct (decide (x = u)) as [-> | Hne].
      * rewrite !bool_decide_eq_true_2 by reflexivity. cbn [length]. f_equal. lia.
      * rewrite bool_decide_eq_false_2 by exact Hne.
        rewrite (bool_decide_eq_false_2 (Some x = Some u)) by congruence. reflexivity.
    + destruct (IH (flag && decay_known idx uses i) m f Hm) as [Hf Hc].
      split; [rewrite Hf, andb_assoc; reflexivity |].
      intros u. rewrite bool_decide_eq_false_2 by discriminate. apply Hc.
Qed.

(** X7.  The uses of the decaying final-state particles of a step.  The parent is
    kept exactly when the step of every decaying particle has a use already;
    each use is counted as many times as a decaying particle of the step has
    it, as an [unsigned char] holds the count. *)
Theorem decaying_uses_counted (Get_NumFinalPIDs : nat) (Get_DecayStepIndex : nat -> Z)
    (locStepComboUseMap : gmap nat DSourceComboUse) :
  let r := Get_FinalStateDecayingComboUses Get_NumFinalPIDs Get_DecayStepIndex
                                           locStepComboUseMap in
  (fst r = true <->
   forall loc_i, loc_i < Get_NumFinalPIDs -> (0 <= Get_DecayStepIndex loc_i)%Z ->
                 is_Some (locStepComboUseMap !! Z.to_nat (Get_DecayStepIndex loc_i))) /\
  forall u, snd r !! u
            = uchar_count (length (List.filter
                (fun i => bool_decide
                            (decay_use_at Get_DecayStepIndex locStepComboUseMap i = Some u))
                (seq 0 Get_NumFinalPIDs))).
Proof.
  intros r. subst r. unfold Get_FinalStateDecayingComboUses.
  destruct (decaying_uses_fold Get_DecayStepIndex locStepComboUseMap
              (seq 0 Get_NumFinalPIDs) true ∅ (fun _ => 0)) as [Hf Hc].
  { intros u. apply lookup_empty. }
  split; [| exact Hc].
  rewrite Hf. cbn [andb]. rewrite forallb_forall. split.
  - intros H i Hi Hpos. specialize (H i). rewrite in_seq in H.
    specialize (H ltac:(lia)). unfold decay_known in H.
    apply orb_prop in H. destruct H as [H | H]; [apply Z.ltb_lt in H; lia |].
    apply bool_decide_eq_true in H. exact H.
  - intros H i Hi. apply in_seq in Hi. unfold decay_known.
    destruct (Get_DecayStepIndex i <? 0)%Z eqn:Hneg; [reflexivity |]. cbn [orb].
    apply bool_decide_eq_true. apply H; [lia | apply Z.ltb_ge in Hneg; exact Hneg].
Qed.

Lemma max_cut_step_spec vi cuts maxes m re :
  maxes !! vi = Some m ->
  let r := max_cut_step vi (cuts, maxes) re in
  snd r !! vi = Some (m `max` cut_of cuts re) /\
  (forall v, v <> vi -> snd r !! v = maxes !! v) /\
  (forall x, cut_of (fst r) x = cut_of cuts x).
Proof.
  intros Hm. unfold max_cut_step, subscript, cut_of. cbn [fst snd]. rewrite Hm.
  destruct (cuts !! re) as [c|] eqn:E; simpl.
  - destruct (Nat.ltb_spec m c).
    + rewrite E. simpl. split; [rewrite lookup_insert_eq; f_equal; lia |].
      split; [intros v Hv; apply lookup_insert_ne; congruence | reflexivity].
    + simpl. split; [rewrite Nat.max_l by lia; exact Hm |]. split; reflexivity.
  - destruct (Nat.ltb_spec m 0); [lia |]. simpl.
    split; [rewrite Nat.max_l by lia; exact Hm |]. split; [reflexivity |].
    intros x. destruct (decide (re = x)) as [-> | Hne].
    + rewrite lookup_insert_eq, E. reflexivity.
    + rewrite lookup_insert_ne by exact Hne. reflexivity.
Qed.

Lemma max_cut_fold vi l : forall cuts maxes m,
  maxes !! vi = Some m ->
  let r := fold_left (max_cut_step vi) l (cuts, maxes) in
  snd r !! vi = Some (m `max` max_list (cut_of cuts <$> l)) /\
  (forall v, v <> vi -> snd r !! v = maxes !! v) /\
  (forall x, cut_of (fst r) x = cut_of cuts x).
Proof.
  induction l as [|re l IH]; intros cuts maxes m Hm; cbn [fold_left fmap list_fmap max_list].
  - simpl. split; [rewrite Nat.max_l by lia; exact Hm |]. split; reflexivity.
  - destruct (max_cut_step_spec vi cuts maxes m re Hm) as (H1 & H2 & H3).
    destruct (max_cut_step vi (cuts, maxes) re) as [cuts1 maxes1]. cbn [fst snd] in *.
    destruct (IH cuts1 maxes1 _ H1) as (I1 & I2 & I3).
    split.
    + assert (E : cut_of cuts1 <$> l = cut_of cuts <$> l)
        by (apply list_fmap_ext; intros; apply H3).
      rewrite I1, E. apply (f_equal Some). unfold id. lia.
    + split; [intros v Hv; rewrite I2, H2 by exact Hv; reflexivity |].
      intros x. rewrite I3. apply H3.
Qed.

(** X8.  Every vertex info gets, as its maximum cut, the largest cut of all the
    reactions of the constructor's list (and what it held before, if
    larger); the other entries are left alone, and reading the cuts does not
    change any of them. *)
Theorem max_bunch_cut_is_largest (locVertexInfos locReactions : list nat)
    (dRFBunchCutsByReaction dMaxRFBunchCuts : gmap nat nat) :
  let r := save_max_bunch_cuts locVertexInfos locReactions
                               dRFBunchCutsByReaction dMaxRFBunchCuts in
  (forall v, snd r !! v =
     if bool_decide (v ∈ locVertexInfos)
     then Some (default 0 (dMaxRFBunchCuts !! v)
                `max` max_list (cut_of dRFBunchCutsByReaction <$> locReactions))
     else dMaxRFBunchCuts !! v) /\
  (forall x, cut_of (fst r) x = cut_of dRFBunchCutsByReaction x).
Proof.
  unfold save_max_bunch_cuts.
  revert dRFBunchCutsByReaction dMaxRFBunchCuts.
  induction locVertexInfos as [|vi vis IH]; intros cuts maxes; cbn [fold_left]; cbv zeta.
  - split; [| reflexivity]. intros v. rewrite bool_decide_eq_false_2; [reflexivity |].
    apply not_elem_of_nil.
  - change (max_cut_vertex locReactions (cuts, maxes) vi)
      with (fold_left (max_cut_step vi) locReactions (cuts, emplace vi 0 maxes)).
    assert (He : emplace vi 0 maxes !! vi = Some (default 0 (maxes !! vi)) /\
                 forall v, v <> vi -> emplace vi 0 maxes !! v = maxes !! v).
    { unfold emplace. destruct (maxes !! vi) eqn:E.
      - split; [exact E | reflexivity].
      - split; [apply lookup_insert_eq | intros v Hv; apply lookup_insert_ne; congruence]. }
    destruct He as [He1 He2].
    destruct (max_cut_fold vi locReactions cuts _ _ He1) as (H1 & H2 & H3).
    destruct (fold_left (max_cut_step vi) locReactions (cuts, emplace vi 0 maxes))
      as [cuts1 maxes1]. cbn [fst snd] in *.
    destruct (IH cuts1 maxes1) as [I1 I2].
    assert (E : cut_of cuts1 <$> locReactions = cut_of cuts <$> locReactions)
      by (apply list_fmap_ext; intros; apply H3).
    split; [| intros x; rewrite I2; apply H3].
    intros v. rewrite I1, E.
    destruct (decide (v = vi)) as [-> | Hne].
    + rewrite (bool_decide_eq_true_2 (vi ∈ vi :: vis)) by (apply elem_of_cons; left; reflexivity).
      rewrite H1. destruct (bool_decide (vi ∈ vis)); simpl; apply (f_equal Some); unfold id; lia.
    + rewrite H2, He2 by exact Hne.
      destruct (decide (v ∈ vis)) as [Hin | Hin].
      * rewrite !bool_decide_eq_true_2; [reflexivity | apply elem_of_cons; right; exact Hin | exact Hin].
      * rewrite !bool_decide_eq_false_2; [reflexivity | | exact Hin].
        rewrite elem_of_cons. tauto.
Qed.

Lemma file_track_spec t : forall pids (m : gmap Particle_t (list JObject))
    (f : Particle_t -> list JObject),
  (forall pid, m !! pid = nonempty (f pid)) ->
  forall pid,
    fold_left (fun m locPID => <[locPID := fst (subscript [] locPID m) ++ [t]]> m) pids m
    !! pid
    = nonempty (f pid ++ map (fun _ => t)
                             (List.filter (fun p => bool_decide (p = pid)) pids)).
Proof.
  induction pids as [|p pids IH]; intros m f Hm pid; cbn [fold_left List.filter].
  - cbn [map]. rewrite app_nil_r. apply Hm.
  - rewrite (IH _ (fun q => if bool_decide (p = q) then f q ++ [t] else f q)).
    + destruct (decide (p = pid)) as [-> | Hne].
      * rewrite !bool_decide_eq_true_2 by reflexivity. cbn [map].
        rewrite <- app_assoc. reflexivity.
      * rewrite !bool_decide_eq_false_2 by congruence. reflexivity.
    + intros q. destruct (decide (p = q)) as [-> | Hne].
      * rewrite bool_decide_eq_true_2 by reflexivity. rewrite lookup_insert_eq.
        unfold subscript. rewrite (Hm q).
        destruct (f q); reflexivity.
      * rewrite bool_decide_eq_false_2 by exact Hne.
        rewrite lookup_insert_ne by exact Hne. apply Hm.
Qed.

Lemma file_tracks_spec tracks : forall (m : gmap Particle_t (list JObject))
    (f : Particle_t -> list JObject),
  (forall pid, m !! pid = nonempty (f pid)) ->
  forall pid, fold_left file_track tracks m !! pid
              = nonempty (f pid ++ tracks_with pid tracks).
Proof.
  induction tracks as [|t tracks IH]; intros m f Hm pid; cbn [fold_left].
  - unfold tracks_with. cbn [flat_map]. rewrite app_nil_r. apply Hm.
  - rewrite (IH _ (fun q => f q ++ map (fun _ => fst t)
                              (List.filter (fun p => bool_decide (p = q)) (snd t)))).
    + unfold tracks_with. cbn [flat_map]. rewrite app_assoc. reflexivity.
    + intros q. unfold file_track. apply file_track_spec. exact Hm.
Qed.

(** X9.  The tracks of the event by PID: a PID has an entry exactly when a track
    has a hypothesis of that PID, and the entry holds those tracks, once for
    each such hypothesis, sorted by address. *)
Theorem tracks_by_pid_sorted (locChargedTracks : list (JObject * list Particle_t))
    (locPID : Particle_t) :
  match Setup_Tracks locChargedTracks !! locPID with
  | None => tracks_with locPID locChargedTracks = []
  | Some l => Sorted le l /\ l ≡ₚ tracks_with locPID locChargedTracks /\ l <> []
  end.
Proof.
  unfold Setup_Tracks. rewrite lookup_fmap.
  rewrite (file_tracks_spec locChargedTracks ∅ (fun _ => [])) by (intros; apply lookup_empty).
  cbn [app]. destruct (tracks_with locPID locChargedTracks) as [|x l] eqn:E;
    unfold nonempty; cbn [fmap option_fmap option_map].
  - reflexivity.
  - split; [apply sorting.Sorted_merge_sort; apply _ |].
    split; [apply sorting.merge_sort_Permutation |].
    intros H. pose proof (sorting.merge_sort_Permutation le (x :: l)) as Hp.
    rewrite H in Hp. apply Permutation_nil_l in Hp. discriminate.
Qed.

End Setup.


(** ** Combos and the per-event state *)

(** Modelled from the spec: a [DSourceCombo] (declared in [DSourceCombo.h],
    not in the sources) after [Set_Members]: the leaf members of its own
    level, the sub-combos by use ([DSourceCombosByUse_Small], a map with
    unique keys as the code's [emplace(key, value)], [insert(first, last)],
    [find(key)] and [operator[]] on it show; listed here in insertion order)
    and the z-independence flag.  The object lives at [combo_addr]; it is not
    modified after [Set_Members], so a pointer to it is represented by the
    value. *)
Inductive DSourceCombo := MkCombo {
  combo_addr : nat;
  dSourceParticles : list (Particle_t * JObject);
  dFurtherDecayCombos : list (DSourceComboUse * list DSourceCombo);
  dIsComboingZIndependent : bool
}.

(** Modelled from the spec: [DSourceCombo::Get_SourceParticles(true)] (same
    header): "entire chain", as every call site comments it: the members of
    this level followed by those of every sub-combo. *)
Fixpoint Get_SourceParticles_chain (c : DSourceCombo) : list (Particle_t * JObject) :=
  dSourceParticles c ++
  flat_map (fun p => flat_map Get_SourceParticles_chain (snd p)) (dFurtherDecayCombos c).

(** Modelled from the spec:
    [DSourceCombo::Get_SourceParticles(bool locEntireChainFlag = false)]
    (same header). *)
Definition Get_SourceParticles (locEntireChainFlag : bool) (c : DSourceCombo)
  : list (Particle_t * JObject) :=
  if locEntireChainFlag then Get_SourceParticles_chain c else dSourceParticles c.

(** Modelled from the spec:
    [DAnalysis::Get_SourceParticles(pairs, locPID = Unknown)] (same header):
    the objects of the pairs, only those of kind [locPID] unless it is
    [Unknown] ("all of the particles of the given PID", as its caller
    [Combo_Horizontally_AddParticle] says). *)
Definition Get_SourceParticles_objects
    (pairs : list (Particle_t * JObject)) (locPID : Particle_t) : list JObject :=
  map snd (filter (fun p => bool_decide (locPID = Unknown) || bool_decide (fst p = locPID)) pairs).

(** The detected particles and showers a combo contains, through the whole
    sub-combo chain. *)
Definition leaves (c : DSourceCombo) : list JObject :=
  map snd (Get_SourceParticles_chain c).

(** Operations of [DSourceCombosByUse_Small]. *)
Definition small_find (u : DSourceComboUse) (m : list (DSourceComboUse * list DSourceCombo))
  : option (list DSourceCombo) :=
  snd <$> List.find (fun p => bool_decide (fst p = u)) m.

Definition small_emplace (u : DSourceComboUse) (cs : list DSourceCombo)
    (m : list (DSourceComboUse * list DSourceCombo)) : list (DSourceComboUse * list DSourceCombo) :=
  match small_find u m with
  | Some _ => m
  | None => m ++ [(u, cs)]
  end.

(** [m.insert(first, last)]: element by element, keys already present are
    skipped. *)
Definition small_insert_range (src m : list (DSourceComboUse * list DSourceCombo))
  : list (DSourceComboUse * list DSourceCombo) :=
  fold_left (fun acc p => small_emplace (fst p) (snd p) acc) src m.

(** [std::set_union] on two vectors of pointers, as the algorithm runs;
    [addr] gives the address the comparison looks at. *)
Fixpoint set_union {A} (addr : A -> nat) (l1 : list A) : list A -> list A :=
  fix merge (l2 : list A) : list A :=
    match l1 with
    | [] => l2
    | x :: l1' =>
        match l2 with
        | [] => l1
        | y :: l2' =>
            if addr y <? addr x then y :: merge l2'
            else x :: (if addr x <? addr y then set_union addr l1' l2
                       else set_union addr l1' l2')
        end
    end.

(** [std::sort] of a vector of pointers followed by [std::binary_search] in
    it: the search decides membership. *)
Definition binary_search (sorted : list nat) (x : nat) : bool :=
  existsb (Nat.eqb x) sorted.

(** [std::vector<int>(n)]: the constructor taking a count makes [n]
    value-initialised elements; a negative [int] converts to a size beyond
    [max_size] and the constructor throws. *)
Definition vector_int_of_count (n : Z) : option (list Z) :=
  if (n <? 0)%Z then None else Some (repeat 0%Z (Z.to_nat n)).

(** Vectors of combos held through a pointer ([vector<const DSourceCombo*>*]):
    address [0] is [nullptr]. *)
Abbreviation VecPtr := nat (only parsing).

Record Comboer := MkComboer {
  (* the info registry, with the charge content recorded for each info *)
  dRegistry : Registry.Registry;
  dZDependentUseToIndependentMap : gmap DSourceComboUse DSourceComboUse;
  (* particles of the event *)
  dTracksByPID : gmap Particle_t (list JObject);
  dShowersByBeamBunchByZBin : gmap Z (gmap (list Z) (list JObject));
  (* comboing results: use -> pointer to the vector of combos *)
  dSourceCombosByUse_Charged : gmap DSourceComboUse VecPtr;
  dMixedCombosByUseByChargedCombo : gmap nat (gmap DSourceComboUse VecPtr);
  dSourceCombosByBeamBunchByUse :
    gmap nat (gmap DSourceComboUse (gmap (list Z) (list DSourceCombo)));
  dValidRFBunches_ByCombo : gmap nat (list Z);
  (* resume-after bookkeeping; an iterator into a vector is a position *)
  dResumeSearchAfterIterators_Combos : gmap (nat * Z) (gmap (list Z) nat);
  dResumeSearchAfterMap_Combos : gmap nat nat;
  dResumeSearchAfterMap_Particles : gmap nat JObject;
  (* resource pools: the vectors handed out so far, the next vector and the
     next combo address *)
  dVectors : gmap VecPtr (list DSourceCombo);
  dNextVector : VecPtr;
  dNextCombo : nat
}.

Definition set_dRegistry (x : Registry.Registry) (s : Comboer) : Comboer :=
  MkComboer x (dZDependentUseToIndependentMap s) (dTracksByPID s)
    (dShowersByBeamBunchByZBin s) (dSourceCombosByUse_Charged s)
    (dMixedCombosByUseByChargedCombo s) (dSourceCombosByBeamBunchByUse s)
    (dValidRFBunches_ByCombo s) (dResumeSearchAfterIterators_Combos s)
    (dResumeSearchAfterMap_Combos s) (dResumeSearchAfterMap_Particles s)
    (dVectors s) (dNextVector s) (dNextCombo s).

Definition set_dTracksByPID (x : gmap Particle_t (list JObject)) (s : Comboer) : Comboer :=
  MkComboer (dRegistry s) (dZDependentUseToIndependentMap s) x
    (dShowersByBeamBunchByZBin s) (dSourceCombosByUse_Charged s)
    (dMixedCombosByUseByChargedCombo s) (dSourceCombosByBeamBunchByUse s)
    (dValidRFBunches_ByCombo s) (dResumeSearchAfterIterators_Combos s)
    (dResumeSearchAfterMap_Combos s) (dResumeSearchAfterMap_Particles s)
    (dVectors s) (dNextVector s) (dNextCombo s).

Definition set_dShowersByBeamBunchByZBin
    (x : gmap Z (gmap (list Z) (list JObject))) (s : Comboer) : Comboer :=
  MkComboer (dRegistry s) (dZDependentUseToIndependentMap s) (dTracksByPID s)
    x (dSourceCombosByUse_Charged s)
    (dMixedCombosByUseByChargedCombo s) (dSourceCombosByBeamBunchByUse s)
    (dValidRFBunches_ByCombo s) (dResumeSearchAfterIterators_Combos s)
    (dResumeSearchAfterMap_Combos s) (dResumeSearchAfterMap_Particles s)
    (dVectors s) (dNextVector s) (dNextCombo s).

Definition set_dSourceCombosByUse_Charged (x : gmap DSourceComboUse VecPtr) (s : Comboer)
  : Comboer :=
  MkComboer (dRegistry s) (dZDependentUseToIndependentMap s) (dTracksByPID s)
    (dShowersByBeamBunchByZBin s) x
    (dMixedCombosByUseByChargedCombo s) (dSourceCombosByBeamBunchByUse s)
    (dValidRFBunches_ByCombo s) (dResumeSearchAfterIterators_Combos s)
    (dResumeSearchAfterMap_Combos s) (dResumeSearchAfterMap_Particles s)
    (dVectors s) (dNextVector s) (dNextCombo s).

Definition set_dMixedCombosByUseByChargedCombo
    (x : gmap nat (gmap DSourceComboUse VecPtr)) (s : Comboer) : Comboer :=
  MkComboer (dRegistry s) (dZDependentUseToIndependentMap s) (dTracksByPID s)
    (dShowersByBeamBunchByZBin s) (dSourceCombosByUse_Charged s)
    x (dSourceCombosByBeamBunchByUse s)
    (dValidRFBunches_ByCombo s) (dResumeSearchAfterIterators_Combos s)
    (dResumeSearchAfterMap_Combos s) (dResumeSearchAfterMap_Particles s)
    (dVectors s) (dNextVector s) (dNextCombo s).

Definition set_dSourceCombosByBeamBunchByUse
    (x : gmap nat (gmap DSourceComboUse (gmap (list Z) (list DSourceCombo))))
    (s : Comboer) : Comboer :=
  MkComboer (dRegistry s) (dZDependentUseToIndependentMap s) (dTracksByPID s)
    (dShowersByBeamBunchByZBin s) (dSourceCombosByUse_Charged s)
    (dMixedCombosByUseByChargedCombo s) x
    (dValidRFBunches_ByCombo s) (dResumeSearchAfterIterators_Combos s)
    (dResumeSearchAfterMap_Combos s) (dResumeSearchAfterMap_Particles s)
    (dVectors s) (dNextVector s) (dNextCombo s).

Definition set_dValidRFBunches_ByCombo (x : gmap nat (list Z)) (s : Comboer) : Comboer :=
  MkComboer (dRegistry s) (dZDependentUseToIndependentMap s) (dTracksByPID s)
    (dShowersByBeamBunchByZBin s) (dSourceCombosByUse_Charged s)
    (dMixedCombosByUseByChargedCombo s) (dSourceCombosByBeamBunchByUse s)
    x (dResumeSearchAfterIterators_Combos s)
    (dResumeSearchAfterMap_Combos s) (dResumeSearchAfterMap_Particles s)
    (dVectors s) (dNextVector s) (dNextCombo s).

Definition set_dResumeSearchAfterIterators_Combos
    (x : gmap (nat * Z) (gmap (list Z) nat)) (s : Comboer) : Comboer :=
  MkComboer (dRegistry s) (dZDependentUseToIndependentMap s) (dTracksByPID s)
    (dShowersByBeamBunchByZBin s) (dSourceCombosByUse_Charged s)
    (dMixedCombosByUseByChargedCombo s) (dSourceCombosByBeamBunchByUse s)
    (dValidRFBunches_ByCombo s) x
    (dResumeSearchAfterMap_Combos s) (dResumeSearchAfterMap_Particles s)
    (dVectors s) (dNextVector s) (dNextCombo s).

Definition set_dResumeSearchAfterMap_Combos (x : gmap nat nat) (s : Comboer) : Comboer :=
  MkComboer (dRegistry s) (dZDependentUseToIndependentMap s) (dTracksByPID s)
    (dShowersByBeamBunchByZBin s) (dSourceCombosByUse_Charged s)
    (dMixedCombosByUseByChargedCombo s) (dSourceCombosByBeamBunchByUse s)
    (dValidRFBunches_ByCombo s) (dResumeSearchAfterIterators_Combos s)
    x (dResumeSearchAfterMap_Particles s)
    (dVectors s) (dNextVector s) (dNextCombo s).

Definition set_dResumeSearchAfterMap_Particles (x : gmap nat JObject) (s : Comboer) : Comboer :=
  MkComboer (dRegistry s) (dZDependentUseToIndependentMap s) (dTracksByPID s)
    (dShowersByBeamBunchByZBin s) (dSourceCombosByUse_Charged s)
    (dMixedCombosByUseByChargedCombo s) (dSourceCombosByBeamBunchByUse s)
    (dValidRFBunches_ByCombo s) (dResumeSearchAfterIterators_Combos s)
    (dResumeSearchAfterMap_Combos s) x
    (dVectors s) (dNextVector s) (dNextCombo s).

Definition set_dVectors (x : gmap VecPtr (list DSourceCombo)) (s : Comboer) : Comboer :=
  MkComboer (dRegistry s) (dZDependentUseToIndependentMap s) (dTracksByPID s)
    (dShowersByBeamBunchByZBin s) (dSourceCombosByUse_Charged s)
    (dMixedCombosByUseByChargedCombo s) (dSourceCombosByBeamBunchByUse s)
    (dValidRFBunches_ByCombo s) (dResumeSearchAfterIterators_Combos s)
    (dResumeSearchAfterMap_Combos s) (dResumeSearchAfterMap_Particles s)
    x (dNextVector s) (dNextCombo s).

Definition set_dNextVector (x : VecPtr) (s : Comboer) : Comboer :=
  MkComboer (dRegistry s) (dZDependentUseToIndependentMap s) (dTracksByPID s)
    (dShowersByBeamBunchByZBin s) (dSourceCombosByUse_Charged s)
    (dMixedCombosByUseByChargedCombo s) (dSourceCombosByBeamBunchByUse s)
    (dValidRFBunches_ByCombo s) (dResumeSearchAfterIterators_Combos s)
    (dResumeSearchAfterMap_Combos s) (dResumeSearchAfterMap_Particles s)
    (dVectors s) x (dNextCombo s).

Definition set_dNextCombo (x : nat) (s : Comboer) : Comboer :=
  MkComboer (dRegistry s) (dZDependentUseToIndependentMap s) (dTracksByPID s)
    (dShowersByBeamBunchByZBin s) (dSourceCombosByUse_Charged s)
    (dMixedCombosByUseByChargedCombo s) (dSourceCombosByBeamBunchByUse s)
    (dValidRFBunches_ByCombo s) (dResumeSearchAfterIterators_Combos s)
    (dResumeSearchAfterMap_Combos s) (dResumeSearchAfterMap_Particles s)
    (dVectors s) (dNextVector s) x.

(** The state of a new event: nothing registered, nothing built. *)
Definition empty_registry : Registry.Registry := Registry.MkRegistry [] [] ∅ ∅ 1.

Definition new_event : Comboer :=
  MkComboer empty_registry ∅ ∅ ∅ ∅ ∅ ∅ ∅ ∅ ∅ ∅ ∅ 1 1.

(** The monad of the member functions: state passing, [None] for undefined
    behaviour. *)
Definition M (A : Type) : Type := Comboer -> option (A * Comboer).

Definition ret {A} (a : A) : M A := fun s => Some (a, s).
Definition bind {A B} (m : M A) (k : A -> M B) : M B :=
  fun s => match m s with
           | Some (a, s') => k a s'
           | None => None
           end.
Definition undefined {A} : M A := fun _ => None.
Definition get_state : M Comboer := fun s => Some (s, s).
Definition put_state (s : Comboer) : M unit := fun _ => Some (tt, s).
Definition of_option {A} (o : option A) : M A :=
  fun s => match o with Some a => Some (a, s) | None => None end.

Notation "'do' x <- m ; k" := (bind m (fun x => k))
  (at level 10, x name, m at level 100, k at level 200).
Notation "'do' ' p <- m ; k" := (bind m (fun x => match x with p => k end))
  (at level 10, p pattern, m at level 100, k at level 200).

(** [for(const auto& x : l) body] *)
Fixpoint for_each {A} (l : list A) (body : A -> M unit) : M unit :=
  match l with
  | [] => ret tt
  | x :: l' => do _ <- body x; for_each l' body
  end.

Module Particles.

(** [DSourceComboer::Get_ShowersByBeamBunch], on the map the caller passes by
    reference. *)
Fixpoint union_loop (locBeamBunches : list Z) (rest : list Z) (locBunchesSoFar : list Z)
    (locShowersByBunch : gmap (list Z) (list JObject))
  : option (gmap (list Z) (list JObject)) :=
  match rest with
  | [] => Some locShowersByBunch
  | locBunch :: rest' =>
      let '(locComboShowers, m1) := subscript [] locBunchesSoFar locShowersByBunch in
      match vector_int_of_count locBunch with
      | None => None
      | Some key =>
          let '(locBunchShowers, m2) := subscript [] key m1 in
          let locBunchesSoFar' := locBunchesSoFar ++ [locBunch] in
          match locBunchShowers with
          | [] =>
              union_loop locBeamBunches rest' locBunchesSoFar'
                         (emplace locBunchesSoFar' locComboShowers m2)
          | _ =>
              let locMergeResult := set_union id locComboShowers locBunchShowers in
              let m3 := emplace locBunchesSoFar' locMergeResult m2 in
              (* Build_ParticleIterators(locBeamBunches, m3[locBeamBunches]) *)
              let m4 := snd (subscript [] locBeamBunches m3) in
              union_loop locBeamBunches rest' locBunchesSoFar' m4
          end
      end
  end.

Definition Get_ShowersByBeamBunch (locBeamBunches : list Z)
    (locShowersByBunch : gmap (list Z) (list JObject))
  : option (list JObject * gmap (list Z) (list JObject)) :=
  match locBeamBunches with
  | [] => None                      (* *locBeamBunches.begin() *)
  | first :: rest =>
      match union_loop locBeamBunches rest [first] locShowersByBunch with
      | None => None
      | Some m => Some (subscript [] locBeamBunches m)
      end
  end.

(** [dShowersByBeamBunchByZBin[z][bunches]] *)
Definition showers_subscript (z : Z) (bunches : list Z) : M (list JObject) :=
  fun s =>
    let '(byBunch, _) := subscript ∅ z (dShowersByBeamBunchByZBin s) in
    let '(v, byBunch') := subscript [] bunches byBunch in
    Some (v, set_dShowersByBeamBunchByZBin (<[z := byBunch']> (dShowersByBeamBunchByZBin s)) s).

(** The tail shared by the two photon cases: look the exact bunch set up,
    build it with [Get_ShowersByBeamBunch] when it is not there. *)
Definition showers_find_or_build (z : Z) (locBeamBunches : list Z) : M (list JObject) :=
  fun s =>
    let '(byBunch, _) := subscript ∅ z (dShowersByBeamBunchByZBin s) in
    match byBunch !! locBeamBunches with
    | Some v => Some (v, set_dShowersByBeamBunchByZBin (<[z := byBunch]> (dShowersByBeamBunchByZBin s)) s)
    | None =>
        match Get_ShowersByBeamBunch locBeamBunches byBunch with
        | None => None
        | Some (v, byBunch') => Some (v, set_dShowersByBeamBunchByZBin (<[z := byBunch']> (dShowersByBeamBunchByZBin s)) s)
        end
    end.

(** [DSourceComboer::Get_ParticlesForComboing] *)
Definition Get_ParticlesForComboing (locPID : Particle_t) (locComboingStage : ComboingStage_t)
    (locBeamBunches : list Z) (locVertexZBin : Z) : M (list JObject) :=
  if bool_decide (ParticleCharge locPID <> 0%Z) then
    fun s => let '(v, t) := subscript [] locPID (dTracksByPID s) in Some (v, set_dTracksByPID t s)
  else if bool_decide (locPID <> Gamma) then
    showers_subscript Get_VertexZIndex_Unknown []
  else if bool_decide (locComboingStage = d_MixedStage_ZIndependent) then
    showers_find_or_build Get_VertexZIndex_ZIndependent locBeamBunches
  else if bool_decide (locBeamBunches = []) then
    showers_subscript Get_VertexZIndex_Unknown []
  else
    showers_find_or_build locVertexZBin locBeamBunches.

(** What the specification describes: the union, over the bunches of the constraint,
    of the showers indexed under each single bunch. *)
Definition union_over_bunches (locBeamBunches : list Z)
    (locShowersByBunch : gmap (list Z) (list JObject)) : list JObject :=
  fold_left (fun acc b => set_union id acc (default [] (locShowersByBunch !! [b])))
            locBeamBunches [].

(** An event for the evaluations: in vertex-z bin 3, showers 10 and 11 are
    valid for bunch 1, showers 11 and 12 for bunch 2. *)
Definition showers_bin3 : gmap (list Z) (list JObject) :=
  <[ [1%Z] := [10; 11] ]> (<[ [2%Z] := [11; 12] ]> ∅).

Definition event_two_bunches : Comboer :=
  set_dShowersByBeamBunchByZBin (<[ 3%Z := showers_bin3 ]> ∅) new_event.

(** C5 (code evaluated at a concrete event).  Photons, constraint {1,2} not
    yet indexed for bin 3: the union over the constraint is showers 10, 11
    and 12, but [Get_ParticlesForComboing] returns 10 and 11 only: shower 12,
    valid for bunch 2, is missing.  The key looked up for bunch 2 is
    [vector<int>(2)], the vector (0,0), not the vector (2). *)
Theorem showers_for_two_bunches_misses_second_bunch :
  union_over_bunches [1%Z; 2%Z] showers_bin3 = [10; 11; 12] /\
  (exists s', Get_ParticlesForComboing Gamma d_MixedStage [1%Z; 2%Z] 3 event_two_bunches
              = Some ([10; 11], s')) /\
  vector_int_of_count 2 = Some [0%Z; 0%Z].
Proof.
  split; [reflexivity |]. split; [| reflexivity].
  eexists. vm_compute. reflexivity.
Qed.

Lemma subscript_lookup `{Countable K} {V} (dflt : V) (k : K) (m m' : gmap K V) (v : V) :
  subscript dflt k m = (v, m') -> m' !! k = Some v.
Proof.
  unfold subscript. destruct (m !! k) eqn:E; intros [= <- <-];
    [exact E | apply lookup_insert_eq].
Qed.

Lemma subscript_again `{Countable K} {V} (dflt : V) (k : K) (m m' : gmap K V) (v : V) :
  subscript dflt k m = (v, m') -> subscript dflt k m' = (v, m').
Proof.
  intros E. apply subscript_lookup in E. unfold subscript. rewrite E. reflexivity.
Qed.

Lemma showers_subscript_again z bunches s v s1 :
  showers_subscript z bunches s = Some (v, s1) ->
  showers_subscript z bunches s1 = Some (v, s1).
Proof.
  unfold showers_subscript.
  destruct (subscript ∅ z (dShowersByBeamBunchByZBin s)) as [byBunch m0].
  destruct (subscript [] bunches byBunch) as [v0 byBunch'] eqn:E.
  intros [= <- <-]. cbn [dShowersByBeamBunchByZBin set_dShowersByBeamBunchByZBin].
  unfold subscript at 1. rewrite lookup_insert_eq.
  rewrite (subscript_again _ _ _ _ _ E).
  unfold set_dShowersByBeamBunchByZBin. cbn. rewrite insert_insert_eq. reflexivity.
Qed.

Lemma showers_find_or_build_again z bunches s v s1 :
  showers_find_or_build z bunches s = Some (v, s1) ->
  showers_find_or_build z bunches s1 = Some (v, s1).
Proof.
  unfold showers_find_or_build.
  destruct (subscript ∅ z (dShowersByBeamBunchByZBin s)) as [byBunch m0].
  assert (Hfound : forall b : gmap (list Z) (list JObject),
    b !! bunches = Some v ->
    let s1 := set_dShowersByBeamBunchByZBin (<[z := b]> (dShowersByBeamBunchByZBin s)) s in
    (let '(byBunch, _) := subscript ∅ z (dShowersByBeamBunchByZBin s1) in
     match byBunch !! bunches with
     | Some v => Some (v, set_dShowersByBeamBunchByZBin
                            (<[z := byBunch]> (dShowersByBeamBunchByZBin s1)) s1)
     | None =>
         match Get_ShowersByBeamBunch bunches byBunch with
         | None => None
         | Some (v, byBunch') =>
             Some (v, set_dShowersByBeamBunchByZBin
                        (<[z := byBunch']> (dShowersByBeamBunchByZBin s1)) s1)
         end
     end) = Some (v, s1)).
  { intros b Hb. cbn [dShowersByBeamBunchByZBin set_dShowersByBeamBunchByZBin].
    unfold subscript. rewrite lookup_insert_eq, Hb.
    unfold set_dShowersByBeamBunchByZBin. cbn. rewrite insert_insert_eq. reflexivity. }
  destruct (byBunch !! bunches) as [v0|] eqn:E.
  - intros [= <- <-]. apply Hfound. exact E.
  - unfold Get_ShowersByBeamBunch. destruct bunches as [|first rest]; [discriminate |].
    destruct (union_loop (first :: rest) rest [first] byBunch) as [m|]; [| discriminate].
    destruct (subscript [] (first :: rest) m) as [v0 byBunch'] eqn:Es.
    intros [= <- <-]. apply Hfound. exact (subscript_lookup _ _ _ _ _ Es).
Qed.

(** X10.  A request for particles is answered from what the first request left:
    asked again with the same arguments, [Get_ParticlesForComboing] returns
    the same list and changes nothing. *)
Theorem particles_request_repeatable (locPID : Particle_t)
    (locComboingStage : ComboingStage_t) (locBeamBunches : list Z) (locVertexZBin : Z)
    (s s1 : Comboer) (locParticles : list JObject) :
  Get_ParticlesForComboing locPID locComboingStage locBeamBunches locVertexZBin s
    = Some (locParticles, s1) ->
  Get_ParticlesForComboing locPID locComboingStage locBeamBunches locVertexZBin s1
    = Some (locParticles, s1).
Proof.
  unfold Get_ParticlesForComboing.
  destruct (bool_decide (ParticleCharge locPID <> 0%Z)).
  { destruct (subscript [] locPID (dTracksByPID s)) as [v t] eqn:E.
    intros [= <- <-]. cbn [dTracksByPID set_dTracksByPID].
    rewrite (subscript_again _ _ _ _ _ E). reflexivity. }
  destruct (bool_decide (locPID <> Gamma)); [apply showers_subscript_again |].
  destruct (bool_decide (locComboingStage = d_MixedStage_ZIndependent));
    [apply showers_find_or_build_again |].
  destruct (bool_decide (locBeamBunches = []));
    [apply showers_subscript_again | apply showers_find_or_build_again].
Qed.

Lemma particles_request_repeatable_witness :
  exists s1,
    Get_ParticlesForComboing Gamma d_MixedStage [1%Z; 2%Z] 3 event_two_bunches
      = Some ([10; 11], s1) /\
    Get_ParticlesForComboing Gamma d_MixedStage [1%Z; 2%Z] 3 s1 = Some ([10; 11], s1).
Proof.
  eexists. split; [vm_compute; reflexivity |].
  apply (particles_request_repeatable Gamma d_MixedStage [1%Z; 2%Z] 3 event_two_bunches).
  vm_compute. reflexivity.
Defined.

Lemma union_loop_negative locBeamBunches rest :
  forall locBunchesSoFar (locShowersByBunch : gmap (list Z) (list JObject)),
    (exists b, b ∈ rest /\ (b < 0)%Z) ->
    union_loop locBeamBunches rest locBunchesSoFar locShowersByBunch = None.
Proof.
  induction rest as [|b0 rest IH]; intros sofar m (b & Hin & Hneg).
  - inversion Hin.
  - cbn [union_loop]. destruct (subscript [] sofar m) as [combo m1].
    unfold vector_int_of_count. destruct (Z.ltb_spec b0 0) as [Hlt | Hge]; [reflexivity |].
    assert (Hrest : exists b, b ∈ rest /\ (b < 0)%Z).
    { exists b. split; [| exact Hneg]. apply elem_of_cons in Hin.
      destruct Hin as [-> | Hin]; [lia | exact Hin]. }
    destruct (subscript [] _ m1) as [showers m2].
    destruct showers; apply IH; exact Hrest.
Qed.

(** X11.  A constraint of several bunches with a negative bunch after the first
    cannot be looked up: the key of a single bunch is built as
    [vector<int>(bunch)], a vector of that many elements, and the
    constructor throws for a negative count.  So does a request for photons
    at the all-showers stage whose constraint is not indexed yet. *)
Theorem negative_later_bunch_throws (first : Z) (rest : list Z)
    (locShowersByBunch : gmap (list Z) (list JObject)) (locVertexZBin : Z) (s : Comboer) :
  (exists b, b ∈ rest /\ (b < 0)%Z) ->
  Get_ShowersByBeamBunch (first :: rest) locShowersByBunch = None /\
  (default ∅ (dShowersByBeamBunchByZBin s !! locVertexZBin) !! (first :: rest) = None ->
   Get_ParticlesForComboing Gamma d_MixedStage (first :: rest) locVertexZBin s = None).
Proof.
  intros Hneg. split.
  - unfold Get_ShowersByBeamBunch. rewrite union_loop_negative by exact Hneg. reflexivity.
  - intros Hnew. unfold Get_ParticlesForComboing. cbn [ParticleCharge].
    rewrite (bool_decide_eq_false_2 (0 <> 0)%Z) by (intros H; apply H; reflexivity).
    rewrite (bool_decide_eq_false_2 (Gamma <> Gamma)) by (intros H; apply H; reflexivity).
    rewrite (bool_decide_eq_false_2 (d_MixedStage = d_MixedStage_ZIndependent))
      by discriminate.
    rewrite (bool_decide_eq_false_2 (first :: rest = [])) by discriminate.
    unfold showers_find_or_build, subscript.
    destruct (dShowersByBeamBunchByZBin s !! locVertexZBin) as [byBunch|];
      simpl in Hnew.
    + rewrite Hnew. unfold Get_ShowersByBeamBunch.
      rewrite union_loop_negative by exact Hneg. reflexivity.
    + rewrite lookup_empty. unfold Get_ShowersByBeamBunch.
      rewrite union_loop_negative by exact Hneg. reflexivity.
Qed.

(** Bunches -2 and -1: the key for bunch -1 cannot be built. *)
Lemma negative_later_bunch_throws_witness :
  Get_ShowersByBeamBunch [(-2)%Z; (-1)%Z] showers_bin3 = None /\
  Get_ParticlesForComboing Gamma d_MixedStage [(-2)%Z; (-1)%Z] 3 event_two_bunches = None.
Proof.
  destruct (negative_later_bunch_throws (-2) [(-1)%Z] showers_bin3 3 event_two_bunches)
    as [H1 H2].
  - exists (-1)%Z. split; [apply elem_of_cons; left; reflexivity | reflexivity].
  - split; [exact H1 |]. apply H2. reflexivity.
Defined.

End Particles.

(** ** Building combos *)

Module Comboing.

(** [const DSourceCombo*] that may be [nullptr]: the address used as a map
    key. *)
Definition ptr_of (c : option DSourceCombo) : nat :=
  match c with
  | Some c => combo_addr c
  | None => 0
  end.

(** Which of the event's result tables a request reads and writes: the
    charged one, or the mixed one kept for a charged combo. *)
Inductive MemoSlot := Slot_Charged | Slot_Mixed (charged : nat).

(** Modelled from the spec: [Get_CombosSoFar] (declared in
    [DSourceComboer.h], not in the sources).  Results are memoized by use,
    stage and charged context: the charged stage and fully charged uses share
    [dSourceCombosByUse_Charged]; other uses go to
    [dMixedCombosByUseByChargedCombo], fully neutral ones under [nullptr]. *)
Definition Get_CombosSoFar (locComboingStage : ComboingStage_t)
    (locChargeContent_SearchForUse : Charge_t) (locChargedCombo : option DSourceCombo)
  : MemoSlot :=
  if bool_decide (locComboingStage = d_ChargedStage)
     || bool_decide (locChargeContent_SearchForUse = d_Charged)
  then Slot_Charged
  else if bool_decide (locChargeContent_SearchForUse = d_Neutral) then Slot_Mixed 0
  else Slot_Mixed (ptr_of locChargedCombo).

(** Modelled from the spec: [Get_SourceCombosByBeamBunchByUse] (same header):
    the by-bunch tables are kept per charged context, fully neutral uses under
    [nullptr]. *)
Definition Get_SourceCombosByBeamBunchByUse (locChargeContent_SearchForUse : Charge_t)
    (locChargedCombo : option DSourceCombo) : nat :=
  if bool_decide (locChargeContent_SearchForUse = d_Neutral) then 0
  else ptr_of locChargedCombo.

Definition slot_map (slot : MemoSlot) (s : Comboer) : gmap DSourceComboUse VecPtr :=
  match slot with
  | Slot_Charged => dSourceCombosByUse_Charged s
  | Slot_Mixed c => default ∅ (dMixedCombosByUseByChargedCombo s !! c)
  end.

Definition set_slot_map (slot : MemoSlot) (m : gmap DSourceComboUse VecPtr) (s : Comboer)
  : Comboer :=
  match slot with
  | Slot_Charged => set_dSourceCombosByUse_Charged m s
  | Slot_Mixed c =>
      set_dMixedCombosByUseByChargedCombo (<[c := m]> (dMixedCombosByUseByChargedCombo s)) s
  end.

(** [table.find(use) != table.end()] *)
Definition memo_contains (slot : MemoSlot) (u : DSourceComboUse) : M bool :=
  fun s => Some (match slot_map slot s !! u with Some _ => true | None => false end, s).

(** [table[use]]: a null pointer is inserted when the use is absent. *)
Definition memo_subscript (slot : MemoSlot) (u : DSourceComboUse) : M VecPtr :=
  fun s => let '(p, m) := subscript 0 u (slot_map slot s) in Some (p, set_slot_map slot m s).

(** [table.emplace(use, pointer)] *)
Definition memo_emplace (slot : MemoSlot) (u : DSourceComboUse) (p : VecPtr) : M unit :=
  fun s => Some (tt, set_slot_map slot (emplace u p (slot_map slot s)) s).

(** [table[use] = pointer] *)
Definition memo_assign (slot : MemoSlot) (u : DSourceComboUse) (p : VecPtr) : M unit :=
  fun s => Some (tt, set_slot_map slot (<[u := p]> (slot_map slot s)) s).

(** [dResourcePool_SourceComboVector.Get_Resource()]: a vector not in use,
    empty. *)
Definition Get_Resource_vector : M VecPtr :=
  fun s =>
    Some (dNextVector s,
          set_dNextVector (S (dNextVector s))
            (set_dVectors (<[dNextVector s := []]> (dVectors s)) s)).

(** [*pointer]: undefined for [nullptr]. *)
Definition vec_read (p : VecPtr) : M (list DSourceCombo) :=
  fun s =>
    if p =? 0 then None
    else match dVectors s !! p with
         | Some v => Some (v, s)
         | None => None
         end.

(** [pointer->push_back(combo)] *)
Definition vec_push_back (p : VecPtr) (c : DSourceCombo) : M unit :=
  do v <- vec_read p;
  fun s => Some (tt, set_dVectors (<[p := v ++ [c]]> (dVectors s)) s).

(** [pointer->assign(first, last)] *)
Definition vec_assign (p : VecPtr) (l : list DSourceCombo) : M unit :=
  do _ <- vec_read p;
  fun s => Some (tt, set_dVectors (<[p := l]> (dVectors s)) s).

(** [table.emplace(use, pool.Get_Resource()); table[use]->reserve(capacity);] *)
Definition initialize_results (slot : MemoSlot) (u : DSourceComboUse) : M unit :=
  do p <- Get_Resource_vector;
  do _ <- memo_emplace slot u p;
  do q <- memo_subscript slot u;
  do _ <- vec_read q;
  ret tt.

(** [dResourcePool_SourceCombo.Get_Resource()] followed by [Set_Members]. *)
Definition Get_Resource_combo (particles : list (Particle_t * JObject))
    (further : list (DSourceComboUse * list DSourceCombo)) (zindep : bool) : M DSourceCombo :=
  fun s => Some (MkCombo (dNextCombo s) particles further zindep,
                 set_dNextCombo (S (dNextCombo s)) s).

(** [info->...]: the content stored at a registered address. *)
Definition deref_info (p : InfoPtr) : M DSourceComboInfo :=
  fun s =>
    match List.find (fun o => Registry.info_addr o =? p)
                    (Registry.dSourceComboInfos (dRegistry s)) with
    | Some o => Some (Registry.info_content o, s)
    | None => None
    end.

(** [dComboInfoChargeContent[info]]: a missing entry is inserted with the
    value-initialised enumerator [d_Charged]. *)
Definition charge_content (p : InfoPtr) : M Charge_t :=
  fun s =>
    let r := dRegistry s in
    let '(c, m) := subscript d_Charged p (Registry.dComboInfoChargeContent r) in
    Some (c, set_dRegistry
               (Registry.MkRegistry (Registry.dSourceComboInfoSet r)
                  (Registry.dSourceComboInfos r) m
                  (Registry.dComboInfosWithMassiveNeutrals r) (Registry.next_info r)) s).

(** Modelled from the spec: [Get_HasMassiveNeutrals(info)] (same header):
    whether the info was recorded, when registered, as containing a massive
    neutral. *)
Definition Get_HasMassiveNeutrals (p : InfoPtr) : M bool :=
  fun s => Some (bool_decide (p ∈ Registry.dComboInfosWithMassiveNeutrals (dRegistry s)), s).

(** [dValidRFBunches_ByCombo[combo]] *)
Definition valid_bunches (c : DSourceCombo) : M (list Z) :=
  fun s =>
    let '(v, m) := subscript [] (combo_addr c) (dValidRFBunches_ByCombo s) in
    Some (v, set_dValidRFBunches_ByCombo m s).

Definition bybunch_get (k : nat) (u : DSourceComboUse) (s : Comboer)
  : gmap (list Z) (list DSourceCombo) :=
  default ∅ (default ∅ (dSourceCombosByBeamBunchByUse s !! k) !! u).

Definition bybunch_set (k : nat) (u : DSourceComboUse)
    (m : gmap (list Z) (list DSourceCombo)) (s : Comboer) : Comboer :=
  set_dSourceCombosByBeamBunchByUse
    (<[k := <[u := m]> (default ∅ (dSourceCombosByBeamBunchByUse s !! k))]>
       (dSourceCombosByBeamBunchByUse s)) s.

(** [dResumeSearchAfterIterators_Combos[(combo, zbin)].emplace(bunches, it)] *)
Definition resume_iterator_emplace (c : DSourceCombo) (z : Z) (bunches : list Z) (it : nat)
  : M unit :=
  fun s =>
    let key := (combo_addr c, z) in
    let inner := default ∅ (dResumeSearchAfterIterators_Combos s !! key) in
    Some (tt, set_dResumeSearchAfterIterators_Combos
                (<[key := emplace bunches it inner]> (dResumeSearchAfterIterators_Combos s)) s).

Section Comboing.

(** Declared outside the sources at hand, and taken as parameters: the info
    constructor, comparator and classifications (see [Registry]); of the
    time handler, the bunches valid for a shower in a bin and the bunches
    common to two sets; whether a shower combos independently of vertex-z;
    the invariant-mass cut; the charged combo comboed "with now"; the
    vertexer's z bin of a combo; the resume positions. *)
Variable DSourceComboInfo_ctor :
  list (Particle_t * nat) -> list (DSourceComboUse * nat) -> DSourceComboInfo.
Variable DCompare_SourceComboInfos : DSourceComboInfo -> DSourceComboInfo -> bool.
Variable Get_ChargeContent : DSourceComboInfo -> Charge_t.
Variable Get_HasMassiveNeutrals_info : DSourceComboInfo -> bool.
Variable Get_ValidRFBunches : JObject -> Z -> list Z.
Variable Get_CommonRFBunches : list Z -> list Z -> list Z.
Variable Get_IsComboingZIndependent : JObject -> Particle_t -> bool.
Variable Cut_InvariantMass_NoMassiveNeutrals : DSourceCombo -> Particle_t -> Z -> bool.
Variable Get_ChargedCombo_WithNow : option DSourceCombo -> option DSourceCombo.
Variable Get_VertexZBin : DSourceCombo -> Z.
Variable Get_ResumeAtIterator_Particles : Comboer -> DSourceCombo -> list Z -> nat.
Variable Get_ResumeAtIterator_Combos :
  Comboer -> DSourceCombo -> list Z -> ComboingStage_t -> Z -> nat.

(** The calls back into the top-level functions, which are the whole
    recursion of the comboer; a caller is modelled for any behaviour of the
    callee. *)
Variable Create_SourceCombos_Unknown :
  DSourceComboUse -> ComboingStage_t -> option DSourceCombo -> M unit.
Variable Create_SourceCombos_reentry :
  DSourceComboUse -> ComboingStage_t -> option DSourceCombo -> M unit.

(** [GetOrMake_SourceComboInfo] on the registry of the state. *)
Definition GetOrMake_SourceComboInfo (np : list (Particle_t * nat))
    (fd : list (DSourceComboUse * nat)) : M InfoPtr :=
  fun s =>
    match Registry.GetOrMake_SourceComboInfo DSourceComboInfo_ctor DCompare_SourceComboInfos
            Get_ChargeContent Get_HasMassiveNeutrals_info np fd (dRegistry s) with
    | Some (p, r) => Some (p, set_dRegistry r s)
    | None => None
    end.

(** The three-argument [Get_CommonRFBunches(bunches, shower, zbin)] of the
    time handler: the bunches common to [bunches] and those valid for the
    shower. *)
Definition Get_CommonRFBunches_shower (bunches : list Z) (shower : JObject) (z : Z) : list Z :=
  Get_CommonRFBunches bunches (Get_ValidRFBunches shower z).

(** [DSourceComboer::Register_ValidRFBunches] *)
Definition Register_ValidRFBunches (locSourceComboUse : DSourceComboUse)
    (locSourceCombo : DSourceCombo) (locRFBunches : list Z)
    (locComboingStage : ComboingStage_t) (locChargedCombo_WithNow : option DSourceCombo)
  : M unit :=
  let locComboInfo := use_info locSourceComboUse in
  do _ <- (fun s => Some (tt, set_dValidRFBunches_ByCombo
                        (emplace (combo_addr locSourceCombo) locRFBunches
                                 (dValidRFBunches_ByCombo s)) s));
  let locVertexZBin := use_vertex_zbin locSourceComboUse in
  do _ <- (if bool_decide (locComboingStage <> d_ChargedStage) then
             do content <- charge_content locComboInfo;
             let k := Get_SourceCombosByBeamBunchByUse content locChargedCombo_WithNow in
             for_each locRFBunches (fun locBeamBunch =>
               do n <- (fun s =>
                   let m := bybunch_get k locSourceComboUse s in
                   let locComboVector := fst (subscript [] [locBeamBunch] m) ++ [locSourceCombo] in
                   Some (length locComboVector,
                         bybunch_set k locSourceComboUse
                                     (<[ [locBeamBunch] := locComboVector ]> m) s));
               resume_iterator_emplace locSourceCombo locVertexZBin [locBeamBunch] (n - 1))
           else ret tt);
  if bool_decide (locRFBunches = []) then
    do content <- charge_content locComboInfo;
    do p <- memo_subscript
              (Get_CombosSoFar locComboingStage content locChargedCombo_WithNow)
              locSourceComboUse;
    do locComboVector <- vec_read p;
    match locComboVector with
    | [] => undefined                                  (* std::prev(end()) *)
    | _ => resume_iterator_emplace locSourceCombo locVertexZBin locRFBunches
                                   (length locComboVector - 1)
    end
  else ret tt.

(** [DSourceComboer::Copy_ZIndependentMixedResults] *)
Definition Copy_ZIndependentMixedResults (locComboUseToCreate : DSourceComboUse)
    (locChargedCombo_WithNow : option DSourceCombo) : M unit :=
  let locVertexZBin := use_vertex_zbin locComboUseToCreate in
  let locComboInfo := use_info locComboUseToCreate in
  do locChargeContent <- charge_content locComboInfo;
  let slot := Get_CombosSoFar d_MixedStage locChargeContent locChargedCombo_WithNow in
  let locComboUseFCAL :=
    MkUse (use_decay_pid locComboUseToCreate) Get_VertexZIndex_ZIndependent locComboInfo in
  do pF <- memo_subscript slot locComboUseFCAL;
  do locFCALComboVector <- vec_read pF;
  do pB <- memo_subscript slot locComboUseToCreate;
  do _ <- vec_assign pB locFCALComboVector;
  let k := Get_SourceCombosByBeamBunchByUse locChargeContent locChargedCombo_WithNow in
  do _ <- (fun s =>
      let locCombosByBeamBunch := bybunch_get k locComboUseFCAL s in
      let s1 := bybunch_set k locComboUseFCAL locCombosByBeamBunch s in
      let singles := filter (fun kv => length (fst kv) = 1) locCombosByBeamBunch in
      Some (tt, bybunch_set k locComboUseToCreate
                  (bybunch_get k locComboUseToCreate s1 ∪ singles) s1));
  do locBothComboVector <- vec_read pB;
  for_each (imap (fun i c => (i, c)) locBothComboVector) (fun ic =>
    do locRFBunches <- valid_bunches (snd ic);
    do _ <- for_each locRFBunches (fun locBeamBunch =>
              resume_iterator_emplace (snd ic) locVertexZBin [locBeamBunch] (fst ic));
    if bool_decide (locRFBunches = []) then
      resume_iterator_emplace (snd ic) locVertexZBin locRFBunches (fst ic)
    else ret tt).

(** The opening shared by the building functions:
    [if(stage == d_MixedStage) Copy_ZIndependentMixedResults(...);
     else { emplace; reserve; }] *)
Definition start_results (slot : MemoSlot) (locComboUseToCreate : DSourceComboUse)
    (locComboingStage : ComboingStage_t) (locChargedCombo_WithNow : option DSourceCombo)
  : M unit :=
  if bool_decide (locComboingStage = d_MixedStage)
  then Copy_ZIndependentMixedResults locComboUseToCreate locChargedCombo_WithNow
  else initialize_results slot locComboUseToCreate.

(** [table[use]->push_back(combo)] *)
Definition save_combo (slot : MemoSlot) (u : DSourceComboUse) (c : DSourceCombo) : M unit :=
  do p <- memo_subscript slot u;
  vec_push_back p c.

(** *** Vertical comboing of particles *)

(** The body of the inner loop of the size-2 branch. *)
Definition pair_body (locComboUseToCreate : DSourceComboUse) (locPID : Particle_t)
    (locComboingStage : ComboingStage_t) (locVertexZBin : Z) (slot : MemoSlot)
    (first : JObject) (locRFBunches_First : list Z) (second : JObject) : M unit :=
  let locIsZIndependent :=
    bool_decide (locComboingStage = d_MixedStage_ZIndependent)
    || (Get_IsComboingZIndependent first locPID && Get_IsComboingZIndependent second locPID) in
  if bool_decide (locComboingStage = d_MixedStage) && locIsZIndependent then ret tt
  else
    let locValidRFBunches :=
      if bool_decide (locPID <> Gamma) then []
      else Get_CommonRFBunches_shower locRFBunches_First second locVertexZBin in
    if bool_decide (locPID = Gamma) && bool_decide (locValidRFBunches = []) then ret tt
    else
      do locCombo <- Get_Resource_combo [(locPID, first); (locPID, second)] []
                                        locIsZIndependent;
      do _ <- save_combo slot locComboUseToCreate locCombo;
      do _ <- Register_ValidRFBunches locComboUseToCreate locCombo locValidRFBunches
                                      locComboingStage None;
      fun s => Some (tt, set_dResumeSearchAfterMap_Particles
                           (<[combo_addr locCombo := second]>
                              (dResumeSearchAfterMap_Particles s)) s).

(** The double loop: [first] runs up to, not including, the last particle;
    [second] from the one after [first] to the end. *)
Fixpoint pair_loop (locComboUseToCreate : DSourceComboUse) (locPID : Particle_t)
    (locComboingStage : ComboingStage_t) (locVertexZBin : Z) (slot : MemoSlot)
    (locParticles : list JObject) : M unit :=
  match locParticles with
  | [] => ret tt
  | first :: rest =>
      match rest with
      | [] => ret tt
      | _ =>
          let locRFBunches_First :=
            if bool_decide (locPID = Gamma)
            then Get_ValidRFBunches first locVertexZBin else [] in
          do _ <- for_each rest
                    (pair_body locComboUseToCreate locPID locComboingStage locVertexZBin
                               slot first locRFBunches_First);
          pair_loop locComboUseToCreate locPID locComboingStage locVertexZBin slot rest
      end
  end.

(** The body of the loops of the N > 2 branch, for one (N-1)-combo. *)
Definition extend_body (locComboUseToCreate : DSourceComboUse) (locPID : Particle_t)
    (locComboingStage : ComboingStage_t) (locVertexZBin : Z) (slot : MemoSlot)
    (locCombo_NMinus1 : DSourceCombo) : M unit :=
  do locValidRFBunches_NMinus1 <- valid_bunches locCombo_NMinus1;
  do locParticles <- Particles.Get_ParticlesForComboing locPID locComboingStage
                       locValidRFBunches_NMinus1 locVertexZBin;
  do s <- get_state;
  let locParticleSearchIterator :=
    Get_ResumeAtIterator_Particles s locCombo_NMinus1 locValidRFBunches_NMinus1 in
  if locParticleSearchIterator =? length locParticles then ret tt
  else
    let locIsZIndependent_NMinus1 := dIsComboingZIndependent locCombo_NMinus1 in
    for_each (drop locParticleSearchIterator locParticles) (fun particle =>
      let locIsZIndependent :=
        bool_decide (locComboingStage = d_MixedStage_ZIndependent)
        || (locIsZIndependent_NMinus1 && Get_IsComboingZIndependent particle locPID) in
      if bool_decide (locComboingStage = d_MixedStage) && locIsZIndependent then ret tt
      else
        let locValidRFBunches :=
          if bool_decide (locPID <> Gamma) then []
          else Get_CommonRFBunches_shower locValidRFBunches_NMinus1 particle locVertexZBin in
        let locComboParticlePairs :=
          Get_SourceParticles false locCombo_NMinus1 ++ [(locPID, particle)] in
        do locCombo <- Get_Resource_combo locComboParticlePairs [] locIsZIndependent;
        do _ <- save_combo slot locComboUseToCreate locCombo;
        do _ <- Register_ValidRFBunches locComboUseToCreate locCombo locValidRFBunches
                                        locComboingStage None;
        fun s => Some (tt, set_dResumeSearchAfterMap_Particles
                             (<[combo_addr locCombo := particle]>
                                (dResumeSearchAfterMap_Particles s)) s)).

(** [DSourceComboer::Combo_Vertically_NParticles] *)
Definition Combo_Vertically_NParticles (locComboUseToCreate locNMinus1ComboUse : DSourceComboUse)
    (locComboingStage : ComboingStage_t) : M unit :=
  do locComboInfo <- deref_info (use_info locComboUseToCreate);
  do locParticlePair <- of_option (list.last (dNumParticles locComboInfo));
  let locPID := fst locParticlePair in
  let locNumParticles := snd locParticlePair in
  let locVertexZBin := use_vertex_zbin locComboUseToCreate in
  let slot := Get_CombosSoFar locComboingStage d_Neutral None in
  do _ <- start_results slot locComboUseToCreate locComboingStage None;
  if locNumParticles =? 2 then
    do locParticles <- Particles.Get_ParticlesForComboing locPID locComboingStage []
                         locVertexZBin;
    match locParticles with
    | [] => undefined                                  (* std::prev(locParticles.end()) *)
    | _ => pair_loop locComboUseToCreate locPID locComboingStage locVertexZBin slot
                     locParticles
    end
  else
    do p <- memo_subscript slot locNMinus1ComboUse;
    do locCombos_NMinus1 <- vec_read p;
    for_each locCombos_NMinus1
      (extend_body locComboUseToCreate locPID locComboingStage locVertexZBin slot).

(** *** A single particle *)

(** The body of the loop of [Create_Combo_OneParticle]. *)
Definition one_body (locComboUseToCreate : DSourceComboUse) (locPID : Particle_t)
    (locComboingStage : ComboingStage_t) (locVertexZBin : Z) (slot : MemoSlot)
    (locParticle : JObject) : M unit :=
  let locIsZIndependent := Get_IsComboingZIndependent locParticle locPID in
  if bool_decide (locComboingStage = d_MixedStage) && locIsZIndependent then ret tt
  else
    do locCombo <- Get_Resource_combo [(locPID, locParticle)] [] locIsZIndependent;
    do _ <- save_combo slot locComboUseToCreate locCombo;
    if bool_decide (locPID = Gamma) then
      Register_ValidRFBunches locComboUseToCreate locCombo
        (Get_ValidRFBunches locParticle locVertexZBin) locComboingStage None
    else
      Register_ValidRFBunches locComboUseToCreate locCombo [] locComboingStage None.

(** [DSourceComboer::Create_Combo_OneParticle]; [front()] of an empty vector
    is undefined. *)
Definition Create_Combo_OneParticle (locComboUseToCreate : DSourceComboUse)
    (locComboingStage : ComboingStage_t) : M unit :=
  let slot := Get_CombosSoFar locComboingStage d_Neutral None in
  let locVertexZBin := use_vertex_zbin locComboUseToCreate in
  do locComboInfo <- deref_info (use_info locComboUseToCreate);
  do locParticlePair <- of_option (head (dNumParticles locComboInfo));
  do _ <- start_results slot locComboUseToCreate locComboingStage None;
  let locPID := fst locParticlePair in
  do locParticles <- Particles.Get_ParticlesForComboing locPID locComboingStage []
                       locVertexZBin;
  for_each locParticles
    (one_body locComboUseToCreate locPID locComboingStage locVertexZBin slot).

(** [locNumPIDNeeded - 1] stored back into an [unsigned char]. *)
Definition count_minus_1 (n : nat) : nat :=
  if n =? 0 then 255 else n - 1.

(** [DSourceComboer::Combo_Vertically_AllParticles]; [fuel] bounds the depth
    of the recursion on N - 1. *)
Fixpoint Combo_Vertically_AllParticles (fuel : nat) (locComboUseToCreate : DSourceComboUse)
    (locComboingStage : ComboingStage_t) : M unit :=
  match fuel with
  | O => undefined
  | S fuel' =>
      let locVertexZBin := use_vertex_zbin locComboUseToCreate in
      do locComboInfo <- deref_info (use_info locComboUseToCreate);
      let locNumParticlesNeeded := dNumParticles locComboInfo in
      let locFurtherDecays := dFurtherDecays locComboInfo in
      let slot := Get_CombosSoFar locComboingStage d_Neutral None in
      for_each locNumParticlesNeeded (fun locParticlePair =>
        let locPID := fst locParticlePair in
        let locNumPIDNeeded := snd locParticlePair in
        if locNumPIDNeeded =? 1 then ret tt
        else if bool_decide (locComboingStage = d_ChargedStage)
                && bool_decide (ParticleCharge locPID = 0%Z) then ret tt
        else
          do locNeededGroupingUse <-
            (if (1 <? length locNumParticlesNeeded)
                || negb (bool_decide (locFurtherDecays = []))
             then
               do locGroupingComboInfo <-
                 GetOrMake_SourceComboInfo [(locPID, locNumPIDNeeded)] [];
               ret (MkUse Unknown locVertexZBin locGroupingComboInfo)
             else ret locComboUseToCreate);
          do done <- memo_contains slot locNeededGroupingUse;
          if done then ret tt
          else if locNumPIDNeeded =? 2 then
            Combo_Vertically_NParticles locNeededGroupingUse (MkUse Unknown 0 0)
                                        locComboingStage
          else
            do locNMinus1Info <-
              GetOrMake_SourceComboInfo [(locPID, count_minus_1 locNumPIDNeeded)] [];
            let locNMinus1ComboUse := MkUse Unknown locVertexZBin locNMinus1Info in
            do found <- memo_contains slot locNMinus1ComboUse;
            do _ <- (if found   (* find(locNMinus1ComboUse) != end() *)
                     then Combo_Vertically_AllParticles fuel' locNMinus1ComboUse
                                                        locComboingStage
                     else ret tt);
            Combo_Vertically_NParticles locNeededGroupingUse locNMinus1ComboUse
                                        locComboingStage)
  end.

(** *** Vertical comboing of decays *)

(** The N-th combo of the vector whose vertex-z bin is the desired one
    (the counting loop at the end of [Get_Presiding_ChargedCombo]);
    [nullptr] when there is none. *)
Fixpoint nth_in_zbin (locDesiredVertexZBin : Z) (locInstance : nat) (locCount : nat)
    (v : list DSourceCombo) : option DSourceCombo :=
  match v with
  | [] => None
  | c :: v' =>
      if bool_decide (Get_VertexZBin c <> locDesiredVertexZBin)
      then nth_in_zbin locDesiredVertexZBin locInstance locCount v'
      else if S locCount =? locInstance then Some c
           else nth_in_zbin locDesiredVertexZBin locInstance (S locCount) v'
  end.

(** [DSourceComboer::Get_Presiding_ChargedCombo] *)
Definition Get_Presiding_ChargedCombo (locChargedCombo_Presiding : option DSourceCombo)
    (locNextComboUse : DSourceComboUse) (locComboingStage : ComboingStage_t)
    (locInstance : nat) : M (option DSourceCombo) :=
  if bool_decide (locComboingStage = d_ChargedStage) then ret None
  else
    match locChargedCombo_Presiding with
    | None => ret None
    | Some presiding =>
        do info <- deref_info (use_info locNextComboUse);
        if bool_decide (Get_ChargeContent info <> d_AllCharges) then ret None
        else
          let locFurtherDecayCombos := dFurtherDecayCombos presiding in
          do locUseToFind <-
            (if bool_decide (locComboingStage = d_MixedStage_ZIndependent)
             then ret locNextComboUse
             else fun s => match dZDependentUseToIndependentMap s !! locNextComboUse with
                           | Some u => Some (u, s)
                           | None => None      (* find(...)->second at end() *)
                           end);
          match small_find locUseToFind locFurtherDecayCombos with
          | None => ret (Some presiding)
          | Some locNextChargedComboVector =>
              if bool_decide (locComboingStage = d_MixedStage_ZIndependent) then
                (* [locInstance - 1] on a [size_t]: it wraps at 0, far out of
                   range *)
                if locInstance =? 0 then undefined
                else
                  match locNextChargedComboVector !! (locInstance - 1) with
                  | Some c => ret (Some c)
                  | None => undefined            (* operator[] out of range *)
                  end
              else
                ret (nth_in_zbin (use_vertex_zbin locNextComboUse) locInstance 0
                                 locNextChargedComboVector)
          end
    end.

(** [DSourceComboer::Get_CombosByBeamBunch], on the map passed by reference. *)
Fixpoint combo_union_loop (locBeamBunches : list Z) (rest : list Z)
    (locBunchesSoFar : list Z) (locCombosByBunch : gmap (list Z) (list DSourceCombo))
  : option (gmap (list Z) (list DSourceCombo)) :=
  match rest with
  | [] => Some locCombosByBunch
  | locBunch :: rest' =>
      let '(locComboShowers, m1) := subscript [] locBunchesSoFar locCombosByBunch in
      match vector_int_of_count locBunch with
      | None => None
      | Some key =>
          let '(locBunchShowers, m2) := subscript [] key m1 in
          let locBunchesSoFar' := locBunchesSoFar ++ [locBunch] in
          match locBunchShowers with
          | [] =>
              combo_union_loop locBeamBunches rest' locBunchesSoFar'
                               (emplace locBunchesSoFar' locComboShowers m2)
          | _ =>
              let locMergeResult := set_union combo_addr locComboShowers locBunchShowers in
              let m3 := emplace locBunchesSoFar' locMergeResult m2 in
              (* Build_ComboIterators(locBeamBunches, m3[locBeamBunches], ...) *)
              let m4 := snd (subscript [] locBeamBunches m3) in
              combo_union_loop locBeamBunches rest' locBunchesSoFar' m4
          end
      end
  end.

Definition Get_CombosByBeamBunch (locCombosByBunch : gmap (list Z) (list DSourceCombo))
    (locBeamBunches : list Z)
  : option (list DSourceCombo * gmap (list Z) (list DSourceCombo)) :=
  match locBeamBunches with
  | [] => None                      (* *locBeamBunches.begin() *)
  | first :: rest =>
      match combo_union_loop locBeamBunches rest [first] locCombosByBunch with
      | None => None
      | Some m => Some (subscript [] locBeamBunches m)
      end
  end.

(** [DSourceComboer::Get_CombosForComboing] *)
Definition Get_CombosForComboing (locComboUse : DSourceComboUse)
    (locComboingStage : ComboingStage_t) (locBeamBunches : list Z)
    (locChargedCombo_WithPrevious : option DSourceCombo) : M (list DSourceCombo) :=
  do locChargeContent <- charge_content (use_info locComboUse);
  if bool_decide (locBeamBunches = []) || bool_decide (locChargeContent = d_Charged) then
    do p <- memo_subscript
              (Get_CombosSoFar locComboingStage locChargeContent locChargedCombo_WithPrevious)
              locComboUse;
    vec_read p
  else
    let k := Get_SourceCombosByBeamBunchByUse locChargeContent locChargedCombo_WithPrevious in
    fun s =>
      let m := bybunch_get k locComboUse s in
      match m !! locBeamBunches with
      | Some v => Some (v, bybunch_set k locComboUse m s)
      | None =>
          match Get_CombosByBeamBunch m locBeamBunches with
          | None => None
          | Some (v, m') => Some (v, bybunch_set k locComboUse m' s)
          end
      end.

(** "TEST 2": does the candidate use a particle of the sorted vector? *)
Definition Search_Duplicates (locUsedParticles : list JObject) (candidate : DSourceCombo) : bool :=
  existsb (binary_search locUsedParticles)
          (Get_SourceParticles_objects (Get_SourceParticles true candidate) Unknown).

(** The body of the inner loop of [Combo_Vertically_NDecays]. *)
Definition decay_body (locComboUseToCreate locSourceComboDecayUse : DSourceComboUse)
    (locNIs2Flag : bool) (locComboingStage : ComboingStage_t) (slot : MemoSlot)
    (locChargedCombo_WithNow : option DSourceCombo)
    (locCombo_NMinus1 : DSourceCombo) (locValidRFBunches_NMinus1 : list Z)
    (locUsedParticles_NMinus1 : list JObject) (locDecayCombo_1 : DSourceCombo) : M unit :=
  let locIsZIndependent :=
    dIsComboingZIndependent locCombo_NMinus1 && dIsComboingZIndependent locDecayCombo_1 in
  if bool_decide (locComboingStage = d_MixedStage) && locIsZIndependent then ret tt
  else if Search_Duplicates locUsedParticles_NMinus1 locDecayCombo_1 then ret tt
  else
    do locValidRFBunches_1 <- valid_bunches locDecayCombo_1;
    let locValidRFBunches :=
      Get_CommonRFBunches locValidRFBunches_NMinus1 locValidRFBunches_1 in
    let locAllDecayCombos :=
      if locNIs2Flag then [locCombo_NMinus1; locDecayCombo_1]
      else default [] (small_find locSourceComboDecayUse
                                  (dFurtherDecayCombos locCombo_NMinus1))
           ++ [locDecayCombo_1] in
    do locCombo <- Get_Resource_combo [] [(locSourceComboDecayUse, locAllDecayCombos)]
                                      locIsZIndependent;
    do _ <- save_combo slot locComboUseToCreate locCombo;
    do _ <- Register_ValidRFBunches locComboUseToCreate locCombo locValidRFBunches
                                    locComboingStage locChargedCombo_WithNow;
    fun s => Some (tt, set_dResumeSearchAfterMap_Combos
                         (<[combo_addr locCombo := combo_addr locDecayCombo_1]>
                            (dResumeSearchAfterMap_Combos s)) s).

(** [DSourceComboer::Combo_Vertically_NDecays] *)
Definition Combo_Vertically_NDecays
    (locComboUseToCreate locNMinus1ComboUse locSourceComboDecayUse : DSourceComboUse)
    (locComboingStage : ComboingStage_t) (locChargedCombo_Presiding : option DSourceCombo)
  : M unit :=
  let locVertexZBin := use_vertex_zbin locComboUseToCreate in
  let locNIs2Flag := bool_decide (locNMinus1ComboUse = locSourceComboDecayUse) in
  do locChargeContent <- charge_content (use_info locComboUseToCreate);
  let locChargedCombo_WithNow := Get_ChargedCombo_WithNow locChargedCombo_Presiding in
  let slot := Get_CombosSoFar locComboingStage locChargeContent locChargedCombo_WithNow in
  do p <- memo_subscript slot locNMinus1ComboUse;
  do locCombos_NMinus1 <- vec_read p;
  match locCombos_NMinus1 with
  | [] => ret tt
  | front :: _ =>
      do _ <- start_results slot locComboUseToCreate locComboingStage
                            locChargedCombo_WithNow;
      let locInstance :=
        if locNIs2Flag then 2
        else length (default [] (small_find locSourceComboDecayUse
                                            (dFurtherDecayCombos front))) + 1 in
      do next <- Get_Presiding_ChargedCombo locChargedCombo_Presiding
                   locSourceComboDecayUse locComboingStage locInstance;
      let locChargedCombo_WithPrevious := Get_ChargedCombo_WithNow next in
      for_each locCombos_NMinus1 (fun locCombo_NMinus1 =>
        do locValidRFBunches_NMinus1 <- valid_bunches locCombo_NMinus1;
        do locDecayCombos_1 <- Get_CombosForComboing locSourceComboDecayUse
                                 locComboingStage locValidRFBunches_NMinus1
                                 locChargedCombo_WithPrevious;
        do s <- get_state;
        let locComboSearchIterator :=
          Get_ResumeAtIterator_Combos s locCombo_NMinus1 locValidRFBunches_NMinus1
                                      locComboingStage locVertexZBin in
        if locComboSearchIterator =? length locDecayCombos_1 then ret tt
        else
          let locUsedParticles_NMinus1 :=
            Get_SourceParticles_objects (Get_SourceParticles true locCombo_NMinus1)
                                        Unknown in
          for_each (drop locComboSearchIterator locDecayCombos_1)
            (decay_body locComboUseToCreate locSourceComboDecayUse locNIs2Flag
                        locComboingStage slot locChargedCombo_WithNow
                        locCombo_NMinus1 locValidRFBunches_NMinus1
                        locUsedParticles_NMinus1))
  end.

(** [DSourceComboer::Combo_Vertically_AllDecays]; [fuel] bounds the depth of
    the recursion on N - 1. *)
Fixpoint Combo_Vertically_AllDecays (fuel : nat) (locComboUseToCreate : DSourceComboUse)
    (locComboingStage : ComboingStage_t) (locChargedCombo_Presiding : option DSourceCombo)
  : M unit :=
  match fuel with
  | O => undefined
  | S fuel' =>
      let locChargedCombo_WithNow := Get_ChargedCombo_WithNow locChargedCombo_Presiding in
      let locComboInfo := use_info locComboUseToCreate in
      do content <- charge_content locComboInfo;
      let slot := Get_CombosSoFar locComboingStage content locChargedCombo_WithNow in
      let locVertexZBin := use_vertex_zbin locComboUseToCreate in
      do info <- deref_info locComboInfo;
      let locNumParticlesNeeded := dNumParticles info in
      let locFurtherDecays := dFurtherDecays info in
      for_each locFurtherDecays (fun locFurtherDecayPair =>
        let locSourceComboDecayUse := fst locFurtherDecayPair in
        let locNumDecaysNeeded := snd locFurtherDecayPair in
        do locDecayChargeContent <- charge_content (use_info locSourceComboDecayUse);
        if bool_decide (locComboingStage = d_ChargedStage)
           && bool_decide (locDecayChargeContent = d_Neutral) then ret tt
        else if locNumDecaysNeeded =? 1 then
          if bool_decide (locComboingStage <> d_ChargedStage)
             && bool_decide (locDecayChargeContent = d_Charged) then ret tt
          else
            do found <- memo_contains slot locSourceComboDecayUse;
            if found    (* find(locSourceComboDecayUse) != end() *)
            then
              do locChargedCombo_NextPresiding <-
                Get_Presiding_ChargedCombo locChargedCombo_Presiding
                                           locSourceComboDecayUse locComboingStage 1;
              Create_SourceCombos_reentry locSourceComboDecayUse locComboingStage
                                          locChargedCombo_NextPresiding
            else ret tt
        else
          do locNeededGroupingUse <-
            (if (1 <? length locFurtherDecays)
                || negb (bool_decide (locNumParticlesNeeded = []))
             then
               do locGroupingComboInfo <-
                 GetOrMake_SourceComboInfo [] [(locSourceComboDecayUse, locNumDecaysNeeded)];
               ret (MkUse Unknown locVertexZBin locGroupingComboInfo)
             else ret locComboUseToCreate);
          do done <- memo_contains slot locNeededGroupingUse;
          if done then ret tt
          else
            do locNMinus1ComboUse <-
              (if 2 <? locNumDecaysNeeded then
                 do locNMinus1Info <-
                   GetOrMake_SourceComboInfo []
                     [(locSourceComboDecayUse, count_minus_1 locNumDecaysNeeded)];
                 ret (MkUse Unknown locVertexZBin locNMinus1Info)
               else ret locSourceComboDecayUse);
            do found <- memo_contains slot locNMinus1ComboUse;
            do _ <- (if negb found   (* find(locNMinus1ComboUse) == end() *)
                     then Combo_Vertically_AllDecays fuel' locNMinus1ComboUse
                                                     locComboingStage locChargedCombo_WithNow
                     else ret tt);
            Combo_Vertically_NDecays locNeededGroupingUse locNMinus1ComboUse
                                     locSourceComboDecayUse locComboingStage
                                     locChargedCombo_WithNow)
  end.

(** *** Horizontal comboing *)

(** [std::binary_search] for a pair in a sorted vector of pairs. *)
Definition binary_search_pair {A} `{EqDecision A} (v : list (A * nat)) (x : A * nat) : bool :=
  existsb (fun y => bool_decide (y = x)) v.

(** [DSourceComboer::Get_PromoteFlag] *)
Definition Get_PromoteFlag (locDecayPID_UseToCheck : Particle_t)
    (locComboInfo_UseToCreate locComboInfo_UseToCheck : InfoPtr) : M bool :=
  if bool_decide (locDecayPID_UseToCheck <> Unknown) then ret false
  else
    do check <- deref_info locComboInfo_UseToCheck;
    match dFurtherDecays check with
    | front :: _ =>
        do create <- deref_info locComboInfo_UseToCreate;
        ret (binary_search_pair (dFurtherDecays create) front)
    | [] =>
        do create <- deref_info locComboInfo_UseToCreate;
        match dNumParticles check with
        | front :: _ => ret (binary_search_pair (dNumParticles create) front)
        | [] => undefined                          (* front() of an empty vector *)
        end
    end.

(** The members [Combo_Horizontally_AddCombo] gives the new combo made of an
    all-but-1 combo and a combo to add, in its four structural branches. *)
Definition merged_members (locExpandAllBut1Flag locPromoteToAddFlag locPromoteAllBut1Flag : bool)
    (locAllBut1ComboUse locSourceComboUseToAdd : DSourceComboUse)
    (locCombo_AllBut1 locDecayCombo_ToAdd : DSourceCombo)
  : list (Particle_t * JObject) * list (DSourceComboUse * list DSourceCombo) :=
  let locFurtherDecayCombos_AllBut1 := dFurtherDecayCombos locCombo_AllBut1 in
  let locComboParticles_AllBut1 := Get_SourceParticles false locCombo_AllBut1 in
  if locExpandAllBut1Flag then
    if locPromoteToAddFlag then
      (locComboParticles_AllBut1 ++ Get_SourceParticles false locDecayCombo_ToAdd,
       small_insert_range (dFurtherDecayCombos locDecayCombo_ToAdd)
                          locFurtherDecayCombos_AllBut1)
    else
      (locComboParticles_AllBut1,
       small_emplace locSourceComboUseToAdd [locDecayCombo_ToAdd]
                     locFurtherDecayCombos_AllBut1)
  else
    let locUsedParticlePairs_ToAdd := Get_SourceParticles false locDecayCombo_ToAdd in
    let locFurtherDecayCombos_ToAdd := dFurtherDecayCombos locDecayCombo_ToAdd in
    if locPromoteAllBut1Flag then
      (locUsedParticlePairs_ToAdd ++ locComboParticles_AllBut1,
       small_insert_range locFurtherDecayCombos_AllBut1 locFurtherDecayCombos_ToAdd)
    else if locPromoteToAddFlag then
      (locComboParticles_AllBut1 ++ locUsedParticlePairs_ToAdd,
       small_insert_range locFurtherDecayCombos_ToAdd locFurtherDecayCombos_AllBut1)
    else
      ([],
       small_emplace locSourceComboUseToAdd [locDecayCombo_ToAdd]
                     (small_emplace locAllBut1ComboUse [locCombo_AllBut1] [])).

(** [locCombos_AllBut1]: the vector of the table, or the local vector holding
    the charged combo "with now". *)
Definition read_AllBut1 (locGetFromSoFarFlag : bool) (slot : MemoSlot)
    (locAllBut1ComboUse : DSourceComboUse) (locChargedCombo_WithNow : option DSourceCombo)
  : M (VecPtr + list DSourceCombo) :=
  if locGetFromSoFarFlag then
    do p <- memo_subscript slot locAllBut1ComboUse; ret (inl p)
  else
    match locChargedCombo_WithNow with
    | Some c => ret (inr [c])
    | None => undefined     (* a vector holding nullptr, dereferenced by every use below *)
    end.

Definition deref_AllBut1 (v : VecPtr + list DSourceCombo) : M (list DSourceCombo) :=
  match v with
  | inl p => vec_read p
  | inr l => ret l
  end.

(** [DSourceComboer::Combo_Horizontally_AddCombo] *)
Definition Combo_Horizontally_AddCombo
    (locComboUseToCreate locAllBut1ComboUse locSourceComboUseToAdd : DSourceComboUse)
    (locComboingStage : ComboingStage_t) (locChargedCombo_Presiding : option DSourceCombo)
    (locExpandAllBut1Flag : bool) : M unit :=
  let locComboInfo_AllBut1 := use_info locAllBut1ComboUse in
  do locChargeContent_AllBut1 <- charge_content locComboInfo_AllBut1;
  let locChargedCombo_WithNow := Get_ChargedCombo_WithNow locChargedCombo_Presiding in
  do content_ToCreate <- charge_content (use_info locComboUseToCreate);
  let saveTo := Get_CombosSoFar locComboingStage content_ToCreate locChargedCombo_WithNow in
  let locGetFromSoFarFlag :=
    bool_decide (locComboingStage = d_ChargedStage)
    || bool_decide (locChargeContent_AllBut1 <> d_Charged) in
  let soFar := Get_CombosSoFar locComboingStage locChargeContent_AllBut1
                               locChargedCombo_WithNow in
  do locCombos_AllBut1 <- read_AllBut1 locGetFromSoFarFlag soFar locAllBut1ComboUse
                                       locChargedCombo_WithNow;
  do locChargeContent <- charge_content (use_info locSourceComboUseToAdd);
  if bool_decide (locComboingStage = d_ChargedStage)
     && bool_decide (locChargeContent = d_Neutral)
  then
    match locCombos_AllBut1 with
    | inl p => memo_emplace saveTo locComboUseToCreate p
    | inr _ => undefined
    end
  else
    do _ <- start_results saveTo locComboUseToCreate locComboingStage
                          locChargedCombo_WithNow;
    let locDecayPID_UseToAdd := use_decay_pid locSourceComboUseToAdd in
    let locComboInfo_UseToAdd := use_info locSourceComboUseToAdd in
    do all_but_1 <- deref_AllBut1 locCombos_AllBut1;
    do _ <- (if bool_decide (locComboingStage <> d_ChargedStage)
                && bool_decide (locChargeContent = d_Charged)
             then
               for_each all_but_1 (fun locCombo_AllBut1 =>
                 let locIsZIndependent := dIsComboingZIndependent locCombo_AllBut1 in
                 if bool_decide (locComboingStage = d_MixedStage) && locIsZIndependent
                 then ret tt
                 else
                   do locValidRFBunches <- valid_bunches locCombo_AllBut1;
                   (* the source stores [locChargedCombo_WithNow] as a member even
                      when it is nullptr; a combo with a null member is outside
                      the model *)
                   do charged <- of_option locChargedCombo_WithNow;
                   let members :=
                     if locExpandAllBut1Flag then
                       (Get_SourceParticles false locCombo_AllBut1,
                        small_emplace locSourceComboUseToAdd [charged]
                                      (dFurtherDecayCombos locCombo_AllBut1))
                     else
                       ([], small_emplace locSourceComboUseToAdd [charged]
                              (small_emplace locAllBut1ComboUse [locCombo_AllBut1] [])) in
                   do locCombo <- Get_Resource_combo (fst members) (snd members)
                                                     locIsZIndependent;
                   do _ <- save_combo saveTo locComboUseToCreate locCombo;
                   Register_ValidRFBunches locComboUseToCreate locCombo locValidRFBunches
                                           locComboingStage locChargedCombo_WithNow)
             else ret tt);
    let locComboInfo_UseToCreate := use_info locComboUseToCreate in
    do locPromoteToAddFlag <-
      Get_PromoteFlag locDecayPID_UseToAdd locComboInfo_UseToCreate locComboInfo_UseToAdd;
    do locPromoteAllBut1Flag <-
      Get_PromoteFlag (use_decay_pid locAllBut1ComboUse) locComboInfo_UseToCreate
                      locComboInfo_AllBut1;
    do next <- Get_Presiding_ChargedCombo locChargedCombo_Presiding locSourceComboUseToAdd
                                          locComboingStage 1;
    let locChargedCombo_WithPrevious := Get_ChargedCombo_WithNow next in
    for_each all_but_1 (fun locCombo_AllBut1 =>
      do locValidRFBunches_AllBut1 <- valid_bunches locCombo_AllBut1;
      do locDecayCombos_ToAdd <- Get_CombosForComboing locSourceComboUseToAdd
                                   locComboingStage locValidRFBunches_AllBut1
                                   locChargedCombo_WithPrevious;
      let locUsedParticles_AllBut1 :=
        Get_SourceParticles_objects (Get_SourceParticles true locCombo_AllBut1) Unknown in
      let locIsZIndependent_AllBut1 := dIsComboingZIndependent locCombo_AllBut1 in
      for_each locDecayCombos_ToAdd (fun locDecayCombo_ToAdd =>
        let locIsZIndependent :=
          locIsZIndependent_AllBut1 && dIsComboingZIndependent locDecayCombo_ToAdd in
        if bool_decide (locComboingStage = d_MixedStage) && locIsZIndependent then ret tt
        else if Search_Duplicates locUsedParticles_AllBut1 locDecayCombo_ToAdd then ret tt
        else
          do locValidRFBunches <-
            (if bool_decide (locComboingStage <> d_ChargedStage) then
               do rf <- valid_bunches locDecayCombo_ToAdd;
               ret (Get_CommonRFBunches locValidRFBunches_AllBut1 rf)
             else ret []);
          let members :=
            merged_members locExpandAllBut1Flag locPromoteToAddFlag locPromoteAllBut1Flag
                           locAllBut1ComboUse locSourceComboUseToAdd
                           locCombo_AllBut1 locDecayCombo_ToAdd in
          do locCombo <- Get_Resource_combo (fst members) (snd members) locIsZIndependent;
          do _ <- save_combo saveTo locComboUseToCreate locCombo;
          Register_ValidRFBunches locComboUseToCreate locCombo locValidRFBunches
                                  locComboingStage locChargedCombo_WithNow)).

(** [DSourceComboer::Combo_Horizontally_AddParticle] *)
Definition Combo_Horizontally_AddParticle
    (locComboUseToCreate locAllBut1ComboUse : DSourceComboUse) (locPID : Particle_t)
    (locComboingStage : ComboingStage_t) (locChargedCombo_Presiding : option DSourceCombo)
  : M unit :=
  let slot := Get_CombosSoFar locComboingStage d_Neutral None in
  let locChargedCombo_WithNow := Get_ChargedCombo_WithNow locChargedCombo_Presiding in
  do locChargeContent_AllBut1 <- charge_content (use_info locAllBut1ComboUse);
  let locGetFromSoFarFlag :=
    bool_decide (locComboingStage = d_ChargedStage)
    || bool_decide (locChargeContent_AllBut1 <> d_Charged) in
  do locCombos_AllBut1 <- read_AllBut1 locGetFromSoFarFlag slot locAllBut1ComboUse
                                       locChargedCombo_WithNow;
  if bool_decide (locComboingStage = d_ChargedStage)
     && bool_decide (ParticleCharge locPID = 0%Z)
  then
    match locCombos_AllBut1 with
    | inl p => memo_assign slot locComboUseToCreate p
    | inr _ => undefined
    end
  else
    do _ <- start_results slot locComboUseToCreate locComboingStage None;
    let locVertexZBin := use_vertex_zbin locComboUseToCreate in
    do all_but_1 <- deref_AllBut1 locCombos_AllBut1;
    for_each all_but_1 (fun locCombo_AllBut1 =>
      let locUsedParticlePairs_AllBut1 := Get_SourceParticles true locCombo_AllBut1 in
      let locUsedParticles_AllBut1 :=
        Get_SourceParticles_objects locUsedParticlePairs_AllBut1 locPID in
      let locFurtherDecays := dFurtherDecayCombos locCombo_AllBut1 in
      let locIsZIndependent_AllBut1 := dIsComboingZIndependent locCombo_AllBut1 in
      do locValidRFBunches_AllBut1 <- valid_bunches locCombo_AllBut1;
      do locParticles <- Particles.Get_ParticlesForComboing locPID locComboingStage
                           locValidRFBunches_AllBut1 locVertexZBin;
      for_each locParticles (fun locParticle =>
        let locIsZIndependent :=
          bool_decide (locComboingStage = d_MixedStage_ZIndependent)
          || (locIsZIndependent_AllBut1 && Get_IsComboingZIndependent locParticle locPID) in
        if bool_decide (locComboingStage = d_MixedStage) && locIsZIndependent then ret tt
        else if binary_search locUsedParticles_AllBut1 locParticle then ret tt
        else
          let locValidRFBunches :=
            if bool_decide (locPID <> Gamma) then locValidRFBunches_AllBut1
            else Get_CommonRFBunches_shower locValidRFBunches_AllBut1 locParticle
                                            locVertexZBin in
          let locComboParticles := locUsedParticlePairs_AllBut1 ++ [(locPID, locParticle)] in
          do locCombo <- Get_Resource_combo locComboParticles locFurtherDecays
                                            locIsZIndependent;
          do _ <- save_combo slot locComboUseToCreate locCombo;
          Register_ValidRFBunches locComboUseToCreate locCombo locValidRFBunches
                                  locComboingStage None)).

(** *** The top-level function *)

(** [byBunch[use][bunches].push_back(combo)] *)
Definition bybunch_push (k : nat) (u : DSourceComboUse) (bunches : list Z) (c : DSourceCombo)
  : M unit :=
  fun s =>
    let m := bybunch_get k u s in
    Some (tt, bybunch_set k u (<[bunches := default [] (m !! bunches) ++ [c]]> m) s).

(** [vector.begin() + n]: defined up to [end()]. *)
Definition from_position {A} (n : nat) (v : list A) : M (list A) :=
  if length v <? n then undefined else ret (drop n v).

(** The branch of [Create_SourceCombos] for the all-showers stage when the
    vertex-z bin is unknown: the z-dependent results are appended without a
    cut. *)
Definition append_uncut (slot : MemoSlot) (k : nat)
    (locComboUseToCreate locUnknownComboUse : DSourceComboUse) (locSourceCombos : VecPtr)
  : M unit :=
  let locComboUseFCAL :=
    MkUse Unknown Get_VertexZIndex_ZIndependent (use_info locComboUseToCreate) in
  do pF <- memo_subscript slot locComboUseFCAL;
  do locFCALComboVector <- vec_read pF;
  do pB <- memo_subscript slot locComboUseToCreate;
  do locBothComboVector <- vec_read pB;
  do source <- vec_read locSourceCombos;
  do new_ones <- from_position (length locFCALComboVector) source;
  do _ <- vec_assign pB (locBothComboVector ++ new_ones);
  do s <- get_state;
  for_each (map_to_list (bybunch_get k locUnknownComboUse s)) (fun kv =>
    let locRFBunches := fst kv in
    let locUnknownBunchCombos := snd kv in
    do fcal <- (fun s =>
        let m := bybunch_get k locComboUseFCAL s in
        let '(v, m') := subscript [] locRFBunches m in
        Some (v, bybunch_set k locComboUseFCAL m' s));
    do new_ones <- from_position (length fcal) locUnknownBunchCombos;
    fun s =>
      let m := bybunch_get k locComboUseToCreate s in
      Some (tt, bybunch_set k locComboUseToCreate
                  (<[locRFBunches := default [] (m !! locRFBunches) ++ new_ones]> m) s)).

(** The loop that places the invariant-mass cut and saves the survivors. *)
Definition cut_and_save (slot : MemoSlot) (k : nat) (locComboUseToCreate : DSourceComboUse)
    (locComboingStage : ComboingStage_t) (locSourceCombo : DSourceCombo) : M unit :=
  if negb (Cut_InvariantMass_NoMassiveNeutrals locSourceCombo
             (use_decay_pid locComboUseToCreate) (use_vertex_zbin locComboUseToCreate))
  then ret tt
  else
    do _ <- save_combo slot locComboUseToCreate locSourceCombo;
    if bool_decide (locComboingStage = d_ChargedStage) then ret tt
    else
      do locBeamBunches <- valid_bunches locSourceCombo;
      do _ <- for_each locBeamBunches (fun locBeamBunch =>
                bybunch_push k locComboUseToCreate [locBeamBunch] locSourceCombo);
      if bool_decide (locBeamBunches = [])
      then bybunch_push k locComboUseToCreate locBeamBunches locSourceCombo
      else ret tt.

(** [DSourceComboer::Create_SourceCombos] *)
Definition Create_SourceCombos (locComboUseToCreate : DSourceComboUse)
    (locComboingStage : ComboingStage_t) (locChargedCombo_Presiding : option DSourceCombo)
  : M unit :=
  let locDecayPID := use_decay_pid locComboUseToCreate in
  let locVertexZBin := use_vertex_zbin locComboUseToCreate in
  let locSourceComboInfo := use_info locComboUseToCreate in
  let locUnknownComboUse := MkUse Unknown locVertexZBin locSourceComboInfo in
  do _ <- Create_SourceCombos_Unknown locUnknownComboUse locComboingStage
                                      locChargedCombo_Presiding;
  if bool_decide (locDecayPID = Unknown) then ret tt
  else
    let locChargedCombo_WithNow := Get_ChargedCombo_WithNow locChargedCombo_Presiding in
    do locInfoChargeContent <- charge_content locSourceComboInfo;
    let slot := Get_CombosSoFar locComboingStage locInfoChargeContent
                                locChargedCombo_WithNow in
    do locSourceCombos <- memo_subscript slot locUnknownComboUse;
    if bool_decide (locComboingStage = d_ChargedStage)
       && bool_decide (locInfoChargeContent <> d_Charged)
    then memo_emplace slot locComboUseToCreate locSourceCombos
    else
      let k := Get_SourceCombosByBeamBunchByUse locInfoChargeContent
                                                locChargedCombo_WithNow in
      do _ <- (if bool_decide (locComboingStage <> d_ChargedStage)
               then fun s => Some (tt, bybunch_set k locComboUseToCreate
                                         (bybunch_get k locComboUseToCreate s) s)
               else ret tt);
      do massive <- Get_HasMassiveNeutrals locSourceComboInfo;
      if massive then
        do _ <- memo_emplace slot locComboUseToCreate locSourceCombos;
        if bool_decide (locComboingStage = d_ChargedStage)
        then undefined            (* the by-bunch table pointer is nullptr *)
        else fun s =>
               let unknown := bybunch_get k locUnknownComboUse s in
               Some (tt, bybunch_set k locComboUseToCreate unknown
                           (bybunch_set k locUnknownComboUse unknown s))
      else
        do _ <- start_results slot locComboUseToCreate locComboingStage
                              locChargedCombo_WithNow;
        if bool_decide (locComboingStage = d_MixedStage)
           && bool_decide (locVertexZBin = Get_VertexZIndex_Unknown)
        then append_uncut slot k locComboUseToCreate locUnknownComboUse locSourceCombos
        else
          do _ <- initialize_results slot locComboUseToCreate;
          do combos <- vec_read locSourceCombos;
          for_each combos (cut_and_save slot k locComboUseToCreate locComboingStage).


(** *** The orchestration: vertically, then horizontally *)

(** A loop of [Combo_Horizontally_All] over the entries of a vector:
    [body i x subset] gives [None] when the function returns from inside the
    loop, and otherwise the value of [locComboUse_SubsetToBuild] the next
    iteration starts with. *)
Fixpoint search_loop {A} (i : nat) (l : list A)
    (body : nat -> A -> DSourceComboUse -> M (option DSourceComboUse))
    (locComboUse_SubsetToBuild : DSourceComboUse) : M (option DSourceComboUse) :=
  match l with
  | [] => ret (Some locComboUse_SubsetToBuild)
  | x :: l' =>
      do r <- body i x locComboUse_SubsetToBuild;
      match r with
      | None => ret None
      | Some subset => search_loop (S i) l' body subset
      end
  end.

(** [(info->Get_NumParticles().size() + info->Get_FurtherDecays().size()) > 1] *)
Definition expand_flag (p : InfoPtr) : M bool :=
  do info <- deref_info p;
  ret (1 <? length (dNumParticles info) + length (dFurtherDecays info)).

(** "just copy the all-but-1 as the desired combos":
    [auto& v = table[all-but-1]; table.emplace(use, v);] *)
Definition copy_AllBut1 (slot : MemoSlot)
    (locComboUseToCreate locAllBut1ComboUse : DSourceComboUse) : M unit :=
  do locAllBut1Combos <- memo_subscript slot locAllBut1ComboUse;
  memo_emplace slot locComboUseToCreate locAllBut1Combos.

(** The body of the loop over the further decays. *)
Definition without_decay_body (locComboUseToCreate : DSourceComboUse)
    (locComboingStage : ComboingStage_t) (locChargedCombo_WithNow : option DSourceCombo)
    (locNumParticlesNeeded : list (Particle_t * nat))
    (locFurtherDecays : list (DSourceComboUse * nat))
    (i : nat) (locDecay : DSourceComboUse * nat) (subset : DSourceComboUse)
  : M (option DSourceComboUse) :=
  let locVertexZBin := use_vertex_zbin locComboUseToCreate in
  let locSourceComboUse_ThisDecay := fst locDecay in
  do locChargeContent_ThisDecay <- charge_content (use_info locSourceComboUse_ThisDecay);
  let locFurtherDecaysToSearchFor := delete i locFurtherDecays in
  do locAllBut1ComboInfo <-
    GetOrMake_SourceComboInfo locNumParticlesNeeded locFurtherDecaysToSearchFor;
  let locAllBut1ComboUse := MkUse Unknown locVertexZBin locAllBut1ComboInfo in
  do locAllBut1ChargeContent <- charge_content locAllBut1ComboInfo;
  if bool_decide (locComboingStage = d_ChargedStage)
     && bool_decide (locAllBut1ChargeContent = d_Neutral)
  then ret (Some subset)
  else if bool_decide (locComboingStage <> d_ChargedStage)
          && bool_decide (locAllBut1ChargeContent = d_Charged)
  then
    do _ <- Combo_Horizontally_AddCombo locComboUseToCreate locAllBut1ComboUse
              locSourceComboUse_ThisDecay locComboingStage locChargedCombo_WithNow false;
    ret None
  else
    do content <- charge_content locAllBut1ComboInfo;
    let slot := Get_CombosSoFar locComboingStage content locChargedCombo_WithNow in
    do found <- memo_contains slot locAllBut1ComboUse;
    if negb found then ret (Some (if i =? 0 then locAllBut1ComboUse else subset))
    else if bool_decide (locComboingStage = d_ChargedStage)
            && bool_decide (locChargeContent_ThisDecay = d_Neutral)
    then
      do _ <- copy_AllBut1 slot locComboUseToCreate locAllBut1ComboUse;
      ret None
    else
      do locExpandAllBut1Flag <- expand_flag locAllBut1ComboInfo;
      do _ <- Combo_Horizontally_AddCombo locComboUseToCreate locAllBut1ComboUse
                locSourceComboUse_ThisDecay locComboingStage locChargedCombo_WithNow
                locExpandAllBut1Flag;
      ret None.

(** The body of the loop over the detected particles. *)
Definition without_particle_body (locComboUseToCreate : DSourceComboUse)
    (locComboingStage : ComboingStage_t) (locChargedCombo_WithNow : option DSourceCombo)
    (locNumParticlesNeeded : list (Particle_t * nat))
    (locFurtherDecays : list (DSourceComboUse * nat))
    (i : nat) (locParticlePair : Particle_t * nat) (subset : DSourceComboUse)
  : M (option DSourceComboUse) :=
  let locVertexZBin := use_vertex_zbin locComboUseToCreate in
  let locNumParticlesToSearchFor := delete i locNumParticlesNeeded in
  do locAllBut1ComboInfo <-
    GetOrMake_SourceComboInfo locNumParticlesToSearchFor locFurtherDecays;
  do not_yet <-
    (if bool_decide (locComboingStage = d_ChargedStage) then
       do content <- charge_content locAllBut1ComboInfo;
       ret (bool_decide (content = d_Neutral))
     else ret false);
  if not_yet then ret (Some subset)
  else
    let locAllBut1ComboUse := MkUse Unknown locVertexZBin locAllBut1ComboInfo in
    let slot := Get_CombosSoFar locComboingStage d_Neutral None in
    do found <- memo_contains slot locAllBut1ComboUse;
    if negb found then
      ret (Some (if (i =? 0) && bool_decide (locFurtherDecays = [])
                 then locAllBut1ComboUse else subset))
    else if bool_decide (locComboingStage = d_ChargedStage)
            && bool_decide (ParticleCharge (fst locParticlePair) = 0%Z)
    then
      do _ <- copy_AllBut1 slot locComboUseToCreate locAllBut1ComboUse;
      ret None
    else if 1 <? snd locParticlePair then
      do locSourceInfo_NParticles <- GetOrMake_SourceComboInfo [locParticlePair] [];
      let locSourceComboUse_NParticles :=
        MkUse Unknown locVertexZBin locSourceInfo_NParticles in
      do locExpandAllBut1Flag <- expand_flag locAllBut1ComboInfo;
      do _ <- Combo_Horizontally_AddCombo locComboUseToCreate locAllBut1ComboUse
                locSourceComboUse_NParticles locComboingStage locChargedCombo_WithNow
                locExpandAllBut1Flag;
      ret None
    else
      do _ <- Combo_Horizontally_AddParticle locComboUseToCreate locAllBut1ComboUse
                (fst locParticlePair) locComboingStage locChargedCombo_WithNow;
      ret None.

(** [DSourceComboer::Combo_Horizontally_All]; [fuel] bounds the depth of the
    recursion on the subset to build.  [front()] of an empty vector is
    undefined. *)
Fixpoint Combo_Horizontally_All (fuel : nat) (locComboUseToCreate : DSourceComboUse)
    (locComboingStage : ComboingStage_t) (locChargedCombo_Presiding : option DSourceCombo)
  : M unit :=
  match fuel with
  | O => undefined
  | S fuel' =>
      let locVertexZBin := use_vertex_zbin locComboUseToCreate in
      let locComboInfoToCreate := use_info locComboUseToCreate in
      do info <- deref_info locComboInfoToCreate;
      let locNumParticlesNeeded := dNumParticles info in
      let locFurtherDecays := dFurtherDecays info in
      if bool_decide (locNumParticlesNeeded = []) && (length locFurtherDecays =? 1)
      then ret tt
      else if bool_decide (locFurtherDecays = []) && (length locNumParticlesNeeded =? 1)
      then
        do locParticlePair <- of_option (head locNumParticlesNeeded);
        if 1 <? snd locParticlePair then ret tt
        else if bool_decide (locComboingStage = d_ChargedStage)
                && bool_decide (ParticleCharge (fst locParticlePair) = 0%Z)
        then ret tt
        else Create_Combo_OneParticle locComboUseToCreate locComboingStage
      else
        let locChargedCombo_WithNow := Get_ChargedCombo_WithNow locChargedCombo_Presiding in
        do after_decays <-
          search_loop 0 locFurtherDecays
            (without_decay_body locComboUseToCreate locComboingStage
               locChargedCombo_WithNow locNumParticlesNeeded locFurtherDecays)
            (MkUse Unknown locVertexZBin 0);
        match after_decays with
        | None => ret tt
        | Some subset_after_decays =>
            do loose <-
              (if bool_decide (locComboingStage = d_ChargedStage) then ret true
               else do content <- charge_content locComboInfoToCreate;
                    ret (bool_decide (content = d_Neutral)));
            do after_particles <-
              (if loose then
                 search_loop 0 locNumParticlesNeeded
                   (without_particle_body locComboUseToCreate locComboingStage
                      locChargedCombo_WithNow locNumParticlesNeeded locFurtherDecays)
                   subset_after_decays
               else ret (Some subset_after_decays));
            match after_particles with
            | None => ret tt
            | Some locComboUse_SubsetToBuild =>
                do _ <- Combo_Horizontally_All fuel' locComboUse_SubsetToBuild
                          locComboingStage locChargedCombo_WithNow;
                do locExpandAllBut1Flag <-
                  expand_flag (use_info locComboUse_SubsetToBuild);
                if bool_decide (locFurtherDecays = []) then
                  do locParticlePair <- of_option (head locNumParticlesNeeded);
                  if bool_decide (locComboingStage = d_ChargedStage)
                     && bool_decide (ParticleCharge (fst locParticlePair) = 0%Z)
                  then
                    copy_AllBut1 (Get_CombosSoFar locComboingStage d_Charged None)
                                 locComboUseToCreate locComboUse_SubsetToBuild
                  else if 1 <? snd locParticlePair then
                    do locSourceInfo_NParticles <-
                      GetOrMake_SourceComboInfo [locParticlePair] [];
                    let locSourceComboUse_NParticles :=
                      MkUse Unknown locVertexZBin locSourceInfo_NParticles in
                    Combo_Horizontally_AddCombo locComboUseToCreate
                      locComboUse_SubsetToBuild locSourceComboUse_NParticles
                      locComboingStage locChargedCombo_WithNow locExpandAllBut1Flag
                  else
                    Combo_Horizontally_AddParticle locComboUseToCreate
                      locComboUse_SubsetToBuild (fst locParticlePair) locComboingStage
                      locChargedCombo_WithNow
                else
                  do locDecay <- of_option (head locFurtherDecays);
                  let locComboUseToAdd := fst locDecay in
                  do info_ToAdd <- deref_info (use_info locComboUseToAdd);
                  if bool_decide (locComboingStage = d_ChargedStage)
                     && bool_decide (Get_ChargeContent info_ToAdd = d_Neutral)
                  then
                    copy_AllBut1 (Get_CombosSoFar locComboingStage d_Charged None)
                                 locComboUseToCreate locComboUse_SubsetToBuild
                  else
                    Combo_Horizontally_AddCombo locComboUseToCreate
                      locComboUse_SubsetToBuild locComboUseToAdd locComboingStage
                      locChargedCombo_WithNow locExpandAllBut1Flag
            end
        end
  end.

(** [DSourceComboer::Create_SourceCombos_Unknown] itself (in
    [Create_SourceCombos] the parameter of that name stands for it): all
    decays vertically, the particles vertically when the use has no mix of
    charges, then everything horizontally. *)
Definition Create_SourceCombos_Unknown_steps (fuel : nat)
    (locComboUseToCreate : DSourceComboUse) (locComboingStage : ComboingStage_t)
    (locChargedCombo_Presiding : option DSourceCombo) : M unit :=
  do _ <- Combo_Vertically_AllDecays fuel locComboUseToCreate locComboingStage
                                     locChargedCombo_Presiding;
  do no_mix <-
    (if bool_decide (locComboingStage = d_ChargedStage) then ret true
     else do content <- charge_content (use_info locComboUseToCreate);
          ret (bool_decide (content = d_Neutral)));
  do _ <- (if no_mix
           then Combo_Vertically_AllParticles fuel locComboUseToCreate locComboingStage
           else ret tt);
  Combo_Horizontally_All fuel locComboUseToCreate locComboingStage
                         locChargedCombo_Presiding.
(** *** Notions the statements use *)

(** What a request reads of the state: the result tables and their vectors,
    the vector and combo pools, and the classification of the infos. *)
Definition content_of (s : Comboer) (p : InfoPtr) : Charge_t :=
  default d_Charged (Registry.dComboInfoChargeContent (dRegistry s) !! p).

Definition massive_of (s : Comboer) (p : InfoPtr) : bool :=
  bool_decide (p ∈ Registry.dComboInfosWithMassiveNeutrals (dRegistry s)).

Record same_tables (s s' : Comboer) : Prop := {
  st_slots : forall slot, slot_map slot s' = slot_map slot s;
  st_vectors : dVectors s' = dVectors s;
  st_next : dNextVector s' = dNextVector s;
  st_combo : dNextCombo s' = dNextCombo s;
  st_content : forall p, content_of s' p = content_of s p;
  st_massive : forall p, massive_of s' p = massive_of s p
}.

(** The pairs of a candidate list, in the order of the double loop. *)
Fixpoint pairs_of (l : list JObject) : list (JObject * JObject) :=
  match l with
  | [] => []
  | first :: rest => map (pair first) rest ++ pairs_of rest
  end.

Definition pair_zindep (stage : ComboingStage_t) (pid : Particle_t) (p : JObject * JObject)
  : bool :=
  bool_decide (stage = d_MixedStage_ZIndependent)
  || (Get_IsComboingZIndependent (fst p) pid && Get_IsComboingZIndependent (snd p) pid).

(** The bunches registered for a pair: those common to its two photons; none
    for the other kinds. *)
Definition pair_bunches (pid : Particle_t) (z : Z) (p : JObject * JObject) : list Z :=
  if bool_decide (pid <> Gamma) then []
  else Get_CommonRFBunches_shower (Get_ValidRFBunches (fst p) z) (snd p) z.

(** The pairs the branch keeps: not those already made at the z-independent
    stage, and not the photon pairs with no bunch in common. *)
Definition pair_kept (stage : ComboingStage_t) (pid : Particle_t) (z : Z)
    (p : JObject * JObject) : bool :=
  negb (bool_decide (stage = d_MixedStage) && pair_zindep stage pid p)
  && negb (bool_decide (pid = Gamma) && bool_decide (pair_bunches pid z p = [])).

(** The combos of a list of pairs, taken from the pool from address [n] on. *)
Fixpoint pair_combos (n : nat) (stage : ComboingStage_t) (pid : Particle_t)
    (ps : list (JObject * JObject)) : list DSourceCombo :=
  match ps with
  | [] => []
  | p :: ps' =>
      MkCombo n [(pid, fst p); (pid, snd p)] [] (pair_zindep stage pid p)
      :: pair_combos (S n) stage pid ps'
  end.

(** [new] has been appended to the vector [q], the combos taken from the
    pool; nothing else a request reads has changed. *)
Record appended (q : VecPtr) (acc new : list DSourceCombo) (s s' : Comboer) : Prop := {
  ap_slots : forall slot, slot_map slot s' = slot_map slot s;
  ap_vectors : dVectors s' = <[q := acc ++ new]> (dVectors s);
  ap_combo : dNextCombo s' = dNextCombo s + length new;
  ap_content : forall p, content_of s' p = content_of s p
}.

(** The leaves of a combo with the given members. *)
Definition leaves_of_members
    (m : list (Particle_t * JObject) * list (DSourceComboUse * list DSourceCombo))
  : list JObject :=
  map snd (fst m) ++ flat_map (fun p => flat_map leaves (snd p)) (snd m).

(** The particles [Create_Combo_OneParticle] makes a combo of: at the mixed
    stage, not those already done at the z-independent stage. *)
Definition one_kept (stage : ComboingStage_t) (pid : Particle_t) (t : JObject) : bool :=
  negb (bool_decide (stage = d_MixedStage) && Get_IsComboingZIndependent t pid).

(** The combos of single particles, taken from the pool from address [n]
    on. *)
Fixpoint one_combos (n : nat) (pid : Particle_t) (l : list JObject) : list DSourceCombo :=
  match l with
  | [] => []
  | t :: l' =>
      MkCombo n [(pid, t)] [] (Get_IsComboingZIndependent t pid) :: one_combos (S n) pid l'
  end.

(** The infos registered with the comboer. *)
Definition infos_of (s : Comboer) : list Registry.InfoObj :=
  Registry.dSourceComboInfos (dRegistry s).

(** An operation that registers no info and moves none. *)
Definition keeps_infos {A} (m : M A) : Prop :=
  forall s a s', m s = Some (a, s') -> infos_of s' = infos_of s.

(** One candidate of the N > 2 branch of [Combo_Vertically_NParticles], for
    the (N-1)-combo [c] with bunches [bunches]: the body of its inner loop. *)
Definition extend_step (u : DSourceComboUse) (pid : Particle_t) (stage : ComboingStage_t)
    (z : Z) (slot : MemoSlot) (c : DSourceCombo) (bunches : list Z) (particle : JObject)
  : M unit :=
  let locIsZIndependent :=
    bool_decide (stage = d_MixedStage_ZIndependent)
    || (dIsComboingZIndependent c && Get_IsComboingZIndependent particle pid) in
  if bool_decide (stage = d_MixedStage) && locIsZIndependent then ret tt
  else
    let locValidRFBunches :=
      if bool_decide (pid <> Gamma) then []
      else Get_CommonRFBunches_shower bunches particle z in
    do locCombo <- Get_Resource_combo (Get_SourceParticles false c ++ [(pid, particle)]) []
                                      locIsZIndependent;
    do _ <- save_combo slot u locCombo;
    do _ <- Register_ValidRFBunches u locCombo locValidRFBunches stage None;
    fun s => Some (tt, set_dResumeSearchAfterMap_Particles
                         (<[combo_addr locCombo := particle]>
                            (dResumeSearchAfterMap_Particles s)) s).

Definition extend_zindep (stage : ComboingStage_t) (pid : Particle_t) (c : DSourceCombo)
    (t : JObject) : bool :=
  bool_decide (stage = d_MixedStage_ZIndependent)
  || (dIsComboingZIndependent c && Get_IsComboingZIndependent t pid).

(** The candidates the N > 2 branch extends a combo by: at the mixed stage,
    not those that give a combo made at the z-independent stage. *)
Definition extend_kept (stage : ComboingStage_t) (pid : Particle_t) (c : DSourceCombo)
    (t : JObject) : bool :=
  negb (bool_decide (stage = d_MixedStage) && extend_zindep stage pid c t).

(** The combos that extend [c] by the particles of a list, taken from the
    pool from address [n] on. *)
Fixpoint extend_combos (n : nat) (stage : ComboingStage_t) (pid : Particle_t)
    (c : DSourceCombo) (l : list JObject) : list DSourceCombo :=
  match l with
  | [] => []
  | t :: l' =>
      MkCombo n (dSourceParticles c ++ [(pid, t)]) [] (extend_zindep stage pid c t)
      :: extend_combos (S n) stage pid c l'
  end.

(** *** Properties *)

Lemma bind_Some {A B} (m : M A) (k : A -> M B) s a s1 :
  m s = Some (a, s1) -> bind m k s = k a s1.
Proof. intros E. unfold bind. rewrite E. reflexivity. Qed.

Lemma bind_None {A B} (m : M A) (k : A -> M B) s :
  m s = None -> bind m k s = None.
Proof. intros E. unfold bind. rewrite E. reflexivity. Qed.

Lemma bind_inv {A B} (m : M A) (k : A -> M B) s b s' :
  bind m k s = Some (b, s') ->
  exists a s1, m s = Some (a, s1) /\ k a s1 = Some (b, s').
Proof.
  unfold bind. destruct (m s) as [[a s1]|]; [eauto | discriminate].
Qed.

Lemma deref_info_state p s info s' :
  deref_info p s = Some (info, s') -> s' = s.
Proof.
  unfold deref_info. destruct (List.find _ _); intros [=]; congruence.
Qed.

(** C10.  In the size-2 branch of [Combo_Vertically_NParticles] the bound of
    the pair loop is taken from the end of the candidate list before anything
    looks at its size: when the list [Get_ParticlesForComboing] returns is
    empty the call is undefined, and a call that is defined had a non-empty
    list. *)
Theorem pair_loop_bound_needs_particles
    (locComboUseToCreate locNMinus1ComboUse : DSourceComboUse)
    (locComboingStage : ComboingStage_t) (s s1 s2 : Comboer)
    (locComboInfo : DSourceComboInfo) (locPID : Particle_t)
    (locParticles : list JObject) :
  deref_info (use_info locComboUseToCreate) s = Some (locComboInfo, s) ->
  list.last (dNumParticles locComboInfo) = Some (locPID, 2) ->
  start_results (Get_CombosSoFar locComboingStage d_Neutral None) locComboUseToCreate
                locComboingStage None s = Some (tt, s1) ->
  Particles.Get_ParticlesForComboing locPID locComboingStage []
    (use_vertex_zbin locComboUseToCreate) s1 = Some (locParticles, s2) ->
  (locParticles = [] ->
   Combo_Vertically_NParticles locComboUseToCreate locNMinus1ComboUse locComboingStage s
   = None) /\
  (Combo_Vertically_NParticles locComboUseToCreate locNMinus1ComboUse locComboingStage s
   <> None -> locParticles <> []).
Proof.
  intros Hinfo Hlast Hstart Hparticles.
  assert (Hempty : locParticles = [] ->
    Combo_Vertically_NParticles locComboUseToCreate locNMinus1ComboUse locComboingStage s
    = None).
  { intros ->. unfold Combo_Vertically_NParticles.
    rewrite (bind_Some _ _ _ _ _ Hinfo).
    unfold of_option at 1. rewrite Hlast. cbn [bind fst snd].
    rewrite (bind_Some _ _ _ _ _ Hstart). cbn [Nat.eqb].
    rewrite (bind_Some _ _ _ _ _ Hparticles). reflexivity. }
  split; [exact Hempty |].
  intros Hdef ->. apply Hdef, Hempty. reflexivity.
Qed.

Lemma same_tables_refl s : same_tables s s.
Proof. split; reflexivity. Qed.

Lemma same_tables_trans s1 s2 s3 :
  same_tables s1 s2 -> same_tables s2 s3 -> same_tables s1 s3.
Proof.
  intros [A1 A2 A3 A4 A5 A6] [B1 B2 B3 B4 B5 B6]. split; intros; congruence.
Qed.

Lemma slot_map_set_slot_map slot m s : slot_map slot (set_slot_map slot m s) = m.
Proof.
  destruct slot as [|c]; cbn; [reflexivity |].
  rewrite lookup_insert_eq. reflexivity.
Qed.

Lemma slot_map_set_slot_map_id slot s :
  forall slot', slot_map slot' (set_slot_map slot (slot_map slot s) s) = slot_map slot' s.
Proof.
  intros slot'. destruct slot as [|c], slot' as [|c']; cbn; try reflexivity.
  destruct (decide (c = c')) as [->|Hne].
  - rewrite lookup_insert_eq. reflexivity.
  - rewrite lookup_insert_ne by exact Hne. reflexivity.
Qed.

Lemma charge_content_spec p s :
  exists s', charge_content p s = Some (content_of s p, s') /\ same_tables s s'.
Proof.
  unfold charge_content, content_of, subscript.
  destruct (Registry.dComboInfoChargeContent (dRegistry s) !! p) as [c|] eqn:E.
  - eexists. split; [reflexivity |]. split; try reflexivity.
  - eexists. split; [reflexivity |]. split; try reflexivity.
    intros q. unfold content_of. cbn.
    destruct (decide (p = q)) as [->|Hne].
    + rewrite lookup_insert_eq, E. reflexivity.
    + rewrite lookup_insert_ne by exact Hne. reflexivity.
Qed.


Lemma memo_subscript_present slot u p s :
  slot_map slot s !! u = Some p ->
  exists s', memo_subscript slot u s = Some (p, s') /\ same_tables s s'.
Proof.
  intros E. unfold memo_subscript, subscript. rewrite E.
  eexists. split; [reflexivity |].
  split; try (destruct slot; reflexivity).
  apply slot_map_set_slot_map_id.
Qed.

Lemma valid_bunches_spec c s :
  exists v s', valid_bunches c s = Some (v, s') /\ same_tables s s'.
Proof.
  unfold valid_bunches. destruct (subscript _ _ _) as [v m].
  eexists _, _. split; [reflexivity |]. split; reflexivity.
Qed.


Lemma for_each_same_tables {A} (l : list A) (body : A -> M unit) :
  (forall x s, exists s', body x s = Some (tt, s') /\ same_tables s s') ->
  forall s, exists s', for_each l body s = Some (tt, s') /\ same_tables s s'.
Proof.
  intros Hbody. induction l as [|x l IH]; intros s; simpl.
  - exists s. split; [reflexivity | apply same_tables_refl].
  - destruct (Hbody x s) as (s1 & E1 & T1).
    destruct (IH s1) as (s2 & E2 & T2).
    exists s2. rewrite (bind_Some _ _ _ _ _ E1). split; [exact E2 |].
    eapply same_tables_trans; eassumption.
Qed.

Lemma vec_read_spec p v s :
  p <> 0 -> dVectors s !! p = Some v -> vec_read p s = Some (v, s).
Proof.
  intros Hp E. unfold vec_read. destruct (Nat.eqb_spec p 0); [contradiction |].
  rewrite E. reflexivity.
Qed.



Lemma memo_emplace_absent slot u p s :
  slot_map slot s !! u = None ->
  exists s', memo_emplace slot u p s = Some (tt, s') /\
    slot_map slot s' = <[u := p]> (slot_map slot s) /\
    dVectors s' = dVectors s /\ dNextVector s' = dNextVector s /\
    (forall q, content_of s' q = content_of s q) /\
    (forall q, massive_of s' q = massive_of s q).
Proof.
  intros E. unfold memo_emplace, emplace. rewrite E.
  eexists. split; [reflexivity |].
  split; [apply slot_map_set_slot_map |].
  repeat split; destruct slot; reflexivity.
Qed.


(** [emplace; reserve] for a use that has no entry yet: the use gets the next
    vector of the pool, empty. *)
Lemma initialize_results_absent slot u s :
  slot_map slot s !! u = None -> dNextVector s <> 0 ->
  exists s', initialize_results slot u s = Some (tt, s') /\
    slot_map slot s' = <[u := dNextVector s]> (slot_map slot s) /\
    dVectors s' = <[dNextVector s := []]> (dVectors s) /\
    dNextVector s' = S (dNextVector s) /\
    (forall q, content_of s' q = content_of s q) /\
    (forall q, massive_of s' q = massive_of s q).
Proof.
  intros E Hn. unfold initialize_results.
  set (s1 := set_dNextVector (S (dNextVector s))
               (set_dVectors (<[dNextVector s := []]> (dVectors s)) s)).
  assert (E0 : Get_Resource_vector s = Some (dNextVector s, s1)) by reflexivity.
  rewrite (bind_Some _ _ _ _ _ E0).
  assert (E1 : slot_map slot s1 !! u = None) by (destruct slot; exact E).
  destruct (memo_emplace_absent slot u (dNextVector s) s1 E1)
    as (s2 & E2 & S2 & V2 & N2 & C2 & M2).
  rewrite (bind_Some _ _ _ _ _ E2).
  assert (E3 : slot_map slot s2 !! u = Some (dNextVector s))
    by (rewrite S2, lookup_insert_eq; reflexivity).
  destruct (memo_subscript_present _ _ _ _ E3) as (s3 & E4 & T3).
  rewrite (bind_Some _ _ _ _ _ E4).
  assert (E5 : vec_read (dNextVector s) s3 = Some ([], s3)).
  { apply vec_read_spec; [exact Hn |].
    rewrite (st_vectors _ _ T3), V2. subst s1. cbn. apply lookup_insert_eq. }
  rewrite (bind_Some _ _ _ _ _ E5).
  exists s3. split; [reflexivity |].
  split; [rewrite (st_slots _ _ T3), S2; destruct slot; reflexivity |].
  split; [rewrite (st_vectors _ _ T3), V2; reflexivity |].
  split; [rewrite (st_next _ _ T3), N2; reflexivity |].
  split; intros q.
  - rewrite (st_content _ _ T3), C2. reflexivity.
  - rewrite (st_massive _ _ T3), M2. reflexivity.
Qed.



(** *** The size-2 branch in general *)

(** [Register_ValidRFBunches] for a combo just saved in the vector of its
    use: the call is defined and leaves the tables, the vectors and the pools
    as they are. *)
Lemma Register_ValidRFBunches_spec u c bunches stage charged q v s :
  slot_map (Get_CombosSoFar stage (content_of s (use_info u)) charged) s !! u = Some q ->
  q <> 0 -> dVectors s !! q = Some v -> v <> [] ->
  exists s', Register_ValidRFBunches u c bunches stage charged s = Some (tt, s') /\
    same_tables s s'.
Proof.
  intros Hu Hq Hv Hne. unfold Register_ValidRFBunches.
  set (s0 := set_dValidRFBunches_ByCombo
               (emplace (combo_addr c) bunches (dValidRFBunches_ByCombo s)) s).
  assert (T0 : same_tables s s0) by (split; reflexivity).
  rewrite (bind_Some _ _ s tt s0) by reflexivity.
  assert (Hby : exists s1,
    (if bool_decide (stage <> d_ChargedStage) then
       do content <- charge_content (use_info u);
       let k := Get_SourceCombosByBeamBunchByUse content charged in
       for_each bunches (fun locBeamBunch =>
         do n <- (fun s =>
             let m := bybunch_get k u s in
             let locComboVector := fst (subscript [] [locBeamBunch] m) ++ [c] in
             Some (length locComboVector,
                   bybunch_set k u (<[ [locBeamBunch] := locComboVector ]> m) s));
         resume_iterator_emplace c (use_vertex_zbin u) [locBeamBunch] (n - 1))
     else ret tt) s0 = Some (tt, s1) /\ same_tables s0 s1).
  { destruct (bool_decide (stage <> d_ChargedStage)).
    - destruct (charge_content_spec (use_info u) s0) as (sa & Ea & Ta).
      rewrite (bind_Some _ _ _ _ _ Ea). cbv zeta.
      set (body := fun locBeamBunch : Z => _).
      destruct (for_each_same_tables bunches body) with (s := sa) as (sb & Eb & Tb).
      + intros x s'. eexists. split; [reflexivity | split; reflexivity].
      + exists sb. split; [exact Eb |]. eauto using same_tables_trans.
    - exists s0. split; [reflexivity | apply same_tables_refl]. }
  destruct Hby as (s1 & E1 & T1). rewrite (bind_Some _ _ _ _ _ E1).
  pose proof (same_tables_trans _ _ _ T0 T1) as T01.
  destruct (bool_decide (bunches = [])).
  - destruct (charge_content_spec (use_info u) s1) as (s2 & E2 & T2).
    rewrite (bind_Some _ _ _ _ _ E2).
    pose proof (same_tables_trans _ _ _ T01 T2) as T02.
    rewrite (st_content _ _ T01).
    assert (Hu2 : slot_map (Get_CombosSoFar stage (content_of s (use_info u)) charged) s2 !! u
                  = Some q) by (rewrite (st_slots _ _ T02); exact Hu).
    destruct (memo_subscript_present _ _ _ _ Hu2) as (s3 & E3 & T3).
    rewrite (bind_Some _ _ _ _ _ E3).
    pose proof (same_tables_trans _ _ _ T02 T3) as T03.
    rewrite (bind_Some _ _ s3 v s3)
      by (apply vec_read_spec; [exact Hq | rewrite (st_vectors _ _ T03); exact Hv]).
    destruct v as [|c0 v]; [contradiction |].
    eexists. split; [reflexivity |].
    eapply same_tables_trans; [exact T03 |]. split; reflexivity.
  - exists s1. split; [reflexivity | exact T01].
Qed.

Lemma pair_combos_app n stage pid ps1 ps2 :
  pair_combos n stage pid (ps1 ++ ps2)
  = pair_combos n stage pid ps1 ++ pair_combos (n + length ps1) stage pid ps2.
Proof.
  revert n. induction ps1 as [|p ps1 IH]; intros n; simpl.
  - rewrite Nat.add_0_r. reflexivity.
  - rewrite IH. replace (S n + length ps1) with (n + S (length ps1)) by lia. reflexivity.
Qed.

Lemma appended_nil q acc s : dVectors s !! q = Some acc -> appended q acc [] s s.
Proof.
  intros Hv. split; try reflexivity.
  - rewrite app_nil_r, insert_id by exact Hv. reflexivity.
  - simpl. lia.
Qed.

Lemma appended_app q acc new1 new2 s s1 s2 :
  appended q acc new1 s s1 -> appended q (acc ++ new1) new2 s1 s2 ->
  appended q acc (new1 ++ new2) s s2.
Proof.
  intros [A1 A2 A3 A4] [B1 B2 B3 B4]. split.
  - intros slot. rewrite B1, A1. reflexivity.
  - rewrite B2, A2, insert_insert_eq, app_assoc. reflexivity.
  - rewrite B3, A3, length_app. lia.
  - intros p. rewrite B4, A4. reflexivity.
Qed.

Lemma appended_same_tables q acc new s s1 s2 :
  appended q acc new s s1 -> same_tables s1 s2 -> appended q acc new s s2.
Proof.
  intros [A1 A2 A3 A4] T. split.
  - intros slot. rewrite (st_slots _ _ T), A1. reflexivity.
  - rewrite (st_vectors _ _ T), A2. reflexivity.
  - rewrite (st_combo _ _ T), A3. reflexivity.
  - intros p. rewrite (st_content _ _ T), A4. reflexivity.
Qed.

(** At the charged stage, and for an info that is not fully charged, the
    table of the use is the one the vertical comboing of particles writes. *)
Lemma Get_CombosSoFar_neutral stage content :
  stage = d_ChargedStage \/ content <> d_Charged ->
  Get_CombosSoFar stage content None = Get_CombosSoFar stage d_Neutral None.
Proof.
  intros [-> | Hc]; [reflexivity |].
  unfold Get_CombosSoFar.
  destruct (bool_decide (stage = d_ChargedStage)); [reflexivity |].
  rewrite (bool_decide_eq_false_2 _ Hc). cbn.
  destruct (bool_decide (content = d_Neutral)); reflexivity.
Qed.

(** [save_combo] appends to the vector of the use and takes nothing from the
    pools. *)
Lemma save_combo_keeps slot u q acc c s :
  slot_map slot s !! u = Some q -> q <> 0 -> dVectors s !! q = Some acc ->
  exists s', save_combo slot u c s = Some (tt, s') /\
    (forall slot', slot_map slot' s' = slot_map slot' s) /\
    dVectors s' = <[q := acc ++ [c]]> (dVectors s) /\
    dNextCombo s' = dNextCombo s /\
    (forall p, content_of s' p = content_of s p).
Proof.
  intros Hu Hq Hv. unfold save_combo.
  destruct (memo_subscript_present _ _ _ _ Hu) as (s1 & E1 & T1).
  rewrite (bind_Some _ _ _ _ _ E1). unfold vec_push_back.
  assert (Hr : vec_read q s1 = Some (acc, s1)).
  { apply vec_read_spec; [exact Hq |]. rewrite (st_vectors _ _ T1). exact Hv. }
  rewrite (bind_Some _ _ _ _ _ Hr).
  eexists. split; [reflexivity |]. cbn.
  split; [intros slot'; apply (st_slots _ _ T1) |].
  split; [rewrite (st_vectors _ _ T1); reflexivity |].
  split; [apply (st_combo _ _ T1) | apply (st_content _ _ T1)].
Qed.

(** One pair: when it is kept, its combo is appended to the vector of the
    use. *)
Lemma pair_body_spec u pid stage z q first second acc s :
  let slot := Get_CombosSoFar stage d_Neutral None in
  q <> 0 ->
  slot_map slot s !! u = Some q -> dVectors s !! q = Some acc ->
  stage = d_ChargedStage \/ content_of s (use_info u) <> d_Charged ->
  exists s',
    pair_body u pid stage z slot first
      (if bool_decide (pid = Gamma) then Get_ValidRFBunches first z else []) second s
    = Some (tt, s') /\
    appended q acc
      (pair_combos (dNextCombo s) stage pid
         (List.filter (pair_kept stage pid z) [(first, second)])) s s'.
Proof.
  intros slot Hq Hu Hv Hc.
  unfold pair_body, pair_kept, pair_bunches, pair_zindep. cbn [List.filter fst snd].
  set (zi := bool_decide (stage = d_MixedStage_ZIndependent) || _).
  destruct (bool_decide (stage = d_MixedStage) && zi) eqn:Hskip; cbn [negb andb].
  { exists s. split; [reflexivity | apply appended_nil; exact Hv]. }
  set (bunches := if bool_decide (pid <> Gamma) then [] else _).
  assert (Hb : bunches =
    (if bool_decide (pid <> Gamma) then []
     else Get_CommonRFBunches_shower (Get_ValidRFBunches first z) second z)).
  { subst bunches. destruct pid; reflexivity. }
  rewrite <- Hb. clearbody bunches.
  destruct (bool_decide (pid = Gamma) && bool_decide (bunches = [])) eqn:Hcut; cbn [negb].
  { exists s. split; [reflexivity | apply appended_nil; exact Hv]. }
  cbn [pair_combos fst snd]. fold zi.
  set (c := MkCombo (dNextCombo s) [(pid, first); (pid, second)] [] zi).
  set (s1 := set_dNextCombo (S (dNextCombo s)) s).
  rewrite (bind_Some _ _ s c s1) by reflexivity.
  assert (Hu1 : slot_map slot s1 !! u = Some q) by (destruct slot; exact Hu).
  destruct (save_combo_keeps slot u q acc c s1 Hu1 Hq Hv) as (s2 & E2 & S2 & V2 & N2 & C2).
  rewrite (bind_Some _ _ _ _ _ E2).
  destruct (Register_ValidRFBunches_spec u c bunches stage None q (acc ++ [c]) s2)
    as (s3 & E3 & T3).
  { rewrite (Get_CombosSoFar_neutral stage).
    - fold slot. rewrite S2. exact Hu1.
    - rewrite C2. exact Hc. }
  { exact Hq. }
  { rewrite V2. apply lookup_insert_eq. }
  { destruct acc; discriminate. }
  rewrite (bind_Some _ _ _ _ _ E3).
  eexists. split; [reflexivity |].
  set (s4 := set_dResumeSearchAfterMap_Particles _ s3).
  assert (T4 : same_tables s3 s4) by (split; reflexivity).
  pose proof (same_tables_trans _ _ _ T3 T4) as T24.
  split.
  - intros slot'. rewrite (st_slots _ _ T24), S2. destruct slot'; reflexivity.
  - rewrite (st_vectors _ _ T24), V2. reflexivity.
  - rewrite (st_combo _ _ T24), N2. cbn. lia.
  - intros p. rewrite (st_content _ _ T24), C2. reflexivity.
Qed.

Lemma pair_combos_length n stage pid ps :
  length (pair_combos n stage pid ps) = length ps.
Proof. revert n. induction ps as [|p ps IH]; intros n; simpl; [| rewrite IH]; reflexivity. Qed.

Lemma filter_cons_app {A} (f : A -> bool) (x : A) (l : list A) :
  List.filter f (x :: l) = List.filter f [x] ++ List.filter f l.
Proof. simpl. destruct (f x); reflexivity. Qed.

(** The inner loop: the kept pairs of [first] with the particles after it. *)
Lemma pair_inner_spec u pid stage z q first rest :
  let slot := Get_CombosSoFar stage d_Neutral None in
  q <> 0 ->
  forall acc s,
    slot_map slot s !! u = Some q -> dVectors s !! q = Some acc ->
    stage = d_ChargedStage \/ content_of s (use_info u) <> d_Charged ->
    exists s',
      for_each rest
        (pair_body u pid stage z slot first
           (if bool_decide (pid = Gamma) then Get_ValidRFBunches first z else [])) s
      = Some (tt, s') /\
      appended q acc
        (pair_combos (dNextCombo s) stage pid
           (List.filter (pair_kept stage pid z) (map (pair first) rest))) s s'.
Proof.
  intros slot Hq. induction rest as [|second rest IH]; intros acc s Hu Hv Hc.
  - exists s. split; [reflexivity | apply appended_nil; exact Hv].
  - destruct (pair_body_spec u pid stage z q first second acc s Hq Hu Hv Hc)
      as (s1 & E1 & A1).
    set (new1 := pair_combos (dNextCombo s) stage pid
                   (List.filter (pair_kept stage pid z) [(first, second)])) in *.
    destruct (IH (acc ++ new1) s1) as (s2 & E2 & A2).
    { rewrite (ap_slots _ _ _ _ _ A1). exact Hu. }
    { rewrite (ap_vectors _ _ _ _ _ A1). apply lookup_insert_eq. }
    { destruct Hc as [Hc | Hc]; [left; exact Hc | right].
      rewrite (ap_content _ _ _ _ _ A1). exact Hc. }
    exists s2. split.
    { cbn [for_each]. rewrite (bind_Some _ _ _ _ _ E1). exact E2. }
    cbn [map]. rewrite filter_cons_app, pair_combos_app.
    eapply appended_app; [exact A1 |].
    rewrite (ap_combo _ _ _ _ _ A1) in A2. subst new1.
    rewrite pair_combos_length in A2. exact A2.
Qed.

Lemma pair_loop_cons u pid stage z slot first second rest :
  pair_loop u pid stage z slot (first :: second :: rest)
  = (do _ <- for_each (second :: rest)
               (pair_body u pid stage z slot first
                  (if bool_decide (pid = Gamma) then Get_ValidRFBunches first z else []));
     pair_loop u pid stage z slot (second :: rest)).
Proof. reflexivity. Qed.

(** The double loop appends, in the order of [pairs_of], the combos of the
    pairs that are kept. *)
Lemma pair_loop_spec u pid stage z q locParticles :
  let slot := Get_CombosSoFar stage d_Neutral None in
  q <> 0 ->
  forall acc s,
    slot_map slot s !! u = Some q -> dVectors s !! q = Some acc ->
    stage = d_ChargedStage \/ content_of s (use_info u) <> d_Charged ->
    exists s',
      pair_loop u pid stage z slot locParticles s = Some (tt, s') /\
      appended q acc
        (pair_combos (dNextCombo s) stage pid
           (List.filter (pair_kept stage pid z) (pairs_of locParticles))) s s'.
Proof.
  intros slot Hq. induction locParticles as [|first rest IH]; intros acc s Hu Hv Hc.
  - exists s. split; [reflexivity | apply appended_nil; exact Hv].
  - destruct rest as [|second rest'].
    { exists s. split; [reflexivity | apply appended_nil; exact Hv]. }
    destruct (pair_inner_spec u pid stage z q first (second :: rest') Hq acc s Hu Hv Hc)
      as (s1 & E1 & A1).
    set (new1 := pair_combos (dNextCombo s) stage pid
                   (List.filter (pair_kept stage pid z)
                      (map (pair first) (second :: rest')))) in *.
    destruct (IH (acc ++ new1) s1) as (s2 & E2 & A2).
    { rewrite (ap_slots _ _ _ _ _ A1). exact Hu. }
    { rewrite (ap_vectors _ _ _ _ _ A1). apply lookup_insert_eq. }
    { destruct Hc as [Hc | Hc]; [left; exact Hc | right].
      rewrite (ap_content _ _ _ _ _ A1). exact Hc. }
    exists s2. split.
    { rewrite pair_loop_cons. rewrite (bind_Some _ _ _ _ _ E1). exact E2. }
    change (pairs_of (first :: second :: rest'))
      with (map (pair first) (second :: rest') ++ pairs_of (second :: rest')).
    rewrite List.filter_app, pair_combos_app.
    eapply appended_app; [exact A1 |].
    rewrite (ap_combo _ _ _ _ _ A1) in A2. subst new1.
    rewrite pair_combos_length in A2. exact A2.
Qed.

(** A pool of [M] particles has [M (M - 1) / 2] pairs. *)
Lemma pairs_of_length l : 2 * length (pairs_of l) = length l * (length l - 1).
Proof.
  induction l as [|x l IH]; [reflexivity |].
  cbn [pairs_of length]. rewrite length_app, length_map. nia.
Qed.

(** X12.  The size-2 branch of [Combo_Vertically_NParticles] on a non-empty
    candidate list: the call is defined, and it appends to the vector of the
    use the combos of the kept pairs, in the order first particle, then second
    particle.  When every pair is kept these are all the [M (M - 1) / 2] pairs
    ([pairs_of_length]). *)
Lemma pair_branch_result
    (locComboUseToCreate locNMinus1ComboUse : DSourceComboUse)
    (locComboingStage : ComboingStage_t) (s s1 s2 : Comboer)
    (locComboInfo : DSourceComboInfo) (locPID : Particle_t)
    (locParticles : list JObject) (q : VecPtr) (acc : list DSourceCombo) :
  let slot := Get_CombosSoFar locComboingStage d_Neutral None in
  let z := use_vertex_zbin locComboUseToCreate in
  deref_info (use_info locComboUseToCreate) s = Some (locComboInfo, s) ->
  list.last (dNumParticles locComboInfo) = Some (locPID, 2) ->
  start_results slot locComboUseToCreate locComboingStage None s = Some (tt, s1) ->
  Particles.Get_ParticlesForComboing locPID locComboingStage [] z s1
    = Some (locParticles, s2) ->
  locParticles <> [] ->
  slot_map slot s2 !! locComboUseToCreate = Some q -> q <> 0 ->
  dVectors s2 !! q = Some acc ->
  locComboingStage = d_ChargedStage
    \/ content_of s2 (use_info locComboUseToCreate) <> d_Charged ->
  exists s',
    Combo_Vertically_NParticles locComboUseToCreate locNMinus1ComboUse locComboingStage s
    = Some (tt, s') /\
    slot_map slot s' !! locComboUseToCreate = Some q /\
    dVectors s' !! q =
      Some (acc ++ pair_combos (dNextCombo s2) locComboingStage locPID
                     (List.filter (pair_kept locComboingStage locPID z)
                        (pairs_of locParticles))).
Proof.
  intros slot z Hinfo Hlast Hstart Hparticles Hne Hu Hq Hv Hc.
  destruct (pair_loop_spec locComboUseToCreate locPID locComboingStage z q locParticles
              Hq acc s2 Hu Hv Hc) as (s' & E & A).
  exists s'. split.
  - unfold Combo_Vertically_NParticles.
    rewrite (bind_Some _ _ _ _ _ Hinfo).
    unfold of_option at 1. rewrite Hlast. cbn [bind fst snd].
    fold slot. rewrite (bind_Some _ _ _ _ _ Hstart). cbn [Nat.eqb].
    fold z. rewrite (bind_Some _ _ _ _ _ Hparticles).
    destruct locParticles; [contradiction | exact E].
  - split.
    + rewrite (ap_slots _ _ _ _ _ A). exact Hu.
    + rewrite (ap_vectors _ _ _ _ _ A). apply lookup_insert_eq.
Qed.

(** *** Leaves of a merged combo *)

Lemma leaves_members c :
  leaves c = leaves_of_members (dSourceParticles c, dFurtherDecayCombos c).
Proof.
  unfold leaves, leaves_of_members. destruct c as [a ps fd zi]. cbn [fst snd
    dSourceParticles dFurtherDecayCombos Get_SourceParticles_chain].
  rewrite map_app. f_equal.
  induction fd as [|[u cs] fd IH]; [reflexivity |].
  cbn [flat_map snd]. rewrite map_app, IH. f_equal.
  clear IH. induction cs as [|c cs IHc]; [reflexivity |].
  cbn [flat_map]. rewrite map_app, IHc. reflexivity.
Qed.

Lemma small_find_None u m :
  small_find u m = None <-> u ∉ map fst m.
Proof.
  unfold small_find. induction m as [|[k cs] m IH]; cbn.
  - split; [intros _; apply not_elem_of_nil | reflexivity].
  - rewrite not_elem_of_cons. destruct (bool_decide_reflect (k = u)) as [-> | Hne]; cbn.
    + split; [discriminate | intros [H _]; contradiction].
    + rewrite IH. split; [intros H; split; [congruence | exact H] | intros [_ H]; exact H].
Qed.

Lemma small_emplace_fresh u cs m :
  u ∉ map fst m -> small_emplace u cs m = m ++ [(u, cs)].
Proof. intros H. unfold small_emplace. rewrite (proj2 (small_find_None u m) H). reflexivity. Qed.

(** A range whose keys are all new is inserted whole. *)
Lemma small_insert_range_fresh src : forall m,
  NoDup (map fst src) ->
  (forall k, k ∈ map fst src -> k ∉ map fst m) ->
  small_insert_range src m = m ++ src.
Proof.
  unfold small_insert_range. induction src as [|[u cs] src IH]; intros m Hnd Hfresh.
  - cbn. rewrite app_nil_r. reflexivity.
  - cbn [fold_left fst snd]. cbn [map fst] in Hnd, Hfresh.
    pose proof (NoDup_cons_1_1 _ _ Hnd) as Hu. apply NoDup_cons_1_2 in Hnd.
    rewrite small_emplace_fresh by (apply Hfresh; left).
    rewrite IH; [rewrite <- app_assoc; reflexivity | exact Hnd |].
    intros k Hk. rewrite map_app, not_elem_of_app. split.
    + apply Hfresh. right. exact Hk.
    + cbn. rewrite not_elem_of_cons. split; [| apply not_elem_of_nil].
      intros ->. contradiction.
Qed.

Lemma leaves_of_members_app ps1 ps2 fd1 fd2 :
  leaves_of_members (ps1 ++ ps2, fd1 ++ fd2)
  ≡ₚ leaves_of_members (ps1, fd1) ++ leaves_of_members (ps2, fd2).
Proof.
  unfold leaves_of_members. cbn [fst snd].
  rewrite map_app, flat_map_app.
  rewrite <- !app_assoc. apply Permutation_app_head.
  rewrite !app_assoc. apply Permutation_app_tail. apply Permutation_app_comm.
Qed.

(** X16.  [Combo_Horizontally_AddCombo], the members of the new combo: when no
    sub-combo key of one side is a key of the other, the use to add is not a
    key of the all-but-1 combo, and the two uses differ, the leaves of the
    merged combo are those of the all-but-1 combo and those of the combo to
    add, in each of the four branches. *)
Lemma merged_members_leaves
    (locExpandAllBut1Flag locPromoteToAddFlag locPromoteAllBut1Flag : bool)
    (locAllBut1ComboUse locSourceComboUseToAdd : DSourceComboUse)
    (locCombo_AllBut1 locDecayCombo_ToAdd : DSourceCombo) :
  NoDup (map fst (dFurtherDecayCombos locCombo_AllBut1)) ->
  NoDup (map fst (dFurtherDecayCombos locDecayCombo_ToAdd)) ->
  (forall k, k ∈ map fst (dFurtherDecayCombos locCombo_AllBut1) ->
             k ∉ map fst (dFurtherDecayCombos locDecayCombo_ToAdd)) ->
  locSourceComboUseToAdd ∉ map fst (dFurtherDecayCombos locCombo_AllBut1) ->
  locAllBut1ComboUse <> locSourceComboUseToAdd ->
  leaves_of_members
    (merged_members locExpandAllBut1Flag locPromoteToAddFlag locPromoteAllBut1Flag
       locAllBut1ComboUse locSourceComboUseToAdd locCombo_AllBut1 locDecayCombo_ToAdd)
  ≡ₚ leaves locCombo_AllBut1 ++ leaves locDecayCombo_ToAdd.
Proof.
  intros HndX HndY Hdisj Hadd Huse.
  assert (Hdisj' : forall k, k ∈ map fst (dFurtherDecayCombos locDecayCombo_ToAdd) ->
                             k ∉ map fst (dFurtherDecayCombos locCombo_AllBut1)).
  { intros k HY HX. exact (Hdisj k HX HY). }
  rewrite (leaves_members locCombo_AllBut1), (leaves_members locDecayCombo_ToAdd).
  unfold merged_members, Get_SourceParticles.
  destruct locExpandAllBut1Flag.
  - destruct locPromoteToAddFlag.
    + rewrite small_insert_range_fresh by assumption. apply leaves_of_members_app.
    + rewrite small_emplace_fresh by assumption.
      rewrite <- (leaves_members locDecayCombo_ToAdd).
      unfold leaves_of_members. cbn [fst snd].
      rewrite flat_map_app. cbn [flat_map snd]. rewrite !app_nil_r, app_assoc. reflexivity.
  - destruct locPromoteAllBut1Flag; [| destruct locPromoteToAddFlag].
    + rewrite small_insert_range_fresh by assumption.
      rewrite leaves_of_members_app. apply Permutation_app_comm.
    + rewrite small_insert_range_fresh by assumption. apply leaves_of_members_app.
    + rewrite <- (leaves_members locCombo_AllBut1), <- (leaves_members locDecayCombo_ToAdd).
      rewrite (small_emplace_fresh locAllBut1ComboUse) by apply not_elem_of_nil.
      rewrite small_emplace_fresh.
      * unfold leaves_of_members. cbn. rewrite !app_nil_r. reflexivity.
      * cbn. rewrite not_elem_of_cons. split; [congruence | apply not_elem_of_nil].
Qed.

(** The search the decay and combo paths make before a pairing: a candidate
    is turned down exactly when one of its leaves is among the used
    particles. *)
Lemma Search_Duplicates_leaves (locUsedParticles : list JObject) (candidate : DSourceCombo) :
  Search_Duplicates locUsedParticles candidate = true
  <-> exists x, x ∈ leaves candidate /\ x ∈ locUsedParticles.
Proof.
  unfold Search_Duplicates, Get_SourceParticles_objects, Get_SourceParticles, binary_search.
  rewrite bool_decide_eq_true_2 by reflexivity. cbn [orb].
  assert (Hall : forall l : list (Particle_t * JObject),
            filter (fun _ : Particle_t * JObject => true) l = l).
  { induction l as [|p l IH]; [reflexivity |].
    rewrite filter_cons_True by exact I. rewrite IH. reflexivity. }
  rewrite Hall. fold (leaves candidate).
  rewrite existsb_exists. split.
  - intros (x & Hx & Hb). apply existsb_exists in Hb. destruct Hb as (y & Hy & Hxy).
    apply Nat.eqb_eq in Hxy. subst y.
    exists x. split; apply list_elem_of_In; assumption.
  - intros (x & Hx & Hu). exists x. split; [apply list_elem_of_In; exact Hx |].
    apply existsb_exists. exists x. split; [apply list_elem_of_In; exact Hu |].
    apply Nat.eqb_refl.
Qed.

(** *** A single particle *)

Lemma one_combos_length n pid l : length (one_combos n pid l) = length l.
Proof. revert n. induction l as [|t l IH]; intros n; simpl; [| rewrite IH]; reflexivity. Qed.

Lemma one_combos_app n pid l1 l2 :
  one_combos n pid (l1 ++ l2)
  = one_combos n pid l1 ++ one_combos (n + length l1) pid l2.
Proof.
  revert n. induction l1 as [|t l1 IH]; intros n; simpl.
  - rewrite Nat.add_0_r. reflexivity.
  - rewrite IH. replace (S n + length l1) with (n + S (length l1)) by lia. reflexivity.
Qed.

Lemma one_body_spec u pid stage z q t acc s :
  let slot := Get_CombosSoFar stage d_Neutral None in
  q <> 0 ->
  slot_map slot s !! u = Some q -> dVectors s !! q = Some acc ->
  stage = d_ChargedStage \/ content_of s (use_info u) <> d_Charged ->
  exists s',
    one_body u pid stage z slot t s = Some (tt, s') /\
    appended q acc (one_combos (dNextCombo s) pid (List.filter (one_kept stage pid) [t])) s s'.
Proof.
  intros slot Hq Hu Hv Hc.
  unfold one_body, one_kept. cbn [List.filter].
  destruct (bool_decide (stage = d_MixedStage) && Get_IsComboingZIndependent t pid)
    eqn:Hskip; cbn [negb].
  { exists s. split; [reflexivity | apply appended_nil; exact Hv]. }
  cbn [one_combos].
  set (c := MkCombo (dNextCombo s) [(pid, t)] [] (Get_IsComboingZIndependent t pid)).
  set (s1 := set_dNextCombo (S (dNextCombo s)) s).
  rewrite (bind_Some _ _ s c s1) by reflexivity.
  assert (Hu1 : slot_map slot s1 !! u = Some q) by (destruct slot; exact Hu).
  destruct (save_combo_keeps slot u q acc c s1 Hu1 Hq Hv) as (s2 & E2 & S2 & V2 & N2 & C2).
  rewrite (bind_Some _ _ _ _ _ E2).
  assert (Hreg : forall bunches, exists s3,
            Register_ValidRFBunches u c bunches stage None s2 = Some (tt, s3) /\
            same_tables s2 s3).
  { intros bunches.
    apply (Register_ValidRFBunches_spec u c bunches stage None q (acc ++ [c]) s2).
    - rewrite (Get_CombosSoFar_neutral stage).
      + fold slot. rewrite S2. exact Hu1.
      + rewrite C2. exact Hc.
    - exact Hq.
    - rewrite V2. apply lookup_insert_eq.
    - destruct acc; discriminate. }
  assert (Hfin : exists s3,
            (if bool_decide (pid = Gamma)
             then Register_ValidRFBunches u c (Get_ValidRFBunches t z) stage None
             else Register_ValidRFBunches u c [] stage None) s2 = Some (tt, s3) /\
            same_tables s2 s3).
  { destruct (bool_decide (pid = Gamma)); apply Hreg. }
  destruct Hfin as (s3 & E3 & T3).
  exists s3. split; [exact E3 |].
  split.
  - intros slot'. rewrite (st_slots _ _ T3), S2. destruct slot'; reflexivity.
  - rewrite (st_vectors _ _ T3), V2. reflexivity.
  - rewrite (st_combo _ _ T3), N2. cbn. lia.
  - intros p. rewrite (st_content _ _ T3), C2. reflexivity.
Qed.

(** The loop appends one combo for every particle that is kept, in the
    order of the particles. *)
Lemma one_loop_spec u pid stage z q locParticles :
  let slot := Get_CombosSoFar stage d_Neutral None in
  q <> 0 ->
  forall acc s,
    slot_map slot s !! u = Some q -> dVectors s !! q = Some acc ->
    stage = d_ChargedStage \/ content_of s (use_info u) <> d_Charged ->
    exists s',
      for_each locParticles (one_body u pid stage z slot) s = Some (tt, s') /\
      appended q acc
        (one_combos (dNextCombo s) pid (List.filter (one_kept stage pid) locParticles)) s s'.
Proof.
  intros slot Hq. induction locParticles as [|t rest IH]; intros acc s Hu Hv Hc.
  - exists s. split; [reflexivity | apply appended_nil; exact Hv].
  - destruct (one_body_spec u pid stage z q t acc s Hq Hu Hv Hc) as (s1 & E1 & A1).
    set (new1 := one_combos (dNextCombo s) pid (List.filter (one_kept stage pid) [t])) in *.
    destruct (IH (acc ++ new1) s1) as (s2 & E2 & A2).
    { rewrite (ap_slots _ _ _ _ _ A1). exact Hu. }
    { rewrite (ap_vectors _ _ _ _ _ A1). apply lookup_insert_eq. }
    { destruct Hc as [Hc | Hc]; [left; exact Hc | right].
      rewrite (ap_content _ _ _ _ _ A1). exact Hc. }
    exists s2. split.
    { cbn [for_each]. rewrite (bind_Some _ _ _ _ _ E1). exact E2. }
    rewrite filter_cons_app, one_combos_app.
    eapply appended_app; [exact A1 |].
    rewrite (ap_combo _ _ _ _ _ A1) in A2. subst new1.
    rewrite one_combos_length in A2. exact A2.
Qed.

(** X14.  [Create_Combo_OneParticle] in general: once the results are started and
    the particles are there, the call is defined and appends to the vector
    of the use one single-particle combo for each particle, in the order of
    the particles; at the mixed stage the particles that combo independently
    of vertex-z are left out, their combos having been copied.  A photon is
    kept whatever its valid bunches are. *)
Lemma one_particle_result
    (locComboUseToCreate : DSourceComboUse) (locComboingStage : ComboingStage_t)
    (s s1 s2 : Comboer) (locComboInfo : DSourceComboInfo) (locPID : Particle_t) (n : nat)
    (locParticles : list JObject) (q : VecPtr) (acc : list DSourceCombo) :
  let slot := Get_CombosSoFar locComboingStage d_Neutral None in
  let z := use_vertex_zbin locComboUseToCreate in
  deref_info (use_info locComboUseToCreate) s = Some (locComboInfo, s) ->
  head (dNumParticles locComboInfo) = Some (locPID, n) ->
  start_results slot locComboUseToCreate locComboingStage None s = Some (tt, s1) ->
  Particles.Get_ParticlesForComboing locPID locComboingStage [] z s1
    = Some (locParticles, s2) ->
  slot_map slot s2 !! locComboUseToCreate = Some q -> q <> 0 ->
  dVectors s2 !! q = Some acc ->
  locComboingStage = d_ChargedStage
    \/ content_of s2 (use_info locComboUseToCreate) <> d_Charged ->
  exists s',
    Create_Combo_OneParticle locComboUseToCreate locComboingStage s = Some (tt, s') /\
    slot_map slot s' !! locComboUseToCreate = Some q /\
    dVectors s' !! q =
      Some (acc ++ one_combos (dNextCombo s2) locPID
                     (List.filter (one_kept locComboingStage locPID) locParticles)).
Proof.
  intros slot z Hinfo Hfront Hstart Hparticles Hu Hq Hv Hc.
  destruct (one_loop_spec locComboUseToCreate locPID locComboingStage z q locParticles
              Hq acc s2 Hu Hv Hc) as (s' & E & A).
  exists s'. split.
  - unfold Create_Combo_OneParticle.
    rewrite (bind_Some _ _ _ _ _ Hinfo).
    unfold of_option at 1. rewrite Hfront. cbn [bind fst snd].
    fold slot. rewrite (bind_Some _ _ _ _ _ Hstart).
    fold z. rewrite (bind_Some _ _ _ _ _ Hparticles). exact E.
  - split.
    + rewrite (ap_slots _ _ _ _ _ A). exact Hu.
    + rewrite (ap_vectors _ _ _ _ _ A). apply lookup_insert_eq.
Qed.

Lemma initialize_results_event slot u s s' :
  initialize_results slot u s = Some (tt, s') ->
  dNextCombo s' = dNextCombo s /\ dTracksByPID s' = dTracksByPID s.
Proof.
  unfold initialize_results. intros H.
  apply bind_inv in H. destruct H as (p & s1 & E1 & H).
  apply bind_inv in H. destruct H as ([] & s2 & E2 & H).
  apply bind_inv in H. destruct H as (q & s3 & E3 & H).
  apply bind_inv in H. destruct H as (v & s4 & E4 & H).
  injection H as <-.
  unfold Get_Resource_vector in E1. injection E1 as <- <-.
  unfold memo_emplace in E2. injection E2 as <-.
  unfold memo_subscript in E3. destruct (subscript 0 u _) as [q' m]. injection E3 as <- <-.
  unfold vec_read in E4. destruct (q' =? 0); [discriminate |].
  destruct (dVectors _ !! q'); [| discriminate]. injection E4 as <- <-.
  destruct slot; split; reflexivity.
Qed.

(** A single charged particle at the charged stage, for a use that has no
    results yet: the use gets the next vector of the pool, and the vector
    holds one combo for each track filed under the PID. *)
Lemma one_charged_particle_spec
    (locComboUseToCreate : DSourceComboUse) (s : Comboer)
    (locComboInfo : DSourceComboInfo) (locPID : Particle_t) (n : nat) :
  deref_info (use_info locComboUseToCreate) s = Some (locComboInfo, s) ->
  head (dNumParticles locComboInfo) = Some (locPID, n) ->
  ParticleCharge locPID <> 0%Z ->
  dSourceCombosByUse_Charged s !! locComboUseToCreate = None ->
  dNextVector s <> 0 ->
  exists s',
    Create_Combo_OneParticle locComboUseToCreate d_ChargedStage s = Some (tt, s') /\
    dSourceCombosByUse_Charged s' !! locComboUseToCreate = Some (dNextVector s) /\
    dVectors s' !! dNextVector s =
      Some (one_combos (dNextCombo s) locPID (default [] (dTracksByPID s !! locPID))) /\
    dNextCombo s' = dNextCombo s + length (default [] (dTracksByPID s !! locPID)).
Proof.
  intros Hinfo Hfront Hcharge Hnone Hnext.
  set (u := locComboUseToCreate) in *.
  set (slot := Get_CombosSoFar d_ChargedStage d_Neutral None).
  assert (Hslot : slot = Slot_Charged) by reflexivity.
  destruct (initialize_results_absent slot u s Hnone Hnext)
    as (s1 & E1 & S1 & V1 & N1 & C1 & M1).
  destruct (initialize_results_event _ _ _ _ E1) as [K1 T1].
  set (tracks := default [] (dTracksByPID s !! locPID)).
  set (s2 := set_dTracksByPID (snd (subscript [] locPID (dTracksByPID s1))) s1).
  assert (E2 : Particles.Get_ParticlesForComboing locPID d_ChargedStage []
                 (use_vertex_zbin u) s1 = Some (tracks, s2)).
  { unfold Particles.Get_ParticlesForComboing.
    rewrite bool_decide_eq_true_2 by exact Hcharge.
    subst s2 tracks. rewrite <- T1. unfold subscript.
    destruct (dTracksByPID s1 !! locPID); reflexivity. }
  assert (Hu2 : slot_map slot s2 !! u = Some (dNextVector s)).
  { change (slot_map slot s2) with (slot_map slot s1). rewrite S1. apply lookup_insert_eq. }
  assert (Hv2 : dVectors s2 !! dNextVector s = Some []).
  { change (dVectors s2) with (dVectors s1). rewrite V1. apply lookup_insert_eq. }
  destruct (one_loop_spec u locPID d_ChargedStage (use_vertex_zbin u) (dNextVector s)
              tracks Hnext [] s2 Hu2 Hv2 (or_introl eq_refl)) as (s' & E & A).
  assert (Hall : List.filter (one_kept d_ChargedStage locPID) tracks = tracks).
  { clear. induction tracks as [|t l IH]; [reflexivity |]. cbn. rewrite IH. reflexivity. }
  rewrite Hall in A.
  exists s'. split; [| split; [| split]].
  - unfold Create_Combo_OneParticle.
    rewrite (bind_Some _ _ _ _ _ Hinfo).
    unfold of_option at 1. rewrite Hfront. cbn [bind fst snd].
    unfold start_results. rewrite bool_decide_eq_false_2 by discriminate.
    fold slot. rewrite (bind_Some _ _ _ _ _ E1).
    rewrite (bind_Some _ _ _ _ _ E2). exact E.
  - pose proof (ap_slots _ _ _ _ _ A Slot_Charged) as Hs. cbn [slot_map] in Hs.
    rewrite Hs. exact Hu2.
  - rewrite (ap_vectors _ _ _ _ _ A). rewrite lookup_insert_eq. cbn [app].
    change (dNextCombo s2) with (dNextCombo s1). rewrite K1. reflexivity.
  - rewrite (ap_combo _ _ _ _ _ A), one_combos_length. change (dNextCombo s2) with (dNextCombo s1).
    rewrite K1. reflexivity.
Qed.

(** *** The presiding charged combo *)

Lemma nth_in_zbin_spec z inst v : forall cnt,
  nth_in_zbin z inst cnt v
  = if inst <=? cnt then None
    else List.filter (fun c => bool_decide (Get_VertexZBin c = z)) v !! (inst - cnt - 1).
Proof.
  induction v as [|c v IH]; intros cnt; cbn [nth_in_zbin List.filter].
  - destruct (inst <=? cnt); reflexivity.
  - destruct (decide (Get_VertexZBin c = z)) as [Hz | Hz].
    + rewrite (bool_decide_eq_false_2 (Get_VertexZBin c <> z)) by auto.
      rewrite (bool_decide_eq_true_2 _ Hz).
      destruct (Nat.eqb_spec (S cnt) inst) as [<- | Hne].
      * destruct (Nat.leb_spec (S cnt) cnt); [lia |].
        replace (S cnt - cnt - 1) with 0 by lia. reflexivity.
      * rewrite IH. destruct (Nat.leb_spec inst cnt), (Nat.leb_spec inst (S cnt));
          try lia; [reflexivity |].
        replace (inst - cnt - 1) with (S (inst - S cnt - 1)) by lia. reflexivity.
    + rewrite (bool_decide_eq_true_2 (Get_VertexZBin c <> z)) by exact Hz.
      rewrite (bool_decide_eq_false_2 _ Hz). apply IH.
Qed.

(** X17.  At the mixed stage, for a use that has both charges and whose
    z-independent use is a key of the presiding combo: the presiding combo of
    the next level is the [locInstance]-th, counted from one, of the combos
    stored under that key whose vertex-z bin is the one of the use, and
    [nullptr] when there are fewer; the state is left as it is. *)
Theorem presiding_is_nth_in_zbin
    (locChargedCombo_Presiding : DSourceCombo) (locNextComboUse locUseToFind : DSourceComboUse)
    (locInstance : nat) (s : Comboer) (locComboInfo : DSourceComboInfo)
    (locNextChargedComboVector : list DSourceCombo) :
  deref_info (use_info locNextComboUse) s = Some (locComboInfo, s) ->
  Get_ChargeContent locComboInfo = d_AllCharges ->
  dZDependentUseToIndependentMap s !! locNextComboUse = Some locUseToFind ->
  small_find locUseToFind (dFurtherDecayCombos locChargedCombo_Presiding)
    = Some locNextChargedComboVector ->
  1 <= locInstance ->
  Get_Presiding_ChargedCombo (Some locChargedCombo_Presiding) locNextComboUse
                             d_MixedStage locInstance s
  = Some (List.filter
            (fun c => bool_decide (Get_VertexZBin c = use_vertex_zbin locNextComboUse))
            locNextChargedComboVector !! (locInstance - 1), s).
Proof.
  intros Hinfo Hall Hmap Hfind Hinst.
  unfold Get_Presiding_ChargedCombo.
  rewrite bool_decide_eq_false_2 by discriminate.
  rewrite (bind_Some _ _ _ _ _ Hinfo).
  rewrite bool_decide_eq_false_2 by (intros H; apply H; exact Hall).
  rewrite (bool_decide_eq_false_2 (d_MixedStage = d_MixedStage_ZIndependent)) by discriminate.
  unfold bind at 1. rewrite Hmap, Hfind.
  unfold ret. rewrite nth_in_zbin_spec.
  destruct (Nat.leb_spec locInstance 0); [lia |].
  rewrite Nat.sub_0_r. reflexivity.
Qed.

(** *** Registering a combo and finding it again *)

Lemma charge_content_frame p s :
  exists s', charge_content p s = Some (content_of s p, s') /\
    (forall q, content_of s' q = content_of s q) /\
    dSourceCombosByBeamBunchByUse s' = dSourceCombosByBeamBunchByUse s.
Proof.
  unfold charge_content, content_of, subscript.
  destruct (Registry.dComboInfoChargeContent (dRegistry s) !! p) as [c|] eqn:E.
  - eexists. split; [reflexivity |]. split; reflexivity.
  - eexists. split; [reflexivity |]. split; [| reflexivity].
    intros q. cbn.
    destruct (decide (p = q)) as [->|Hne].
    + rewrite lookup_insert_eq, E. reflexivity.
    + rewrite lookup_insert_ne by exact Hne. reflexivity.
Qed.

Lemma bybunch_get_set k u m s : bybunch_get k u (bybunch_set k u m s) = m.
Proof.
  unfold bybunch_get, bybunch_set. cbn [dSourceCombosByBeamBunchByUse set_dSourceCombosByBeamBunchByUse].
  rewrite lookup_insert_eq. simpl. rewrite lookup_insert_eq. reflexivity.
Qed.

Lemma register_loop_spec k u c z (b : Z) (l : list Z) : forall s,
  exists s',
    for_each l (fun locBeamBunch =>
      do n <- (fun s =>
          let m := bybunch_get k u s in
          let locComboVector := fst (subscript [] [locBeamBunch] m) ++ [c] in
          Some (length locComboVector,
                bybunch_set k u (<[ [locBeamBunch] := locComboVector ]> m) s));
      resume_iterator_emplace c z [locBeamBunch] (n - 1)) s = Some (tt, s') /\
    (forall q, content_of s' q = content_of s q) /\
    bybunch_get k u s' !! [b]
    = match length (List.filter (fun x => bool_decide (x = b)) l) with
      | 0 => bybunch_get k u s !! [b]
      | S n => Some (default [] (bybunch_get k u s !! [b]) ++ replicate (S n) c)
      end.
Proof.
  induction l as [|x l IH]; intros s.
  - exists s. split; [reflexivity |]. split; reflexivity.
  - cbn [for_each].
    set (m := bybunch_get k u s).
    set (vec := fst (subscript [] [x] m) ++ [c]).
    set (s1 := bybunch_set k u (<[ [x] := vec ]> m) s).
    set (s2 := set_dResumeSearchAfterIterators_Combos
                 (<[(combo_addr c, z) :=
                      emplace [x] (length vec - 1)
                        (default ∅ (dResumeSearchAfterIterators_Combos s1 !! (combo_addr c, z)))]>
                    (dResumeSearchAfterIterators_Combos s1)) s1).
    destruct (IH s2) as (s' & E & C & B).
    exists s'. split; [| split].
    + unfold bind at 1. unfold bind at 1. fold m. cbv zeta. fold vec. fold s1.
      unfold resume_iterator_emplace. cbv zeta. fold s2. exact E.
    + intros q. rewrite C. reflexivity.
    + rewrite B.
      assert (G : bybunch_get k u s2 = <[ [x] := vec ]> m).
      { change (bybunch_get k u s2) with (bybunch_get k u s1). apply bybunch_get_set. }
      rewrite G. cbn [List.filter].
      destruct (decide (x = b)) as [-> | Hne].
      * rewrite bool_decide_eq_true_2 by reflexivity.
        rewrite lookup_insert_eq. cbn [length default].
        assert (Hvec : vec = default [] (m !! [b]) ++ [c]).
        { subst vec. unfold subscript. destruct (m !! [b]); reflexivity. }
        destruct (length (List.filter (fun x => bool_decide (x = b)) l)) as [|n].
        -- rewrite Hvec. reflexivity.
        -- rewrite Hvec. simpl. rewrite <- app_assoc. reflexivity.
      * rewrite bool_decide_eq_false_2 by exact Hne.
        rewrite lookup_insert_ne by congruence. reflexivity.
Qed.

(** X18.  A combo registered at a mixed stage, for a use that is not fully
    charged, with a bunch set that holds [b], is found again by
    [Get_CombosForComboing] asked for the single bunch [b]: the request
    returns the combos found there before followed by the new combo, once for
    each time [b] is in the set. *)
Theorem registered_combo_found_by_bunch
    (locSourceComboUse : DSourceComboUse) (locSourceCombo : DSourceCombo)
    (locRFBunches : list Z) (locComboingStage : ComboingStage_t)
    (locChargedCombo_WithNow : option DSourceCombo) (b : Z) (s : Comboer) :
  locComboingStage <> d_ChargedStage ->
  content_of s (use_info locSourceComboUse) <> d_Charged ->
  b ∈ locRFBunches ->
  let k := Get_SourceCombosByBeamBunchByUse (content_of s (use_info locSourceComboUse))
             locChargedCombo_WithNow in
  exists s1 s2,
    Register_ValidRFBunches locSourceComboUse locSourceCombo locRFBunches locComboingStage
                            locChargedCombo_WithNow s = Some (tt, s1) /\
    Get_CombosForComboing locSourceComboUse locComboingStage [b] locChargedCombo_WithNow s1
    = Some (default [] (bybunch_get k locSourceComboUse s !! [b])
            ++ replicate (length (List.filter (fun x => bool_decide (x = b)) locRFBunches)) locSourceCombo, s2).
Proof.
  intros Hstage Hcontent Hb k.
  set (u := locSourceComboUse) in *. set (c := locSourceCombo).
  set (s0 := set_dValidRFBunches_ByCombo
               (emplace (combo_addr c) locRFBunches (dValidRFBunches_ByCombo s)) s).
  destruct (charge_content_frame (use_info u) s0) as (sa & Ea & Ca & Ba).
  change (content_of s0 (use_info u)) with (content_of s (use_info u)) in Ea.
  destruct (register_loop_spec k u c (use_vertex_zbin u) b locRFBunches sa)
    as (sb & Eb & Cb & Bb).
  assert (Hcount : exists n, length (List.filter (fun x => bool_decide (x = b)) locRFBunches) = S n).
  { apply list_elem_of_In in Hb.
    assert (Hin : In b (List.filter (fun x => bool_decide (x = b)) locRFBunches))
      by (apply filter_In; split; [exact Hb | apply bool_decide_eq_true_2; reflexivity]).
    destruct (List.filter (fun x => bool_decide (x = b)) locRFBunches); [destruct Hin | eexists; reflexivity]. }
  destruct Hcount as [n Hn].
  assert (Hne : locRFBunches <> []) by (intros ->; inversion Hb).
  exists sb.
  destruct (charge_content_frame (use_info u) sb) as (sc & Ec & Cc & Bc).
  assert (Hcb : content_of sb (use_info u) = content_of s (use_info u)).
  { rewrite Cb, Ca. reflexivity. }
  rewrite Hcb in Ec.
  assert (Hm : bybunch_get k u sc !! [b]
               = Some (default [] (bybunch_get k u s !! [b]) ++ replicate (S n) c)).
  { unfold bybunch_get at 1. rewrite Bc. fold (bybunch_get k u sb).
    rewrite Bb, Hn. unfold bybunch_get at 1 2. rewrite Ba. reflexivity. }
  eexists. split.
  - unfold Register_ValidRFBunches.
    rewrite (bind_Some _ _ s tt s0) by reflexivity.
    rewrite (bool_decide_eq_true_2 _ Hstage).
    rewrite (bool_decide_eq_false_2 _ Hne).
    rewrite (bind_Some _ _ s0 tt sb); [reflexivity |].
    rewrite (bind_Some _ _ _ _ _ Ea). exact Eb.
  - unfold Get_CombosForComboing.
    rewrite (bind_Some _ _ _ _ _ Ec).
    rewrite (bool_decide_eq_false_2 ([b] = [])) by discriminate.
    rewrite (bool_decide_eq_false_2 _ Hcontent). cbn [orb].
    fold k. rewrite Hm, Hn. reflexivity.
Qed.

(** *** The orchestration *)

Lemma deref_info_infos p s s' info :
  infos_of s' = infos_of s ->
  deref_info p s = Some (info, s) -> deref_info p s' = Some (info, s').
Proof.
  unfold deref_info, infos_of. intros ->.
  destruct (List.find _ _); intros [=]; subst. reflexivity.
Qed.

Lemma keeps_ret {A} (a : A) : keeps_infos (ret a).
Proof. intros s b s' [= <- <-]. reflexivity. Qed.

Lemma keeps_bind {A B} (m : M A) (k : A -> M B) :
  keeps_infos m -> (forall a, keeps_infos (k a)) -> keeps_infos (bind m k).
Proof.
  intros Hm Hk s b s' H. apply bind_inv in H. destruct H as (a & s1 & E1 & E2).
  rewrite (Hk a _ _ _ E2). exact (Hm _ _ _ E1).
Qed.

Lemma keeps_for_each {A} (l : list A) (body : A -> M unit) :
  (forall x, keeps_infos (body x)) -> keeps_infos (for_each l body).
Proof.
  intros Hb. induction l as [|x l IH]; cbn [for_each].
  - apply keeps_ret.
  - apply keeps_bind; [apply Hb | intros _; exact IH].
Qed.

Lemma keeps_if {A} (b : bool) (m1 m2 : M A) :
  keeps_infos m1 -> keeps_infos m2 -> keeps_infos (if b then m1 else m2).
Proof. destruct b; auto. Qed.

Lemma keeps_undefined {A} : keeps_infos (@undefined A).
Proof. intros s a s' [=]. Qed.

Lemma keeps_charge_content p : keeps_infos (charge_content p).
Proof.
  intros s a s'. unfold charge_content.
  destruct (subscript _ _ _) as [c m]. intros [= <- <-]. reflexivity.
Qed.

Lemma keeps_memo_subscript slot u : keeps_infos (memo_subscript slot u).
Proof.
  intros s a s'. unfold memo_subscript.
  destruct (subscript _ _ _) as [c m]. intros [= <- <-]. destruct slot; reflexivity.
Qed.

Lemma keeps_memo_emplace slot u p : keeps_infos (memo_emplace slot u p).
Proof. intros s a s' [= <- <-]. destruct slot; reflexivity. Qed.

Lemma keeps_memo_contains slot u : keeps_infos (memo_contains slot u).
Proof. intros s a s' [= <- <-]. reflexivity. Qed.

Lemma keeps_vec_read p : keeps_infos (vec_read p).
Proof.
  intros s a s'. unfold vec_read. destruct (p =? 0); [discriminate |].
  destruct (dVectors s !! p); intros [= <- <-]. reflexivity.
Qed.

Lemma keeps_deref_info p : keeps_infos (deref_info p).
Proof. intros s a s' H. apply deref_info_state in H. subst. reflexivity. Qed.

Lemma keeps_save_combo slot u c : keeps_infos (save_combo slot u c).
Proof.
  unfold save_combo, vec_push_back.
  apply keeps_bind; [apply keeps_memo_subscript | intros p].
  apply keeps_bind; [apply keeps_vec_read | intros v].
  intros s a s' [= <- <-]. reflexivity.
Qed.

Lemma keeps_resume_iterator_emplace c z b it :
  keeps_infos (resume_iterator_emplace c z b it).
Proof. intros s a s' [= <- <-]. reflexivity. Qed.

Lemma keeps_Register_ValidRFBunches u c bunches stage charged :
  keeps_infos (Register_ValidRFBunches u c bunches stage charged).
Proof.
  unfold Register_ValidRFBunches.
  apply keeps_bind; [intros s a s' [= <- <-]; reflexivity | intros _].
  apply keeps_bind.
  - apply keeps_if; [| apply keeps_ret].
    apply keeps_bind; [apply keeps_charge_content | intros content].
    apply keeps_for_each. intros b.
    apply keeps_bind; [intros s a s' [= <- <-]; reflexivity | intros n].
    apply keeps_resume_iterator_emplace.
  - intros _. apply keeps_if; [| apply keeps_ret].
    apply keeps_bind; [apply keeps_charge_content | intros content].
    apply keeps_bind; [apply keeps_memo_subscript | intros p].
    apply keeps_bind; [apply keeps_vec_read | intros v].
    destruct v; [apply keeps_undefined | apply keeps_resume_iterator_emplace].
Qed.

Lemma keeps_pair_body u pid stage z slot first bunches second :
  keeps_infos (pair_body u pid stage z slot first bunches second).
Proof.
  unfold pair_body.
  apply keeps_if; [apply keeps_ret |].
  apply keeps_if; [apply keeps_ret |].
  apply keeps_bind; [intros s a s' [= <- <-]; reflexivity | intros c].
  apply keeps_bind; [apply keeps_save_combo | intros _].
  apply keeps_bind; [apply keeps_Register_ValidRFBunches | intros _].
  intros s a s' [= <- <-]. reflexivity.
Qed.

Lemma keeps_pair_loop u pid stage z slot l :
  keeps_infos (pair_loop u pid stage z slot l).
Proof.
  induction l as [|first rest IH]; [apply keeps_ret |].
  destruct rest as [|second rest']; [apply keeps_ret |].
  rewrite pair_loop_cons.
  apply keeps_bind; [| intros _; exact IH].
  apply keeps_for_each. intros x. apply keeps_pair_body.
Qed.

(** Reading the charge content of an info changes nothing of the event. *)
Lemma charge_content_event p s :
  exists s', charge_content p s = Some (content_of s p, s') /\
    same_tables s s' /\ infos_of s' = infos_of s /\
    dTracksByPID s' = dTracksByPID s.
Proof.
  destruct (charge_content_spec p s) as (s' & E & T).
  exists s'. split; [exact E |]. split; [exact T |].
  split; [exact (keeps_charge_content p _ _ _ E) |].
  unfold charge_content in E. destruct (subscript _ _ _) as [c m].
  injection E as _ <-. reflexivity.
Qed.

(** With no further decay there is nothing to combo vertically among the
    decays. *)
Lemma AllDecays_no_decays fuel u stage presiding info s :
  deref_info (use_info u) s = Some (info, s) -> dFurtherDecays info = [] ->
  exists s', Combo_Vertically_AllDecays (S fuel) u stage presiding s = Some (tt, s') /\
    same_tables s s' /\ infos_of s' = infos_of s /\ dTracksByPID s' = dTracksByPID s.
Proof.
  intros Hinfo Hfd. cbn [Combo_Vertically_AllDecays].
  destruct (charge_content_event (use_info u) s) as (s' & E & T & I & K).
  exists s'. rewrite (bind_Some _ _ _ _ _ E).
  rewrite (bind_Some _ _ _ _ _ (deref_info_infos _ _ _ _ I Hinfo)).
  rewrite Hfd. split; [reflexivity | auto].
Qed.

Lemma keeps_initialize_results slot u : keeps_infos (initialize_results slot u).
Proof.
  unfold initialize_results.
  apply keeps_bind; [intros s a s' [= <- <-]; reflexivity | intros p].
  apply keeps_bind; [apply keeps_memo_emplace | intros _].
  apply keeps_bind; [apply keeps_memo_subscript | intros q].
  apply keeps_bind; [apply keeps_vec_read | intros v]. apply keeps_ret.
Qed.

Lemma filter_all {A} (f : A -> bool) (l : list A) :
  (forall x, f x = true) -> List.filter f l = l.
Proof.
  intros Hf. induction l as [|x l IH]; [reflexivity |].
  cbn. rewrite Hf, IH. reflexivity.
Qed.

(** X21.  The whole of the orchestration for a use that is one charged particle,
    at the charged stage, on an event where the use has no results yet:
    nothing is done vertically, and horizontally the use gets the next
    vector of the pool, holding one combo for each track filed under the PID,
    in the order of the tracks, each with that track as its only member. *)
Theorem single_charged_particle_use
    (locComboUseToCreate : DSourceComboUse) (locChargedCombo_Presiding : option DSourceCombo)
    (s : Comboer) (locComboInfo : DSourceComboInfo) (locPID : Particle_t) (fuel : nat) :
  deref_info (use_info locComboUseToCreate) s = Some (locComboInfo, s) ->
  dNumParticles locComboInfo = [(locPID, 1)] ->
  dFurtherDecays locComboInfo = [] ->
  ParticleCharge locPID <> 0%Z ->
  dSourceCombosByUse_Charged s !! locComboUseToCreate = None ->
  dNextVector s <> 0 ->
  1 <= fuel ->
  exists s',
    Create_SourceCombos_Unknown_steps fuel locComboUseToCreate d_ChargedStage
                                      locChargedCombo_Presiding s = Some (tt, s') /\
    dSourceCombosByUse_Charged s' !! locComboUseToCreate = Some (dNextVector s) /\
    dVectors s' !! dNextVector s =
      Some (one_combos (dNextCombo s) locPID (default [] (dTracksByPID s !! locPID))).
Proof.
  intros Hinfo Hnp Hfd Hcharge Hnone Hnext Hfuel.
  destruct fuel as [|f]; [lia |].
  set (u := locComboUseToCreate) in *.
  destruct (AllDecays_no_decays f u d_ChargedStage locChargedCombo_Presiding
              locComboInfo s Hinfo Hfd) as (sa & Ea & Ta & Ia & Ka).
  pose proof (deref_info_infos _ _ _ _ Ia Hinfo) as Hinfo_a.
  assert (Eap : Combo_Vertically_AllParticles (S f) u d_ChargedStage sa = Some (tt, sa)).
  { cbn [Combo_Vertically_AllParticles]. rewrite (bind_Some _ _ _ _ _ Hinfo_a).
    rewrite Hnp. reflexivity. }
  destruct (one_charged_particle_spec u sa locComboInfo locPID 1 Hinfo_a)
    as (s' & E & Hu & Hv & _).
  { rewrite Hnp. reflexivity. }
  { exact Hcharge. }
  { pose proof (st_slots _ _ Ta Slot_Charged) as H. cbn [slot_map] in H.
    rewrite H. exact Hnone. }
  { rewrite (st_next _ _ Ta). exact Hnext. }
  rewrite (st_next _ _ Ta) in Hu, Hv. rewrite (st_combo _ _ Ta), Ka in Hv.
  exists s'. split; [| split; [exact Hu | exact Hv]].
  unfold Create_SourceCombos_Unknown_steps.
  rewrite (bind_Some _ _ _ _ _ Ea).
  rewrite bool_decide_eq_true_2 by reflexivity.
  rewrite (bind_Some _ _ sa true sa) by reflexivity.
  rewrite (bind_Some _ _ _ _ _ Eap).
  cbn [Combo_Horizontally_All]. rewrite (bind_Some _ _ _ _ _ Hinfo_a).
  rewrite Hnp, Hfd.
  rewrite (bool_decide_eq_false_2 ([(locPID, 1)] = [])) by discriminate.
  rewrite (bool_decide_eq_true_2 ([] = [])) by reflexivity.
  cbn [andb length Nat.eqb head of_option bind fst snd Nat.ltb Nat.leb].
  rewrite (bool_decide_eq_false_2 _ Hcharge), andb_false_r.
  exact E.
Qed.

(** X22.  The whole of the orchestration for a use that is two charged particles
    of one kind, at the charged stage, on an event with at least one track
    of that kind and where the use has no results yet: vertically, the use
    gets the next vector of the pool, holding one combo for each pair of
    tracks filed under the PID, in the order first track, then second
    track; horizontally nothing is added. *)
Theorem pair_of_charged_particles_use
    (locComboUseToCreate : DSourceComboUse) (locChargedCombo_Presiding : option DSourceCombo)
    (s : Comboer) (locComboInfo : DSourceComboInfo) (locPID : Particle_t) (fuel : nat) :
  let tracks := default [] (dTracksByPID s !! locPID) in
  deref_info (use_info locComboUseToCreate) s = Some (locComboInfo, s) ->
  dNumParticles locComboInfo = [(locPID, 2)] ->
  dFurtherDecays locComboInfo = [] ->
  ParticleCharge locPID <> 0%Z ->
  dSourceCombosByUse_Charged s !! locComboUseToCreate = None ->
  dNextVector s <> 0 ->
  tracks <> [] ->
  1 <= fuel ->
  exists s',
    Create_SourceCombos_Unknown_steps fuel locComboUseToCreate d_ChargedStage
                                      locChargedCombo_Presiding s = Some (tt, s') /\
    dSourceCombosByUse_Charged s' !! locComboUseToCreate = Some (dNextVector s) /\
    dVectors s' !! dNextVector s =
      Some (pair_combos (dNextCombo s) d_ChargedStage locPID (pairs_of tracks)).
Proof.
  intros tracks Hinfo Hnp Hfd Hcharge Hnone Hnext Htracks Hfuel.
  destruct fuel as [|f]; [lia |].
  set (u := locComboUseToCreate) in *.
  assert (Hgamma : locPID <> Gamma) by (intros ->; apply Hcharge; reflexivity).
  destruct (AllDecays_no_decays f u d_ChargedStage locChargedCombo_Presiding
              locComboInfo s Hinfo Hfd) as (sa & Ea & Ta & Ia & Ka).
  pose proof (deref_info_infos _ _ _ _ Ia Hinfo) as Hinfo_a.
  assert (Hnone_a : slot_map Slot_Charged sa !! u = None).
  { rewrite (st_slots _ _ Ta). exact Hnone. }
  assert (Hnext_a : dNextVector sa <> 0) by (rewrite (st_next _ _ Ta); exact Hnext).
  (* the results are started *)
  destruct (initialize_results_absent Slot_Charged u sa Hnone_a Hnext_a)
    as (s1 & E1 & S1 & V1 & N1 & C1 & M1).
  destruct (initialize_results_event _ _ _ _ E1) as [K1 T1].
  pose proof (keeps_initialize_results _ _ _ _ _ E1) as I1.
  (* the tracks are fetched *)
  set (s2 := set_dTracksByPID (snd (subscript [] locPID (dTracksByPID s1))) s1).
  assert (E2 : Particles.Get_ParticlesForComboing locPID d_ChargedStage []
                 (use_vertex_zbin u) s1 = Some (tracks, s2)).
  { unfold Particles.Get_ParticlesForComboing.
    rewrite bool_decide_eq_true_2 by exact Hcharge.
    subst s2 tracks. rewrite <- Ka, <- T1. unfold subscript.
    destruct (dTracksByPID s1 !! locPID); reflexivity. }
  assert (Hu2 : slot_map Slot_Charged s2 !! u = Some (dNextVector sa)).
  { change (slot_map Slot_Charged s2) with (slot_map Slot_Charged s1).
    rewrite S1. apply lookup_insert_eq. }
  assert (Hv2 : dVectors s2 !! dNextVector sa = Some []).
  { change (dVectors s2) with (dVectors s1). rewrite V1. apply lookup_insert_eq. }
  (* the pairs are made *)
  destruct (pair_loop_spec u locPID d_ChargedStage (use_vertex_zbin u) (dNextVector sa)
              tracks Hnext_a [] s2 Hu2 Hv2 (or_introl eq_refl)) as (s' & E & A).
  pose proof (keeps_pair_loop _ _ _ _ _ _ _ _ _ E) as I'.
  assert (Hall : List.filter (pair_kept d_ChargedStage locPID (use_vertex_zbin u))
                             (pairs_of tracks) = pairs_of tracks).
  { apply filter_all. intros p. unfold pair_kept.
    rewrite (bool_decide_eq_false_2 (d_ChargedStage = d_MixedStage)) by discriminate.
    rewrite (bool_decide_eq_false_2 _ Hgamma). reflexivity. }
  rewrite Hall in A.
  assert (Enp : Combo_Vertically_NParticles u (MkUse Unknown 0 0) d_ChargedStage sa
                = Some (tt, s')).
  { unfold Combo_Vertically_NParticles.
    rewrite (bind_Some _ _ _ _ _ Hinfo_a).
    unfold of_option at 1. rewrite Hnp. cbn [list.last bind fst snd].
    unfold start_results. rewrite bool_decide_eq_false_2 by discriminate.
    change (Get_CombosSoFar d_ChargedStage d_Neutral None) with Slot_Charged.
    rewrite (bind_Some _ _ _ _ _ E1). cbn [Nat.eqb].
    rewrite (bind_Some _ _ _ _ _ E2).
    destruct tracks; [contradiction | exact E]. }
  assert (Eap : Combo_Vertically_AllParticles (S f) u d_ChargedStage sa = Some (tt, s')).
  { cbn [Combo_Vertically_AllParticles]. rewrite (bind_Some _ _ _ _ _ Hinfo_a).
    rewrite Hnp, Hfd. cbn [for_each fst snd Nat.eqb length Nat.ltb Nat.leb].
    rewrite (bool_decide_eq_false_2 _ Hcharge), andb_false_r.
    rewrite (bool_decide_eq_true_2 ([] = [])) by reflexivity. cbn [negb orb].
    match goal with
    | |- bind ?m _ sa = _ => assert (Hin : m sa = Some (tt, s'))
    end.
    { rewrite (bind_Some _ _ sa u sa) by reflexivity.
      change (Get_CombosSoFar d_ChargedStage d_Neutral None) with Slot_Charged.
      rewrite (bind_Some _ _ sa false sa)
        by (unfold memo_contains; rewrite Hnone_a; reflexivity).
      exact Enp. }
    rewrite (bind_Some _ _ _ _ _ Hin). reflexivity. }
  assert (Hinfo' : deref_info (use_info u) s' = Some (locComboInfo, s')).
  { apply (deref_info_infos _ sa); [| exact Hinfo_a].
    rewrite I'. change (infos_of s2) with (infos_of s1). exact I1. }
  exists s'. split; [| split].
  - unfold Create_SourceCombos_Unknown_steps.
    rewrite (bind_Some _ _ _ _ _ Ea).
    rewrite bool_decide_eq_true_2 by reflexivity.
    rewrite (bind_Some _ _ sa true sa) by reflexivity.
    rewrite (bind_Some _ _ _ _ _ Eap).
    cbn [Combo_Horizontally_All]. rewrite (bind_Some _ _ _ _ _ Hinfo').
    rewrite Hnp, Hfd.
    rewrite (bool_decide_eq_false_2 ([(locPID, 2)] = [])) by discriminate.
    rewrite (bool_decide_eq_true_2 ([] = [])) by reflexivity.
    reflexivity.
  - pose proof (ap_slots _ _ _ _ _ A Slot_Charged) as H. cbn [slot_map] in H.
    rewrite H. rewrite <- (st_next _ _ Ta). exact Hu2.
  - rewrite <- (st_next _ _ Ta), (ap_vectors _ _ _ _ _ A), lookup_insert_eq. cbn [app].
    change (dNextCombo s2) with (dNextCombo s1).
    rewrite K1, (st_combo _ _ Ta). reflexivity.
Qed.

(** *** Vertical comboing of decays keeps the leaves apart *)

Lemma used_particles_leaves c :
  Get_SourceParticles_objects (Get_SourceParticles true c) Unknown = leaves c.
Proof.
  unfold Get_SourceParticles_objects, Get_SourceParticles, leaves.
  rewrite bool_decide_eq_true_2 by reflexivity. cbn [orb]. f_equal.
  induction (Get_SourceParticles_chain c) as [|p l IH]; [reflexivity |].
  rewrite filter_cons_True by exact I. rewrite IH. reflexivity.
Qed.

(** X15.  One candidate of the inner loop of [Combo_Vertically_NDecays], for a
    combo of N - 1 decays that holds nothing but decays of the use (as the
    function itself builds them) and a candidate, neither with a repeated
    leaf: the step is defined and saves at most one combo; a combo it saves
    has the leaves of the two and no repeated leaf. *)
Theorem decay_body_keeps_leaves_apart
    (locComboUseToCreate locSourceComboDecayUse : DSourceComboUse) (locNIs2Flag : bool)
    (locComboingStage : ComboingStage_t) (locChargedCombo_WithNow : option DSourceCombo)
    (locCombo_NMinus1 locDecayCombo_1 : DSourceCombo) (locValidRFBunches_NMinus1 : list Z)
    (q : VecPtr) (acc : list DSourceCombo) (s : Comboer) :
  let slot := Get_CombosSoFar locComboingStage
                (content_of s (use_info locComboUseToCreate)) locChargedCombo_WithNow in
  q <> 0 ->
  slot_map slot s !! locComboUseToCreate = Some q ->
  dVectors s !! q = Some acc ->
  NoDup (leaves locCombo_NMinus1) ->
  NoDup (leaves locDecayCombo_1) ->
  (locNIs2Flag = false ->
   dSourceParticles locCombo_NMinus1 = [] /\
   exists v, dFurtherDecayCombos locCombo_NMinus1 = [(locSourceComboDecayUse, v)]) ->
  exists s' new,
    decay_body locComboUseToCreate locSourceComboDecayUse locNIs2Flag locComboingStage slot
      locChargedCombo_WithNow locCombo_NMinus1 locValidRFBunches_NMinus1
      (Get_SourceParticles_objects (Get_SourceParticles true locCombo_NMinus1) Unknown)
      locDecayCombo_1 s = Some (tt, s') /\
    appended q acc new s s' /\
    length new <= 1 /\
    forall c, c ∈ new ->
      leaves c = leaves locCombo_NMinus1 ++ leaves locDecayCombo_1 /\ NoDup (leaves c).
Proof.
  intros slot Hq Hu Hv HndX HndY Hshape.
  set (u := locComboUseToCreate) in *. set (X := locCombo_NMinus1) in *.
  set (Y := locDecayCombo_1) in *.
  unfold decay_body.
  destruct (bool_decide (locComboingStage = d_MixedStage)
            && (dIsComboingZIndependent X && dIsComboingZIndependent Y)).
  { exists s, []. split; [reflexivity |]. split; [apply appended_nil; exact Hv |].
    split; [cbn; lia |]. intros c Hc. inversion Hc. }
  destruct (Search_Duplicates _ Y) eqn:Hdup.
  { exists s, []. split; [reflexivity |]. split; [apply appended_nil; exact Hv |].
    split; [cbn; lia |]. intros c Hc. inversion Hc. }
  assert (Hapart : forall x, x ∈ leaves X -> x ∉ leaves Y).
  { intros x HX HY.
    assert (Ht : Search_Duplicates
                   (Get_SourceParticles_objects (Get_SourceParticles true X) Unknown) Y
                 = true).
    { apply Search_Duplicates_leaves. exists x. split; [exact HY |].
      rewrite used_particles_leaves. exact HX. }
    congruence. }
  destruct (valid_bunches_spec Y s) as (bunches & s0 & E0 & T0).
  rewrite (bind_Some _ _ _ _ _ E0).
  set (all := if locNIs2Flag then [X; Y]
              else default [] (small_find locSourceComboDecayUse (dFurtherDecayCombos X))
                   ++ [Y]).
  set (zi := dIsComboingZIndependent X && dIsComboingZIndependent Y).
  set (c := MkCombo (dNextCombo s0) [] [(locSourceComboDecayUse, all)] zi).
  set (s1 := set_dNextCombo (S (dNextCombo s0)) s0).
  rewrite (bind_Some _ _ s0 c s1) by reflexivity.
  assert (Hu1 : slot_map slot s1 !! u = Some q).
  { change (slot_map slot s1) with (slot_map slot s0). rewrite (st_slots _ _ T0). exact Hu. }
  assert (Hv1 : dVectors s1 !! q = Some acc).
  { change (dVectors s1) with (dVectors s0). rewrite (st_vectors _ _ T0). exact Hv. }
  destruct (save_combo_keeps slot u q acc c s1 Hu1 Hq Hv1) as (s2 & E2 & S2 & V2 & N2 & C2).
  rewrite (bind_Some _ _ _ _ _ E2).
  destruct (Register_ValidRFBunches_spec u c
              (Get_CommonRFBunches locValidRFBunches_NMinus1 bunches) locComboingStage
              locChargedCombo_WithNow q (acc ++ [c]) s2) as (s3 & E3 & T3).
  { rewrite C2. change (content_of s1 (use_info u)) with (content_of s0 (use_info u)).
    rewrite (st_content _ _ T0). fold slot. rewrite S2. exact Hu1. }
  { exact Hq. }
  { rewrite V2. apply lookup_insert_eq. }
  { destruct acc; discriminate. }
  rewrite (bind_Some _ _ _ _ _ E3).
  set (s4 := set_dResumeSearchAfterMap_Combos _ s3).
  assert (T4 : same_tables s3 s4) by (split; reflexivity).
  pose proof (same_tables_trans _ _ _ T3 T4) as T24.
  exists s4, [c]. split; [reflexivity |]. split; [| split; [cbn; lia |]].
  - split.
    + intros slot'. rewrite (st_slots _ _ T24), S2.
      change (slot_map slot' s1) with (slot_map slot' s0). apply (st_slots _ _ T0).
    + rewrite (st_vectors _ _ T24), V2.
      change (dVectors s1) with (dVectors s0). rewrite (st_vectors _ _ T0). reflexivity.
    + rewrite (st_combo _ _ T24), N2. cbn. rewrite (st_combo _ _ T0). lia.
    + intros p. rewrite (st_content _ _ T24), C2.
      change (content_of s1 p) with (content_of s0 p). apply (st_content _ _ T0).
  - intros c' Hc'. apply list_elem_of_singleton in Hc'. subst c'.
    assert (Hleaves : leaves c = leaves X ++ leaves Y).
    { rewrite (leaves_members c). unfold leaves_of_members.
      cbn [fst snd map flat_map dSourceParticles dFurtherDecayCombos c app].
      rewrite app_nil_r. subst all. destruct locNIs2Flag.
      - cbn [flat_map]. rewrite app_nil_r. reflexivity.
      - destruct (Hshape eq_refl) as (Hps & v & Hfd).
        rewrite (leaves_members X). unfold leaves_of_members. rewrite Hps, Hfd.
        unfold small_find. cbn [List.find fst snd].
        rewrite bool_decide_eq_true_2 by reflexivity.
        cbn [fmap option_fmap option_map default map flat_map app snd fst].
        rewrite flat_map_app. cbn [flat_map]. rewrite !app_nil_r. reflexivity. }
    split; [exact Hleaves |].
    rewrite Hleaves. apply list.NoDup_app. split; [exact HndX |]. split; [exact Hapart | exact HndY].
Qed.

(** *** Copying the z-independent results *)

Lemma memo_subscript_absent slot u s :
  slot_map slot s !! u = None ->
  memo_subscript slot u s
  = Some (0, set_slot_map slot (<[u := 0]> (slot_map slot s)) s).
Proof. intros E. unfold memo_subscript, subscript. rewrite E. reflexivity. Qed.

Lemma vec_read_null s : vec_read 0 s = None.
Proof. reflexivity. Qed.

Lemma resume_iterator_emplace_spec c z b it s :
  exists s', resume_iterator_emplace c z b it s = Some (tt, s') /\ same_tables s s'.
Proof. eexists. split; [reflexivity |]. split; reflexivity. Qed.

(** X19.  [Copy_ZIndependentMixedResults] when the z-independent use and the use
    to create both have their vector: the call is defined, the vector of the
    use to create is made a copy of that of the z-independent use, the same
    combos in the same order, and no other vector and no table of results
    changes. *)
Theorem copy_of_zindependent_results
    (locComboUseToCreate : DSourceComboUse) (locChargedCombo_WithNow : option DSourceCombo)
    (s : Comboer) (pF pB : VecPtr) (locFCALComboVector locBothComboVector : list DSourceCombo) :
  let slot := Get_CombosSoFar d_MixedStage (content_of s (use_info locComboUseToCreate))
                              locChargedCombo_WithNow in
  let locComboUseFCAL :=
    MkUse (use_decay_pid locComboUseToCreate) Get_VertexZIndex_ZIndependent
          (use_info locComboUseToCreate) in
  slot_map slot s !! locComboUseFCAL = Some pF -> pF <> 0 ->
  dVectors s !! pF = Some locFCALComboVector ->
  slot_map slot s !! locComboUseToCreate = Some pB -> pB <> 0 ->
  dVectors s !! pB = Some locBothComboVector ->
  exists s',
    Copy_ZIndependentMixedResults locComboUseToCreate locChargedCombo_WithNow s
    = Some (tt, s') /\
    dVectors s' = <[pB := locFCALComboVector]> (dVectors s) /\
    forall slot', slot_map slot' s' = slot_map slot' s.
Proof.
  intros slot uF HF HpF HvF HB HpB HvB.
  set (u := locComboUseToCreate) in *.
  unfold Copy_ZIndependentMixedResults.
  destruct (charge_content_spec (use_info u) s) as (sa & Ea & Ta).
  rewrite (bind_Some _ _ _ _ _ Ea). cbv zeta. fold u. fold slot. fold uF.
  assert (HFa : slot_map slot sa !! uF = Some pF) by (rewrite (st_slots _ _ Ta); exact HF).
  destruct (memo_subscript_present _ _ _ _ HFa) as (sb & Eb & Tb).
  rewrite (bind_Some _ _ _ _ _ Eb).
  pose proof (same_tables_trans _ _ _ Ta Tb) as Tab.
  rewrite (bind_Some _ _ sb locFCALComboVector sb)
    by (apply vec_read_spec; [exact HpF | rewrite (st_vectors _ _ Tab); exact HvF]).
  assert (HBb : slot_map slot sb !! u = Some pB) by (rewrite (st_slots _ _ Tab); exact HB).
  destruct (memo_subscript_present _ _ _ _ HBb) as (sc & Ec & Tc).
  rewrite (bind_Some _ _ _ _ _ Ec).
  pose proof (same_tables_trans _ _ _ Tab Tc) as Tac.
  set (sd := set_dVectors (<[pB := locFCALComboVector]> (dVectors sc)) sc).
  assert (Ed : vec_assign pB locFCALComboVector sc = Some (tt, sd)).
  { unfold vec_assign.
    rewrite (bind_Some _ _ sc locBothComboVector sc)
      by (apply vec_read_spec; [exact HpB | rewrite (st_vectors _ _ Tac); exact HvB]).
    reflexivity. }
  rewrite (bind_Some _ _ _ _ _ Ed).
  match goal with
  | |- exists s', bind ?m _ sd = _ /\ _ =>
      destruct (m sd) as [[[] se]|] eqn:Ee; [| discriminate Ee]
  end.
  assert (Tde : dVectors se = dVectors sd /\ forall slot', slot_map slot' se = slot_map slot' sd).
  { injection Ee as <-. split; [reflexivity | intros slot'; destruct slot'; reflexivity]. }
  destruct Tde as [Vde Sde].
  rewrite (bind_Some _ _ _ _ _ Ee).
  assert (Hve : dVectors se !! pB = Some locFCALComboVector).
  { rewrite Vde. subst sd. cbn. apply lookup_insert_eq. }
  rewrite (bind_Some _ _ se locFCALComboVector se)
    by (apply vec_read_spec; [exact HpB | exact Hve]).
  match goal with
  | |- exists s', for_each ?l ?body se = _ /\ _ =>
      destruct (for_each_same_tables l body) with (s := se) as (sf & Ef & Tf)
  end.
  { intros ic s0.
    destruct (valid_bunches_spec (snd ic) s0) as (bunches & s1 & E1 & T1).
    rewrite (bind_Some _ _ _ _ _ E1).
    match goal with
    | |- exists s', bind (for_each ?l ?body) _ s1 = _ /\ _ =>
        destruct (for_each_same_tables l body) with (s := s1) as (s2 & E2 & T2)
    end.
    { intros b s3. apply resume_iterator_emplace_spec. }
    rewrite (bind_Some _ _ _ _ _ E2).
    destruct (bool_decide (bunches = [])).
    - destruct (resume_iterator_emplace_spec (snd ic) (use_vertex_zbin u) bunches (fst ic) s2)
        as (s3 & E3 & T3).
      exists s3. split; [exact E3 |]. eauto using same_tables_trans.
    - exists s2. split; [reflexivity |]. eauto using same_tables_trans. }
  exists sf. split; [exact Ef |]. split.
  - rewrite (st_vectors _ _ Tf), Vde. subst sd. cbn.
    rewrite (st_vectors _ _ Tac). reflexivity.
  - intros slot'. rewrite (st_slots _ _ Tf), Sde.
    change (slot_map slot' sd) with (slot_map slot' sc). apply (st_slots _ _ Tac).
Qed.

(** X20.  [Copy_ZIndependentMixedResults] for a use that has no vector yet, or
    whose z-independent use has none: [table[use]] inserts a null pointer,
    which is dereferenced; the call is undefined. *)
Theorem copy_without_vector_undefined
    (locComboUseToCreate : DSourceComboUse) (locChargedCombo_WithNow : option DSourceCombo)
    (s : Comboer) :
  let slot := Get_CombosSoFar d_MixedStage (content_of s (use_info locComboUseToCreate))
                              locChargedCombo_WithNow in
  let locComboUseFCAL :=
    MkUse (use_decay_pid locComboUseToCreate) Get_VertexZIndex_ZIndependent
          (use_info locComboUseToCreate) in
  slot_map slot s !! locComboUseFCAL = None \/ slot_map slot s !! locComboUseToCreate = None ->
  Copy_ZIndependentMixedResults locComboUseToCreate locChargedCombo_WithNow s = None.
Proof.
  intros slot uF Hnone.
  set (u := locComboUseToCreate) in *.
  unfold Copy_ZIndependentMixedResults.
  destruct (charge_content_spec (use_info u) s) as (sa & Ea & Ta).
  rewrite (bind_Some _ _ _ _ _ Ea). cbv zeta. fold u. fold slot. fold uF.
  destruct (slot_map slot s !! uF) as [pF|] eqn:HF.
  - destruct Hnone as [Hnone | Hnone]; [discriminate |].
    assert (HFa : slot_map slot sa !! uF = Some pF) by (rewrite (st_slots _ _ Ta); exact HF).
    destruct (memo_subscript_present _ _ _ _ HFa) as (sb & Eb & Tb).
    rewrite (bind_Some _ _ _ _ _ Eb).
    destruct (vec_read pF sb) as [[vF sb']|] eqn:Er; [| apply bind_None; exact Er].
    rewrite (bind_Some _ _ _ _ _ Er).
    assert (sb' = sb).
    { unfold vec_read in Er. destruct (pF =? 0); [discriminate |].
      destruct (dVectors sb !! pF); [| discriminate]. injection Er as _ <-. reflexivity. }
    subst sb'.
    assert (HBb : slot_map slot sb !! u = None).
    { rewrite (st_slots _ _ Tb), (st_slots _ _ Ta). exact Hnone. }
    rewrite (bind_Some _ _ _ _ _ (memo_subscript_absent _ _ _ HBb)).
    apply bind_None. unfold vec_assign. apply bind_None. apply vec_read_null.
  - assert (HFa : slot_map slot sa !! uF = None) by (rewrite (st_slots _ _ Ta); exact HF).
    rewrite (bind_Some _ _ _ _ _ (memo_subscript_absent _ _ _ HFa)).
    apply bind_None. apply vec_read_null.
Qed.

(** *** The N > 2 branch *)

Lemma extend_combos_length n stage pid c l :
  length (extend_combos n stage pid c l) = length l.
Proof. revert n. induction l as [|t l IH]; intros n; simpl; [| rewrite IH]; reflexivity. Qed.

Lemma extend_combos_app n stage pid c l1 l2 :
  extend_combos n stage pid c (l1 ++ l2)
  = extend_combos n stage pid c l1 ++ extend_combos (n + length l1) stage pid c l2.
Proof.
  revert n. induction l1 as [|t l1 IH]; intros n; simpl.
  - rewrite Nat.add_0_r. reflexivity.
  - rewrite IH. replace (S n + length l1) with (n + S (length l1)) by lia. reflexivity.
Qed.

Lemma extend_step_spec u pid stage z q c bunches t acc s :
  let slot := Get_CombosSoFar stage d_Neutral None in
  q <> 0 ->
  slot_map slot s !! u = Some q -> dVectors s !! q = Some acc ->
  stage = d_ChargedStage \/ content_of s (use_info u) <> d_Charged ->
  exists s',
    extend_step u pid stage z slot c bunches t s = Some (tt, s') /\
    appended q acc
      (extend_combos (dNextCombo s) stage pid c (List.filter (extend_kept stage pid c) [t]))
      s s'.
Proof.
  intros slot Hq Hu Hv Hc.
  unfold extend_step, extend_kept. cbn [List.filter]. fold (extend_zindep stage pid c t).
  destruct (bool_decide (stage = d_MixedStage) && extend_zindep stage pid c t);
    cbn [negb].
  { exists s. split; [reflexivity | apply appended_nil; exact Hv]. }
  cbn [extend_combos].
  set (bunches' := if bool_decide (pid <> Gamma) then [] else _).
  set (cn := MkCombo (dNextCombo s) (dSourceParticles c ++ [(pid, t)]) []
                     (extend_zindep stage pid c t)).
  set (s1 := set_dNextCombo (S (dNextCombo s)) s).
  rewrite (bind_Some _ _ s cn s1) by reflexivity.
  assert (Hu1 : slot_map slot s1 !! u = Some q) by (destruct slot; exact Hu).
  destruct (save_combo_keeps slot u q acc cn s1 Hu1 Hq Hv) as (s2 & E2 & S2 & V2 & N2 & C2).
  rewrite (bind_Some _ _ _ _ _ E2).
  destruct (Register_ValidRFBunches_spec u cn bunches' stage None q (acc ++ [cn]) s2)
    as (s3 & E3 & T3).
  { rewrite (Get_CombosSoFar_neutral stage).
    - fold slot. rewrite S2. exact Hu1.
    - rewrite C2. exact Hc. }
  { exact Hq. }
  { rewrite V2. apply lookup_insert_eq. }
  { destruct acc; discriminate. }
  rewrite (bind_Some _ _ _ _ _ E3).
  eexists. split; [reflexivity |].
  set (s4 := set_dResumeSearchAfterMap_Particles _ s3).
  assert (T4 : same_tables s3 s4) by (split; reflexivity).
  pose proof (same_tables_trans _ _ _ T3 T4) as T24.
  split.
  - intros slot'. rewrite (st_slots _ _ T24), S2. destruct slot'; reflexivity.
  - rewrite (st_vectors _ _ T24), V2. reflexivity.
  - rewrite (st_combo _ _ T24), N2. cbn. lia.
  - intros p. rewrite (st_content _ _ T24), C2. reflexivity.
Qed.

Lemma extend_loop_spec u pid stage z q c bunches l :
  let slot := Get_CombosSoFar stage d_Neutral None in
  q <> 0 ->
  forall acc s,
    slot_map slot s !! u = Some q -> dVectors s !! q = Some acc ->
    stage = d_ChargedStage \/ content_of s (use_info u) <> d_Charged ->
    exists s',
      for_each l (extend_step u pid stage z slot c bunches) s = Some (tt, s') /\
      appended q acc
        (extend_combos (dNextCombo s) stage pid c (List.filter (extend_kept stage pid c) l))
        s s'.
Proof.
  intros slot Hq. induction l as [|t rest IH]; intros acc s Hu Hv Hc.
  - exists s. split; [reflexivity | apply appended_nil; exact Hv].
  - destruct (extend_step_spec u pid stage z q c bunches t acc s Hq Hu Hv Hc)
      as (s1 & E1 & A1).
    set (new1 := extend_combos (dNextCombo s) stage pid c
                   (List.filter (extend_kept stage pid c) [t])) in *.
    destruct (IH (acc ++ new1) s1) as (s2 & E2 & A2).
    { rewrite (ap_slots _ _ _ _ _ A1). exact Hu. }
    { rewrite (ap_vectors _ _ _ _ _ A1). apply lookup_insert_eq. }
    { destruct Hc as [Hc | Hc]; [left; exact Hc | right].
      rewrite (ap_content _ _ _ _ _ A1). exact Hc. }
    exists s2. split.
    { cbn [for_each]. rewrite (bind_Some _ _ _ _ _ E1). exact E2. }
    rewrite filter_cons_app, extend_combos_app.
    eapply appended_app; [exact A1 |].
    rewrite (ap_combo _ _ _ _ _ A1) in A2. subst new1.
    rewrite extend_combos_length in A2. exact A2.
Qed.

(** X13.  The N > 2 branch of [Combo_Vertically_NParticles] for one combo of
    N - 1 particles, once its bunches are read and the candidates are
    there: the step is defined and appends to the vector of the use one
    combo for every candidate from the resume position on, in order, made of
    the particles of the (N-1)-combo followed by the candidate; at the mixed
    stage the combos made at the z-independent stage are left out.  A photon
    is added whatever bunches it has in common with the combo. *)
Theorem extend_branch_result
    (locComboUseToCreate : DSourceComboUse) (locPID : Particle_t)
    (locComboingStage : ComboingStage_t) (locCombo_NMinus1 : DSourceCombo)
    (s s0 s1 : Comboer) (locValidRFBunches_NMinus1 : list Z) (locParticles : list JObject)
    (q : VecPtr) (acc : list DSourceCombo) :
  let slot := Get_CombosSoFar locComboingStage d_Neutral None in
  let z := use_vertex_zbin locComboUseToCreate in
  let locParticleSearchIterator :=
    Get_ResumeAtIterator_Particles s1 locCombo_NMinus1 locValidRFBunches_NMinus1 in
  valid_bunches locCombo_NMinus1 s = Some (locValidRFBunches_NMinus1, s0) ->
  Particles.Get_ParticlesForComboing locPID locComboingStage locValidRFBunches_NMinus1 z s0
    = Some (locParticles, s1) ->
  locParticleSearchIterator <= length locParticles ->
  slot_map slot s1 !! locComboUseToCreate = Some q -> q <> 0 ->
  dVectors s1 !! q = Some acc ->
  locComboingStage = d_ChargedStage
    \/ content_of s1 (use_info locComboUseToCreate) <> d_Charged ->
  exists s',
    extend_body locComboUseToCreate locPID locComboingStage z slot locCombo_NMinus1 s
    = Some (tt, s') /\
    slot_map slot s' !! locComboUseToCreate = Some q /\
    dVectors s' !! q =
      Some (acc ++ extend_combos (dNextCombo s1) locComboingStage locPID locCombo_NMinus1
                     (List.filter (extend_kept locComboingStage locPID locCombo_NMinus1)
                        (drop locParticleSearchIterator locParticles))).
Proof.
  intros slot z it Hbunches Hparticles Hit Hu Hq Hv Hc.
  destruct (extend_loop_spec locComboUseToCreate locPID locComboingStage z q
              locCombo_NMinus1 locValidRFBunches_NMinus1 (drop it locParticles)
              Hq acc s1 Hu Hv Hc) as (s' & E & A).
  exists s'. split; [| split].
  - unfold extend_body.
    rewrite (bind_Some _ _ _ _ _ Hbunches).
    rewrite (bind_Some _ _ _ _ _ Hparticles).
    rewrite (bind_Some _ _ s1 s1 s1) by reflexivity. fold it.
    destruct (Nat.eqb_spec it (length locParticles)) as [Heq | Hne].
    + rewrite Heq, drop_all in E. exact E.
    + exact E.
  - rewrite (ap_slots _ _ _ _ _ A). exact Hu.
  - rewrite (ap_vectors _ _ _ _ _ A). apply lookup_insert_eq.
Qed.
End Comboing.

End Comboing.

(** ** Concrete events *)

Module Scenarios.

Import Comboing.

(** Collaborators for the evaluations.  The time handler finds every shower
    compatible with bunch 1; two bunch sets have their intersection in common,
    an empty set standing for "no constraint"; every shower is z-independent;
    there is no charged context. *)
Definition common_bunches (a b : list Z) : list Z :=
  match a, b with
  | [], _ => b
  | _, [] => a
  | _, _ => filter (fun x => bool_decide (x ∈ b)) a
  end.

Definition all_neutral (i : DSourceComboInfo) : Charge_t := d_Neutral.
Definition no_massive (i : DSourceComboInfo) : bool := false.
Definition no_charged_context (c : option DSourceCombo) : option DSourceCombo := None.
Definition zbin_0 (c : DSourceCombo) : Z := 0%Z.
Definition bunch_1 (o : JObject) (z : Z) : list Z := [1%Z].
Definition in_fcal (o : JObject) (p : Particle_t) : bool := true.
Definition resume_at_begin_particles (s : Comboer) (c : DSourceCombo) (b : list Z) : nat := 0.
Definition resume_at_begin_combos (s : Comboer) (c : DSourceCombo) (b : list Z)
    (st : ComboingStage_t) (z : Z) : nat := 0.

Definition zindep : Z := Get_VertexZIndex_ZIndependent.

Definition Combo_Vertically_AllDecays reentry :=
  Comboing.Combo_Vertically_AllDecays MkInfo Registry.encode_lt all_neutral no_massive
    common_bunches no_charged_context zbin_0 resume_at_begin_combos reentry.

Definition Combo_Vertically_AllParticles :=
  Comboing.Combo_Vertically_AllParticles MkInfo Registry.encode_lt all_neutral no_massive
    bunch_1 common_bunches in_fcal resume_at_begin_particles.

Definition Combo_Vertically_NParticles :=
  Comboing.Combo_Vertically_NParticles bunch_1 common_bunches in_fcal
    resume_at_begin_particles.

Definition Combo_Horizontally_AddParticle :=
  Comboing.Combo_Horizontally_AddParticle bunch_1 common_bunches in_fcal no_charged_context.

Definition Combo_Horizontally_AddCombo :=
  Comboing.Combo_Horizontally_AddCombo all_neutral common_bunches no_charged_context zbin_0.

(** *** One pi0 wanted: the single-decay branch of [Combo_Vertically_AllDecays] *)

Definition info_2g : DSourceComboInfo := MkInfo [(Gamma, 2)] [].
Definition pi0_use : DSourceComboUse := MkUse Pi0 zindep 1.
Definition info_1pi0 : DSourceComboInfo := MkInfo [] [(pi0_use, 1)].
Definition use_1pi0 : DSourceComboUse := MkUse Unknown zindep 2.

Definition registry_pi0 : Registry.Registry :=
  Registry.MkRegistry [] [Registry.MkInfoObj 1 info_2g; Registry.MkInfoObj 2 info_1pi0]
    (<[1 := d_Neutral]> (<[2 := d_Neutral]> ∅)) ∅ 3.

Definition pi0_combo : DSourceCombo := MkCombo 1 [(Gamma, 10); (Gamma, 11)] [] true.

(** The pi0 use has no entry in the event's table ... *)
Definition event_pi0_missing : Comboer := set_dRegistry registry_pi0 new_event.

(** ... and the pi0 use already has its result. *)
Definition event_pi0_built : Comboer :=
  set_dNextCombo 2 (set_dNextVector 2 (set_dVectors (<[1 := [pi0_combo]]> ∅)
    (set_dMixedCombosByUseByChargedCombo (<[0 := <[pi0_use := 1]> ∅]> ∅)
       event_pi0_missing))).

(** *** Three photons wanted, two-photon combos not built yet *)

Definition info_3g : DSourceComboInfo := MkInfo [(Gamma, 3)] [].
Definition use_2g : DSourceComboUse := MkUse Unknown zindep 1.
Definition use_3g : DSourceComboUse := MkUse Unknown zindep 2.

Definition registry_3g : Registry.Registry :=
  Registry.MkRegistry [] [Registry.MkInfoObj 1 info_2g; Registry.MkInfoObj 2 info_3g]
    (<[1 := d_Neutral]> (<[2 := d_Neutral]> ∅)) ∅ 3.

Definition event_3g : Comboer :=
  set_dShowersByBeamBunchByZBin
    (<[ zindep := <[ [] := [10; 11; 12] ]> (<[ [1%Z] := [10; 11; 12] ]> ∅) ]> ∅)
    (set_dRegistry registry_3g new_event).

(** *** Adding a particle to an all-but-1 combo *)

Definition ks_use : DSourceComboUse := MkUse KShort zindep 1.
Definition info_pipi : DSourceComboInfo := MkInfo [(PiPlus, 1); (PiMinus, 1)] [].
Definition info_ks : DSourceComboInfo := MkInfo [] [(ks_use, 1)].
Definition info_ks_p : DSourceComboInfo := MkInfo [(Proton, 1)] [(ks_use, 1)].

Definition registry_ks : Registry.Registry :=
  Registry.MkRegistry []
    [Registry.MkInfoObj 1 info_pipi; Registry.MkInfoObj 2 info_ks;
     Registry.MkInfoObj 3 info_ks_p]
    (<[1 := d_Charged]> (<[2 := d_Charged]> (<[3 := d_Charged]> ∅))) ∅ 4.

Definition ks_combo : DSourceCombo := MkCombo 1 [(PiPlus, 21); (PiMinus, 22)] [] false.
Definition one_ks : DSourceCombo := MkCombo 2 [] [(ks_use, [ks_combo])] false.
Definition use_ks : DSourceComboUse := MkUse Unknown zindep 2.
Definition use_ks_p : DSourceComboUse := MkUse Unknown zindep 3.

(** Tracks 21 and 22 make a KShort; track 23 is a proton candidate. *)
Definition event_ks_p : Comboer :=
  set_dNextCombo 3 (set_dNextVector 2 (set_dVectors (<[1 := [one_ks]]> ∅)
    (set_dSourceCombosByUse_Charged (<[use_ks := 1]> ∅)
    (set_dTracksByPID (<[Proton := [23]]> ∅)
    (set_dRegistry registry_ks new_event))))).

Definition info_k : DSourceComboInfo := MkInfo [(KPlus, 1)] [].
Definition info_pi_k : DSourceComboInfo := MkInfo [(PiPlus, 1); (KPlus, 1)] [].
Definition use_k : DSourceComboUse := MkUse Unknown zindep 1.
Definition use_pi_k : DSourceComboUse := MkUse Unknown zindep 2.

Definition registry_pi_k : Registry.Registry :=
  Registry.MkRegistry [] [Registry.MkInfoObj 1 info_k; Registry.MkInfoObj 2 info_pi_k]
    (<[1 := d_Charged]> (<[2 := d_Charged]> ∅)) ∅ 3.

Definition one_k : DSourceCombo := MkCombo 1 [(KPlus, 21)] [] false.

(** One track, 21, with a K+ and a pi+ hypothesis ([Reset_NewEvent] files the
    track under each PID of its hypotheses). *)
Definition event_pi_k : Comboer :=
  set_dNextCombo 2 (set_dNextVector 2 (set_dVectors (<[1 := [one_k]]> ∅)
    (set_dSourceCombosByUse_Charged (<[use_k := 1]> ∅)
    (set_dTracksByPID (<[PiPlus := [21]]> (<[KPlus := [21]]> ∅))
    (set_dRegistry registry_pi_k new_event))))).

(** *** Two photons out of a pool *)

Definition registry_2g : Registry.Registry :=
  Registry.MkRegistry [] [Registry.MkInfoObj 1 info_2g] (<[1 := d_Neutral]> ∅) ∅ 2.

(** Photons A, B, C, D are showers 10, 11, 12, 13, all z-independent. *)
Definition event_4_photons : Comboer :=
  set_dShowersByBeamBunchByZBin (<[ zindep := <[ [] := [10; 11; 12; 13] ]> ∅ ]> ∅)
    (set_dRegistry registry_2g new_event).

(** An event whose showers are all z-dependent: the z-independent list holds
    no shower. *)
Definition event_no_fcal_photon : Comboer :=
  set_dShowersByBeamBunchByZBin
    (<[ zindep := <[ [] := [] ]> ∅ ]> (<[ 3%Z := <[ [] := [10; 11] ]> ∅ ]> ∅))
    (set_dRegistry registry_2g new_event).

Definition photon_pair (addr : nat) (a b : JObject) : DSourceCombo :=
  MkCombo addr [(Gamma, a); (Gamma, b)] [] true.

(** *** Three photons, one of them out of time with the other two *)

(** Showers 10 and 11 are compatible with bunches -1 and 0, shower 12 with
    bunch 5 only. *)
Definition bunches_of (o : JObject) (z : Z) : list Z :=
  if o =? 12 then [5%Z] else [(-1)%Z; 0%Z].

(** The search for a third photon resumes after the second photon of the
    pair; in the candidate list 10, 11, 12 of a pair (10, 11) that is
    position 2. *)
Definition resume_after_pair (s : Comboer) (c : DSourceCombo) (b : list Z) : nat := 2.

Definition Combo_Vertically_NParticles_timed :=
  Comboing.Combo_Vertically_NParticles bunches_of common_bunches in_fcal resume_after_pair.

(** The z-independent index as the time handler sets it up: every shower
    under the empty bunch set, and each shower under each of its bunches. *)
Definition event_out_of_time_photon : Comboer :=
  set_dShowersByBeamBunchByZBin
    (<[ zindep := <[ [] := [10; 11; 12] ]>
                  (<[ [(-1)%Z] := [10; 11] ]>
                  (<[ [0%Z] := [10; 11] ]>
                  (<[ [5%Z] := [12] ]> ∅))) ]> ∅)
    (set_dRegistry registry_3g new_event).

(** The pair (10, 11) is built, with bunch 1; the three-photon use has its
    vector, still empty. *)
Definition event_pair_built : Comboer :=
  set_dNextCombo 2 (set_dNextVector 3
    (set_dVectors (<[1 := [photon_pair 1 10 11]]> (<[2 := []]> ∅))
    (set_dMixedCombosByUseByChargedCombo (<[0 := <[use_2g := 1]> (<[use_3g := 2]> ∅)]> ∅)
    (set_dValidRFBunches_ByCombo (<[1 := [1%Z]]> ∅) event_3g)))).

(** *** Merging an all-but-1 combo with a combo to add *)

Definition info_2pi0 : DSourceComboInfo := MkInfo [] [(pi0_use, 2)].
Definition info_omega : DSourceComboInfo := MkInfo [(Gamma, 1)] [(pi0_use, 1)].
Definition omega_use : DSourceComboUse := MkUse omega zindep 3.
Definition info_2pi0_omega : DSourceComboInfo := MkInfo [] [(pi0_use, 2); (omega_use, 1)].
Definition use_2pi0 : DSourceComboUse := MkUse Unknown zindep 2.

Definition registry_omega : Registry.Registry :=
  Registry.MkRegistry []
    [Registry.MkInfoObj 1 info_2g; Registry.MkInfoObj 2 info_2pi0;
     Registry.MkInfoObj 3 info_omega; Registry.MkInfoObj 4 info_2pi0_omega]
    (<[1 := d_Neutral]> (<[2 := d_Neutral]> (<[3 := d_Neutral]> (<[4 := d_Neutral]> ∅))))
    ∅ 5.

Definition pi0_a : DSourceCombo := MkCombo 1 [(Gamma, 11); (Gamma, 12)] [] true.
Definition pi0_b : DSourceCombo := MkCombo 2 [(Gamma, 13); (Gamma, 14)] [] true.
Definition pi0_c : DSourceCombo := MkCombo 3 [(Gamma, 16); (Gamma, 17)] [] true.
(** X: two pi0s, photons 11 to 14. *)
Definition two_pi0 : DSourceCombo := MkCombo 4 [] [(pi0_use, [pi0_a; pi0_b])] true.
(** Y: omega -> pi0 gamma, photons 15 to 17. *)
Definition omega_combo : DSourceCombo := MkCombo 5 [(Gamma, 15)] [(pi0_use, [pi0_c])] true.

Definition event_2pi0_omega : Comboer :=
  set_dNextCombo 6 (set_dNextVector 3
    (set_dVectors (<[1 := [two_pi0]]> (<[2 := [omega_combo]]> ∅))
    (set_dMixedCombosByUseByChargedCombo
       (<[0 := <[use_2pi0 := 1]> (<[omega_use := 2]> ∅)]> ∅)
    (set_dValidRFBunches_ByCombo (<[4 := [1%Z]]> (<[5 := [1%Z]]> ∅))
    (set_dSourceCombosByBeamBunchByUse
       (<[0 := <[omega_use := <[ [1%Z] := [omega_combo] ]> ∅ ]> ∅ ]> ∅)
    (set_dRegistry registry_omega new_event)))))).

(** Y': the same omega candidate with its pi0 filed under another use than
    the pi0s of X. *)
Definition pi0_use_bin3 : DSourceComboUse := MkUse Pi0 3 1.
Definition omega_combo_bin3 : DSourceCombo :=
  MkCombo 5 [(Gamma, 15)] [(pi0_use_bin3, [pi0_c])] true.

(** *** An omega candidate cut on its invariant mass *)



(** The cut keeps the first candidate only. *)
Definition cut_keeps_first (c : DSourceCombo) (pid : Particle_t) (z : Z) : bool :=
  combo_addr c =? 1.

(** The Unknown use has been built: the call for it finds everything done. *)
Definition already_built (u : DSourceComboUse) (stage : ComboingStage_t)
    (c : option DSourceCombo) : M unit := ret tt.

Definition Create_SourceCombos :=
  Comboing.Create_SourceCombos cut_keeps_first no_charged_context already_built.


(** *** Single particles *)

(** Tracks 21 and 24 are K+ candidates; nothing is built yet. *)
Definition event_two_kaons : Comboer :=
  set_dTracksByPID (<[KPlus := [21; 24]]> ∅) (set_dRegistry registry_pi_k new_event).

Definition info_1g : DSourceComboInfo := MkInfo [(Gamma, 1)] [].
Definition use_1g : DSourceComboUse := MkUse Unknown zindep 1.

Definition registry_1g : Registry.Registry :=
  Registry.MkRegistry [] [Registry.MkInfoObj 1 info_1g] (<[1 := d_Neutral]> ∅) ∅ 2.

(** Showers 10 and 11, both z-independent. *)
Definition event_2_photons : Comboer :=
  set_dShowersByBeamBunchByZBin (<[ zindep := <[ [] := [10; 11] ]> ∅ ]> ∅)
    (set_dRegistry registry_1g new_event).

Definition info_2k : DSourceComboInfo := MkInfo [(KPlus, 2)] [].
Definition use_2k : DSourceComboUse := MkUse Unknown zindep 1.

Definition registry_2k : Registry.Registry :=
  Registry.MkRegistry [] [Registry.MkInfoObj 1 info_2k] (<[1 := d_Charged]> ∅) ∅ 2.

(** Tracks 21, 24 and 27 are K+ candidates. *)
Definition event_three_kaons : Comboer :=
  set_dTracksByPID (<[KPlus := [21; 24; 27]]> ∅) (set_dRegistry registry_2k new_event).

Definition Create_SourceCombos_Unknown_steps :=
  Comboing.Create_SourceCombos_Unknown_steps MkInfo Registry.encode_lt all_neutral no_massive
    bunch_1 common_bunches in_fcal no_charged_context zbin_0 resume_at_begin_particles
    resume_at_begin_combos already_built.

(** *** Copying z-independent results *)

Definition use_2g_bin3 : DSourceComboUse := MkUse Unknown 3 1.

(** The z-independent use has one photon pair; the use of bin 3 has its
    vector, still empty. *)
Definition event_copy : Comboer :=
  set_dNextCombo 2 (set_dNextVector 3
    (set_dVectors (<[1 := [photon_pair 1 10 11]]> (<[2 := []]> ∅))
    (set_dMixedCombosByUseByChargedCombo
       (<[0 := <[use_2g := 1]> (<[use_2g_bin3 := 2]> ∅)]> ∅)
    (set_dRegistry registry_2g new_event)))).

(** *** A presiding combo with three KShorts *)

Definition all_charges (i : DSourceComboInfo) : Charge_t := d_AllCharges.

(** The vertexer puts the combos at odd addresses in bin 1, the others in
    bin 2. *)
Definition zbin_by_address (c : DSourceCombo) : Z :=
  if Nat.odd (combo_addr c) then 1%Z else 2%Z.

Definition ks_use_bin1 : DSourceComboUse := MkUse KShort 1 1.
Definition ks_a : DSourceCombo := MkCombo 1 [(PiPlus, 21); (PiMinus, 22)] [] false.
Definition ks_b : DSourceCombo := MkCombo 2 [(PiPlus, 23); (PiMinus, 24)] [] false.
Definition ks_c : DSourceCombo := MkCombo 3 [(PiPlus, 25); (PiMinus, 26)] [] false.
Definition three_ks : DSourceCombo := MkCombo 9 [] [(ks_use, [ks_a; ks_b; ks_c])] false.

Definition event_three_ks : Comboer :=
  MkComboer registry_ks (<[ks_use_bin1 := ks_use]> ∅) ∅ ∅ ∅ ∅ ∅ ∅ ∅ ∅ ∅ ∅ 1 1.

(** *** The evaluations *)

(** C1 (code evaluated at concrete events).  In
    [Combo_Vertically_AllDecays], for a decay needed once: when the decay use
    already has its result the code re-enters [Create_SourceCombos] for it,
    and when the use is absent nothing is built and the state is unchanged.
    In [Combo_Vertically_AllParticles], three photons requested while the
    two-photon use is absent: the two-photon combos are not built, and
    [Combo_Vertically_NParticles] dereferences the null vector of the absent
    use. *)
Theorem memo_checks_inverted :
  (forall reentry,
      Combo_Vertically_AllDecays reentry 1 use_1pi0 d_MixedStage_ZIndependent None
                                 event_pi0_built
      = (do _ <- reentry pi0_use d_MixedStage_ZIndependent None; ret tt) event_pi0_built) /\
  (forall reentry,
      Combo_Vertically_AllDecays reentry 1 use_1pi0 d_MixedStage_ZIndependent None
                                 event_pi0_missing
      = Some (tt, event_pi0_missing)) /\
  slot_map (Slot_Mixed 0) event_3g !! use_2g = None /\
  (forall fuel,
      Combo_Vertically_AllParticles (S fuel) use_3g d_MixedStage_ZIndependent event_3g
      = None).
Proof.
  split; [intros; vm_compute; reflexivity |].
  split; [intros; vm_compute; reflexivity |].
  split; [reflexivity |].
  intros fuel. vm_compute. reflexivity.
Qed.

(** C2 (code evaluated at concrete events).
    [Combo_Horizontally_AddParticle] produces combos whose transitive leaves
    repeat a detected particle.  Adding the pi+ hypothesis of track 21 to the
    combo that holds the same track as K+ gives a combo with leaves 21, 21:
    the used particles are filtered by PID before the search.  Adding proton
    23 to a combo that holds a KShort sub-combo gives a combo whose own
    members are the whole chain of the all-but-1 combo and whose sub-combos
    are again those of the all-but-1 combo: leaves 21, 22, 23, 21, 22. *)
Theorem add_particle_repeats_leaves :
  (exists s' c,
      Combo_Horizontally_AddParticle use_pi_k use_k PiPlus d_ChargedStage None event_pi_k
      = Some (tt, s') /\
      slot_map Slot_Charged s' !! use_pi_k = Some 2 /\
      dVectors s' !! 2 = Some [c] /\
      leaves c = [21; 21] /\ ~ NoDup (leaves c)) /\
  (exists s' c,
      Combo_Horizontally_AddParticle use_ks_p use_ks Proton d_ChargedStage None event_ks_p
      = Some (tt, s') /\
      slot_map Slot_Charged s' !! use_ks_p = Some 2 /\
      dVectors s' !! 2 = Some [c] /\
      leaves c = [21; 22; 23; 21; 22] /\ ~ NoDup (leaves c)).
Proof.
  split.
  - eexists _, _. split; [vm_compute; reflexivity |].
    split; [reflexivity |]. split; [reflexivity |]. split; [reflexivity |].
    intros H. apply NoDup_cons_1_1 in H. apply H. vm_compute. left.
  - eexists _, _. split; [vm_compute; reflexivity |].
    split; [reflexivity |]. split; [reflexivity |]. split; [reflexivity |].
    intros H. apply NoDup_cons_1_1 in H. apply H. vm_compute.
    right. right. left.
Qed.

(** C4 (code evaluated at concrete events).  Two photons out of the pool
    A, B, C, D: exactly the six pairs, in the order AB, AC, AD, BC, BD, CD.
    Two photons out of the empty pool: instead of producing the C(0,2) = 0
    combos the call is undefined, the loop bound being [std::prev] of the end
    of an empty vector. *)
Theorem two_photon_combos :
  (exists s',
      Combo_Vertically_NParticles use_2g (MkUse Unknown 0 0) d_MixedStage_ZIndependent
                                  event_4_photons = Some (tt, s') /\
      slot_map (Slot_Mixed 0) s' !! use_2g = Some 1 /\
      dVectors s' !! 1 =
        Some [photon_pair 1 10 11; photon_pair 2 10 12; photon_pair 3 10 13;
              photon_pair 4 11 12; photon_pair 5 11 13; photon_pair 6 12 13]) /\
  Combo_Vertically_NParticles use_2g (MkUse Unknown 0 0) d_MixedStage_ZIndependent
                              event_no_fcal_photon = None.
Proof.
  split; [| vm_compute; reflexivity].
  eexists. split; [vm_compute; reflexivity |].
  split; reflexivity.
Qed.

(** The size-2 branch in general ([Comboing.pair_branch_result]) at the pool
    A, B, C, D: every pair is kept, and the vector of the use holds the
    combos of [pairs_of] in order. *)
Lemma four_photons_all_pairs :
  List.filter (pair_kept bunch_1 common_bunches in_fcal d_MixedStage_ZIndependent Gamma zindep)
              (pairs_of [10; 11; 12; 13])
  = [(10, 11); (10, 12); (10, 13); (11, 12); (11, 13); (12, 13)] /\
  exists s',
    Combo_Vertically_NParticles use_2g (MkUse Unknown 0 0) d_MixedStage_ZIndependent
                                event_4_photons = Some (tt, s') /\
    slot_map (Slot_Mixed 0) s' !! use_2g = Some 1 /\
    dVectors s' !! 1 =
      Some ([] ++ pair_combos in_fcal 1 d_MixedStage_ZIndependent Gamma
                    (List.filter
                       (pair_kept bunch_1 common_bunches in_fcal d_MixedStage_ZIndependent
                                  Gamma zindep)
                       (pairs_of [10; 11; 12; 13]))).
Proof.
  split; [reflexivity |].
  assert (Hstart : exists s1,
    start_results (Get_CombosSoFar d_MixedStage_ZIndependent d_Neutral None) use_2g
                  d_MixedStage_ZIndependent None event_4_photons = Some (tt, s1) /\
    Particles.Get_ParticlesForComboing Gamma d_MixedStage_ZIndependent [] zindep s1
    = Some ([10; 11; 12; 13], s1) /\
    slot_map (Slot_Mixed 0) s1 !! use_2g = Some 1 /\
    dVectors s1 !! 1 = Some [] /\ dNextCombo s1 = 1 /\
    content_of s1 1 <> d_Charged).
  { eexists. split; [vm_compute; reflexivity |].
    split; [vm_compute; reflexivity |].
    split; [reflexivity |]. split; [reflexivity |]. split; [reflexivity |]. discriminate. }
  destruct Hstart as (s1 & Hstart & Hparticles & Hu & Hv & Hn & Hc).
  destruct (Comboing.pair_branch_result bunch_1 common_bunches in_fcal
              resume_at_begin_particles use_2g (MkUse Unknown 0 0) d_MixedStage_ZIndependent
              event_4_photons s1 s1 info_2g Gamma [10; 11; 12; 13] 1 []
              eq_refl eq_refl Hstart Hparticles ltac:(discriminate) Hu ltac:(discriminate)
              Hv (or_intror Hc))
    as (s' & E & S & V).
  rewrite Hn in V. exists s'. split; [exact E |]. split; [exact S | exact V].
Defined.

(** C3 (code evaluated at a concrete event).  Building the photon pairs, the
    size-2 branch keeps (10, 11) with bunch set {-1, 0} and rejects the pairs
    with shower 12, whose bunch set {5} has nothing in common with {-1, 0}.
    Extending the pair (10, 11) to three photons, the candidates for the
    constraint {-1, 0} include shower 12 (the list merged in for bunch 0 is
    the one stored under [vector<int>(0)], the empty key: all showers), and
    the N > 2 branch has no test on the common bunches: the combo
    (10, 11, 12) is produced, with the empty set registered, although photons
    10 and 12 have non-empty bunch sets with empty intersection. *)
Theorem out_of_time_photon_accepted :
  common_bunches (bunches_of 10 zindep) (bunches_of 12 zindep) = [] /\
  exists s1 s2,
    Combo_Vertically_NParticles_timed use_2g (MkUse Unknown 0 0) d_MixedStage_ZIndependent
                                      event_out_of_time_photon = Some (tt, s1) /\
    slot_map (Slot_Mixed 0) s1 !! use_2g = Some 1 /\
    dVectors s1 !! 1 = Some [photon_pair 1 10 11] /\
    dValidRFBunches_ByCombo s1 !! 1 = Some [(-1)%Z; 0%Z] /\
    Combo_Vertically_NParticles_timed use_3g use_2g d_MixedStage_ZIndependent s1
    = Some (tt, s2) /\
    slot_map (Slot_Mixed 0) s2 !! use_3g = Some 2 /\
    dVectors s2 !! 2 = Some [MkCombo 2 [(Gamma, 10); (Gamma, 11); (Gamma, 12)] [] true] /\
    dValidRFBunches_ByCombo s2 !! 2 = Some [].
Proof.
  split; [reflexivity |].
  eexists _, _. split; [vm_compute; reflexivity |].
  split; [reflexivity |]. split; [reflexivity |]. split; [reflexivity |].
  split; [vm_compute; reflexivity |].
  repeat split; reflexivity.
Qed.


(** With no key in common ([Comboing.merged_members_leaves]) the branch that
    promotes the all-but-1 combo keeps the leaves of both sides. *)
Lemma merge_without_shared_key_keeps_leaves :
  leaves_of_members
    (merged_members false false true use_2pi0 omega_use two_pi0 omega_combo_bin3)
  ≡ₚ [11; 12; 13; 14] ++ [15; 16; 17].
Proof.
  apply (merged_members_leaves false false true use_2pi0 omega_use
           two_pi0 omega_combo_bin3).
  - apply NoDup_singleton.
  - apply NoDup_singleton.
  - intros k Hk. cbn in Hk. apply list_elem_of_singleton in Hk. subst k.
    cbn. rewrite list_elem_of_singleton. discriminate.
  - cbn. rewrite list_elem_of_singleton. discriminate.
  - discriminate.
Defined.



(** The size-2 branch at the event without z-independent showers: the
    candidate list is empty and the call is undefined. *)
Lemma pair_loop_bound_needs_particles_witness :
  (exists s1 s2,
      start_results (Get_CombosSoFar d_MixedStage_ZIndependent d_Neutral None) use_2g
                    d_MixedStage_ZIndependent None event_no_fcal_photon = Some (tt, s1) /\
      Particles.Get_ParticlesForComboing Gamma d_MixedStage_ZIndependent [] zindep s1
      = Some ([], s2)) /\
  Combo_Vertically_NParticles use_2g (MkUse Unknown 0 0) d_MixedStage_ZIndependent
                              event_no_fcal_photon = None.
Proof.
  assert (H : exists s1 s2,
      start_results (Get_CombosSoFar d_MixedStage_ZIndependent d_Neutral None) use_2g
                    d_MixedStage_ZIndependent None event_no_fcal_photon = Some (tt, s1) /\
      Particles.Get_ParticlesForComboing Gamma d_MixedStage_ZIndependent [] zindep s1
      = Some ([], s2)).
  { eexists _, _. split; vm_compute; reflexivity. }
  split; [exact H |].
  destruct H as (s1 & s2 & Hstart & Hparticles).
  refine (proj1 (Comboing.pair_loop_bound_needs_particles bunch_1 common_bunches in_fcal
            resume_at_begin_particles use_2g (MkUse Unknown 0 0) d_MixedStage_ZIndependent
            event_no_fcal_photon s1 s2 info_2g Gamma [] _ _ Hstart Hparticles) eq_refl);
    reflexivity.
Defined.

(** Two K+ candidates at the charged stage, the use X -> 1 K+: one combo for
    each candidate, in the vector handed to the use. *)
Lemma single_charged_particle_use_witness :
  exists s',
    Create_SourceCombos_Unknown_steps 1 use_k d_ChargedStage None event_two_kaons
    = Some (tt, s') /\
    dSourceCombosByUse_Charged s' !! use_k = Some 1 /\
    dVectors s' !! 1 = Some [MkCombo 1 [(KPlus, 21)] [] true; MkCombo 2 [(KPlus, 24)] [] true].
Proof.
  exact (Comboing.single_charged_particle_use MkInfo Registry.encode_lt all_neutral
           no_massive bunch_1 common_bunches in_fcal no_charged_context zbin_0
           resume_at_begin_particles resume_at_begin_combos already_built
           use_k None event_two_kaons info_k KPlus 1
           eq_refl eq_refl eq_refl ltac:(discriminate) eq_refl ltac:(discriminate)
           (le_n 1)).
Defined.

(** Three K+ candidates at the charged stage, the use X -> 2 K+: the three
    pairs, in order. *)
Lemma pair_of_charged_particles_use_witness :
  exists s',
    Create_SourceCombos_Unknown_steps 1 use_2k d_ChargedStage None event_three_kaons
    = Some (tt, s') /\
    dSourceCombosByUse_Charged s' !! use_2k = Some 1 /\
    dVectors s' !! 1 =
      Some [MkCombo 1 [(KPlus, 21); (KPlus, 24)] [] true;
            MkCombo 2 [(KPlus, 21); (KPlus, 27)] [] true;
            MkCombo 3 [(KPlus, 24); (KPlus, 27)] [] true].
Proof.
  exact (Comboing.pair_of_charged_particles_use MkInfo Registry.encode_lt all_neutral
           no_massive bunch_1 common_bunches in_fcal no_charged_context zbin_0
           resume_at_begin_particles resume_at_begin_combos already_built
           use_2k None event_three_kaons info_2k KPlus 1
           eq_refl eq_refl eq_refl ltac:(discriminate) eq_refl ltac:(discriminate)
           ltac:(discriminate) (le_n 1)).
Defined.

(** Two photons at the z-independent stage: one combo for each. *)
Lemma one_particle_result_witness :
  exists s',
    Comboing.Create_Combo_OneParticle bunch_1 in_fcal use_1g d_MixedStage_ZIndependent
                                      event_2_photons = Some (tt, s') /\
    slot_map (Slot_Mixed 0) s' !! use_1g = Some 1 /\
    dVectors s' !! 1 = Some [MkCombo 1 [(Gamma, 10)] [] true; MkCombo 2 [(Gamma, 11)] [] true].
Proof.
  assert (Hstart : exists s1,
    start_results (Get_CombosSoFar d_MixedStage_ZIndependent d_Neutral None) use_1g
                  d_MixedStage_ZIndependent None event_2_photons = Some (tt, s1) /\
    Particles.Get_ParticlesForComboing Gamma d_MixedStage_ZIndependent [] zindep s1
    = Some ([10; 11], s1) /\
    slot_map (Slot_Mixed 0) s1 !! use_1g = Some 1 /\
    dVectors s1 !! 1 = Some [] /\ dNextCombo s1 = 1 /\
    content_of s1 1 <> d_Charged).
  { eexists. split; [vm_compute; reflexivity |].
    split; [vm_compute; reflexivity |].
    split; [reflexivity |]. split; [reflexivity |]. split; [reflexivity |]. discriminate. }
  destruct Hstart as (s1 & Hstart & Hparticles & Hu & Hv & Hn & Hc).
  destruct (Comboing.one_particle_result bunch_1 in_fcal use_1g d_MixedStage_ZIndependent
              event_2_photons s1 s1 info_1g Gamma 1 [10; 11] 1 []
              eq_refl eq_refl Hstart Hparticles Hu ltac:(discriminate) Hv (or_intror Hc))
    as (s' & E & S & V).
  rewrite Hn in V. exists s'. split; [exact E |]. split; [exact S | exact V].
Defined.

(** Of the three KShorts of the presiding combo, the first and the third are
    in bin 1: the second instance for the bin-1 use is the third KShort. *)
Lemma presiding_is_nth_in_zbin_witness :
  Comboing.Get_Presiding_ChargedCombo all_charges zbin_by_address (Some three_ks)
                                      ks_use_bin1 d_MixedStage 2 event_three_ks
  = Some (Some ks_c, event_three_ks).
Proof.
  exact (Comboing.presiding_is_nth_in_zbin all_charges zbin_by_address three_ks
           ks_use_bin1 ks_use 2 event_three_ks info_pipi [ks_a; ks_b; ks_c]
           eq_refl eq_refl eq_refl eq_refl ltac:(lia)).
Defined.

(** A photon pair registered for bunches 1 and 2 is found under bunch 2. *)
Lemma registered_combo_found_by_bunch_witness :
  exists s1 s2,
    Comboing.Register_ValidRFBunches use_2g (photon_pair 1 10 11) [1%Z; 2%Z]
                                     d_MixedStage_ZIndependent None event_4_photons
    = Some (tt, s1) /\
    Comboing.Get_CombosForComboing use_2g d_MixedStage_ZIndependent [2%Z] None s1
    = Some ([photon_pair 1 10 11], s2).
Proof.
  destruct (Comboing.registered_combo_found_by_bunch use_2g (photon_pair 1 10 11)
              [1%Z; 2%Z] d_MixedStage_ZIndependent None 2%Z event_4_photons)
    as (s1 & s2 & E1 & E2).
  - discriminate.
  - discriminate.
  - apply elem_of_cons. right. apply elem_of_cons. left. reflexivity.
  - exists s1, s2. split; [exact E1 | exact E2].
Defined.

(** A third pi0, photons 16 and 17, joined to the two pi0s of X: the combo
    saved has the six photons. *)
Lemma decay_body_keeps_leaves_apart_witness :
  exists s' new,
    Comboing.decay_body common_bunches use_2pi0 pi0_use false d_MixedStage_ZIndependent
      (Slot_Mixed 0) None two_pi0 [1%Z] [11; 12; 13; 14] pi0_c event_2pi0_omega
    = Some (tt, s') /\
    length new <= 1 /\
    forall c, c ∈ new -> leaves c = [11; 12; 13; 14; 16; 17].
Proof.
  destruct (Comboing.decay_body_keeps_leaves_apart common_bunches use_2pi0 pi0_use false
              d_MixedStage_ZIndependent None two_pi0 pi0_c [1%Z] 1 [two_pi0]
              event_2pi0_omega) as (s' & new & E & _ & L & H).
  - discriminate.
  - reflexivity.
  - reflexivity.
  - apply (bool_decide_unpack _). vm_compute. exact I.
  - apply (bool_decide_unpack _). vm_compute. exact I.
  - intros _. split; [reflexivity |]. eexists. reflexivity.
  - exists s', new. split; [exact E |]. split; [exact L |].
    intros c Hc. exact (proj1 (H c Hc)).
Defined.

(** The photon pair of the z-independent use is copied to the use of
    bin 3. *)
Lemma copy_of_zindependent_results_witness :
  exists s',
    Comboing.Copy_ZIndependentMixedResults use_2g_bin3 None event_copy = Some (tt, s') /\
    dVectors s' !! 2 = Some [photon_pair 1 10 11].
Proof.
  destruct (Comboing.copy_of_zindependent_results use_2g_bin3 None event_copy 1 2
              [photon_pair 1 10 11] [])
    as (s' & E & V & _).
  - reflexivity.
  - discriminate.
  - reflexivity.
  - reflexivity.
  - discriminate.
  - reflexivity.
  - exists s'. split; [exact E |]. rewrite V. reflexivity.
Defined.

(** On an event where nothing is built the copy is undefined. *)
Lemma copy_without_vector_undefined_witness :
  Comboing.Copy_ZIndependentMixedResults use_2g_bin3 None event_4_photons = None.
Proof.
  apply (Comboing.copy_without_vector_undefined use_2g_bin3 None event_4_photons).
  left. reflexivity.
Defined.

(** The pair (10, 11) extended from position 2 of the candidates 10, 11,
    12: the combo (10, 11, 12). *)
Lemma extend_branch_result_witness :
  exists s',
    Comboing.extend_body bunch_1 common_bunches in_fcal resume_after_pair use_3g Gamma
      d_MixedStage_ZIndependent zindep (Slot_Mixed 0) (photon_pair 1 10 11) event_pair_built
    = Some (tt, s') /\
    dVectors s' !! 2 = Some [MkCombo 2 [(Gamma, 10); (Gamma, 11); (Gamma, 12)] [] true].
Proof.
  assert (Hstart : exists s0 s1,
    valid_bunches (photon_pair 1 10 11) event_pair_built = Some ([1%Z], s0) /\
    Particles.Get_ParticlesForComboing Gamma d_MixedStage_ZIndependent [1%Z] zindep s0
    = Some ([10; 11; 12], s1) /\
    slot_map (Slot_Mixed 0) s1 !! use_3g = Some 2 /\
    dVectors s1 !! 2 = Some [] /\ dNextCombo s1 = 2 /\
    content_of s1 2 <> d_Charged).
  { eexists _, _. split; [vm_compute; reflexivity |].
    split; [vm_compute; reflexivity |].
    split; [reflexivity |]. split; [reflexivity |]. split; [reflexivity |]. discriminate. }
  destruct Hstart as (s0 & s1 & Hb & Hp & Hu & Hv & Hn & Hc).
  destruct (Comboing.extend_branch_result bunch_1 common_bunches in_fcal resume_after_pair
              use_3g Gamma d_MixedStage_ZIndependent (photon_pair 1 10 11)
              event_pair_built s0 s1 [1%Z] [10; 11; 12] 2 []
              Hb Hp (le_S 2 2 (le_n 2)) Hu ltac:(discriminate) Hv (or_intror Hc))
    as (s' & E & _ & V).
  rewrite Hn in V. exists s'. split; [exact E | exact V].
Defined.

End Scenarios.
